(** * LemonNES: the PPU register file and timing, and the APU

    A shallow embedding of [ppu.js] and of the fuller [apu.js] (the one with
    DMC DMA and the sticky IRQ flags).  Every class of the source becomes a
    module holding a record for its fields and one function per method;
    methods that mutate [this] return the new record.

    Numbers.  JavaScript numbers that only ever hold integers are [Z].
    The bit operators of the source work on 32-bit two's complement
    integers: [JS.and], [JS.or], [JS.xor], [JS.shl] and [JS.shr] write the
    conversion out.  The cycle accumulators hold fractions; they are exact
    rationals ([Q]) here, and [Qred] only puts a fraction in lowest terms.
    The volume and the audio samples are [JS.number]s: a finite value, held
    as an exact rational, an infinity or NaN.  The arithmetic on finite
    values is exact, so the rounding of IEEE doubles is outside this
    development: where an accumulator of the source comes within rounding
    of its threshold, the cycle in which it reaches it can differ from the
    one here, and nothing below counts the samples produced.  The rounding
    to single precision of a store into a [Float32Array] is
    [JS.fround]. *)

From Stdlib Require Import ZArith QArith Qround Lia Lqa Bool List.
From stdpp Require Import base list.
Import ListNotations.

#[local] Open Scope Z_scope.

(** ** JavaScript primitives *)

Module JS.

(** ToInt32: reduction modulo 2^32 into [-2^31, 2^31). *)
Definition int32 (z : Z) : Z := (z + 2 ^ 31) mod 2 ^ 32 - 2 ^ 31.

Definition and (a b : Z) : Z := Z.land (int32 a) (int32 b).
Definition or (a b : Z) : Z := Z.lor (int32 a) (int32 b).
Definition xor (a b : Z) : Z := Z.lxor (int32 a) (int32 b).
Definition shl (a n : Z) : Z := int32 (Z.shiftl (int32 a) (n mod 32)).
Definition shr (a n : Z) : Z := Z.shiftr (int32 a) (n mod 32).

(** Truthiness of a number: [!!n]. *)
Definition truthy (n : Z) : bool := negb (n =? 0).

(** [arr[i]] on an array of numbers: [None] is [undefined]. *)
Definition index (arr : list Z) (i : Z) : option Z :=
  if i <? 0 then None else arr !! Z.to_nat i.

(** [x || d] where [x] is a number or [undefined]. *)
Definition or_else (x : option Z) (d : Z) : Z :=
  match x with
  | Some v => if v =? 0 then d else v
  | None => d
  end.

(** [arr[i] = v] on a [Uint8Array]: the value is stored modulo 256 and a
    store outside the array is ignored. *)
Definition store8 (arr : list Z) (i v : Z) : list Z :=
  if i <? 0 then arr else <[Z.to_nat i := v mod 256]> arr.

(** [arr[i] = v] on a [Uint8ClampedArray]: the value is clamped to
    [0, 255] and a store outside the array is ignored. *)
Definition store8c (arr : list Z) (i v : Z) : list Z :=
  if i <? 0 then arr else <[Z.to_nat i := Z.max 0 (Z.min 255 v)]> arr.

(** A number that may hold a fraction: a finite value, an infinity
    ([Inf true] is [-Infinity]) or NaN.  The two zeros are not told
    apart. *)
Inductive number :=
| Num (q : Q)
| Inf (negative : bool)
| NaN.

Definition negative (q : Q) : bool := negb (Qle_bool 0 q).

(** [x < y] and [x > y]: false as soon as one side is NaN. *)
Definition lt (x y : number) : bool :=
  match x, y with
  | Num p, Num q => negb (Qle_bool q p)
  | Num _, Inf n => negb n
  | Inf n, Num _ => n
  | Inf n, Inf m => n && negb m
  | _, _ => false
  end.

Definition gt (x y : number) : bool := lt y x.

(** [x * y]. *)
Definition mul (x y : number) : number :=
  match x, y with
  | Num p, Num q => Num (p * q)
  | Num p, Inf n | Inf n, Num p =>
      if Qeq_bool p 0 then NaN else Inf (xorb n (negative p))
  | Inf n, Inf m => Inf (xorb n m)
  | _, _ => NaN
  end.

(** [x - y]. *)
Definition sub (x y : number) : number :=
  match x, y with
  | Num p, Num q => Num (p - q)
  | Num _, Inf n => Inf (negb n)
  | Inf n, Num _ => Inf n
  | Inf n, Inf m => if Bool.eqb n m then NaN else Inf n
  | _, _ => NaN
  end.

(** Rounding to the nearest integer, a tie going to the even one. *)
Definition round_half_even (x : Q) : Z :=
  let f := Qfloor x in
  match Qcompare (x - inject_Z f) (1 # 2) with
  | Lt => f
  | Gt => f + 1
  | Eq => if Z.even f then f else f + 1
  end.

(** The exponent of a positive value: [2 ^ ilog2 x <= x < 2 ^ (ilog2 x + 1)]. *)
Definition ilog2 (x : Q) : Z :=
  let k := Z.log2 (Qnum x) - Z.log2 (Zpos (Qden x)) in
  if Qle_bool (Qpower 2 k) x then k else k - 1.

(** [Math.fround]: the nearest single-precision value (24 significant
    bits, exponents from -126 to 127, gradual underflow, a tie going to the
    even significand), which is what a [Float32Array] keeps of a number
    stored into it. *)
Definition fround (x : number) : number :=
  match x with
  | Num q =>
      if Qeq_bool q 0 then Num 0
      else
        let a := if negative q then Qopp q else q in
        let quantum := Qpower 2 (Z.max (ilog2 a) (-126) - 23) in
        let r := Qred (inject_Z (round_half_even (a / quantum)) * quantum) in
        if Qle_bool (Qpower 2 128) r then Inf (negative q)
        else Num (if negative q then Qopp r else r)
  | _ => x
  end.

(** [for (let i = 0; i < n; i++) body(i)] threading a state. *)
Definition for_range {S : Type} (n : Z) (body : Z -> S -> S) (s : S) : S :=
  fold_left (fun acc i => body (Z.of_nat i) acc) (seq 0 (Z.to_nat n)) s.

End JS.

(** ** ppu.js *)

Module PPU.

Record t := mk {
  ctrl : Z;                (* $2000 *)
  mask : Z;                (* $2001 *)
  status : Z;              (* $2002 *)
  oamAddr : Z;             (* $2003 *)
  scrollX : option Z;      (* $2005; [None] is JavaScript's [null] *)
  scrollY : Z;             (* $2005 *)
  addr : Z;                (* $2006 *)
  data : Z;                (* $2007 *)
  vram : list Z;           (* Uint8Array(0x4000) *)
  oam : list Z;            (* Uint8Array(256) *)
  frameBuffer : list Z;    (* frameBuffer.data, RGBA bytes, 256 x 240 x 4 *)
  cycle : Z;
  scanline : Z;
  presented : nat          (* calls of ctx.putImageData so far *)
}.

Definition screenWidth : Z := 256.
Definition screenHeight : Z := 240.

Definition palette : list (Z * Z * Z) :=
  [ (84, 84, 84); (0, 30, 116); (8, 16, 144); (48, 0, 136);
    (68, 0, 100); (92, 0, 48); (84, 4, 0); (60, 24, 0);
    (32, 42, 0); (8, 58, 0); (0, 64, 0); (0, 60, 0);
    (0, 50, 60); (0, 0, 0); (0, 0, 0); (0, 0, 0) ].

(** The constructor. *)
Definition new : t :=
  {| ctrl := 0; mask := 0; status := 0; oamAddr := 0;
     scrollX := Some 0; scrollY := 0; addr := 0; data := 0;
     vram := repeat 0 (Z.to_nat 0x4000);
     oam := repeat 0 (Z.to_nat 256);
     frameBuffer := repeat 0 (Z.to_nat (screenWidth * screenHeight * 4));
     cycle := 0; scanline := 0; presented := 0%nat |}.

Definition with_status (v : Z) (p : t) : t :=
  {| ctrl := ctrl p; mask := mask p; status := v; oamAddr := oamAddr p;
     scrollX := scrollX p; scrollY := scrollY p; addr := addr p;
     data := data p; vram := vram p; oam := oam p;
     frameBuffer := frameBuffer p; cycle := cycle p;
     scanline := scanline p; presented := presented p |}.

Definition with_addr (v : Z) (p : t) : t :=
  {| ctrl := ctrl p; mask := mask p; status := status p; oamAddr := oamAddr p;
     scrollX := scrollX p; scrollY := scrollY p; addr := v;
     data := data p; vram := vram p; oam := oam p;
     frameBuffer := frameBuffer p; cycle := cycle p;
     scanline := scanline p; presented := presented p |}.

Definition with_vram (v : list Z) (p : t) : t :=
  {| ctrl := ctrl p; mask := mask p; status := status p; oamAddr := oamAddr p;
     scrollX := scrollX p; scrollY := scrollY p; addr := addr p;
     data := data p; vram := v; oam := oam p;
     frameBuffer := frameBuffer p; cycle := cycle p;
     scanline := scanline p; presented := presented p |}.

Definition with_oam (a : Z) (o : list Z) (p : t) : t :=
  {| ctrl := ctrl p; mask := mask p; status := status p; oamAddr := a;
     scrollX := scrollX p; scrollY := scrollY p; addr := addr p;
     data := data p; vram := vram p; oam := o;
     frameBuffer := frameBuffer p; cycle := cycle p;
     scanline := scanline p; presented := presented p |}.

Definition with_scroll (x : option Z) (y : Z) (p : t) : t :=
  {| ctrl := ctrl p; mask := mask p; status := status p; oamAddr := oamAddr p;
     scrollX := x; scrollY := y; addr := addr p;
     data := data p; vram := vram p; oam := oam p;
     frameBuffer := frameBuffer p; cycle := cycle p;
     scanline := scanline p; presented := presented p |}.

Definition with_timing (c s : Z) (p : t) : t :=
  {| ctrl := ctrl p; mask := mask p; status := status p; oamAddr := oamAddr p;
     scrollX := scrollX p; scrollY := scrollY p; addr := addr p;
     data := data p; vram := vram p; oam := oam p;
     frameBuffer := frameBuffer p; cycle := c;
     scanline := s; presented := presented p |}.

Definition with_frame (fb : list Z) (n : nat) (p : t) : t :=
  {| ctrl := ctrl p; mask := mask p; status := status p; oamAddr := oamAddr p;
     scrollX := scrollX p; scrollY := scrollY p; addr := addr p;
     data := data p; vram := vram p; oam := oam p;
     frameBuffer := fb; cycle := cycle p;
     scanline := scanline p; presented := n |}.

(** [readRegister(addr)]: the value returned ([None] is [undefined], read
    from [vram] outside the array) and the state left behind. *)
Definition readRegister (a : Z) (p : t) : option Z * t :=
  if a =? 0x2002 then
    (Some (status p), with_status (JS.and (status p) 0x7F) p)
  else if a =? 0x2007 then
    (JS.index (vram p) (addr p), with_addr (addr p + 1) p)
  else (Some 0, p).

(** [writeRegister(addr, value)]. *)
Definition writeRegister (a value : Z) (p : t) : t :=
  if a =? 0x2000 then
    {| ctrl := value; mask := mask p; status := status p;
       oamAddr := oamAddr p; scrollX := scrollX p; scrollY := scrollY p;
       addr := addr p; data := data p; vram := vram p; oam := oam p;
       frameBuffer := frameBuffer p; cycle := cycle p;
       scanline := scanline p; presented := presented p |}
  else if a =? 0x2001 then
    {| ctrl := ctrl p; mask := value; status := status p;
       oamAddr := oamAddr p; scrollX := scrollX p; scrollY := scrollY p;
       addr := addr p; data := data p; vram := vram p; oam := oam p;
       frameBuffer := frameBuffer p; cycle := cycle p;
       scanline := scanline p; presented := presented p |}
  else if a =? 0x2003 then with_oam value (oam p) p
  else if a =? 0x2004 then
    with_oam (oamAddr p + 1) (JS.store8 (oam p) (oamAddr p) value) p
  else if a =? 0x2005 then
    match scrollX p with
    | None => with_scroll (Some value) (scrollY p) p
    | Some _ => with_scroll None value p
    end
  else if a =? 0x2006 then with_addr (JS.or (JS.shl (addr p) 8) value) p
  else if a =? 0x2007 then
    with_addr (addr p + 1) (with_vram (JS.store8 (vram p) (addr p) value) p)
  else p.

(** [drawPixel(x, y, color)] on [frameBuffer.data] (a store outside the
    buffer is ignored). *)
Definition drawPixel (x y : Z) (color : Z * Z * Z) (fb : list Z) : list Z :=
  let idx := (y * screenWidth + x) * 4 in
  let '(r, g, b) := color in
  JS.store8c (JS.store8c (JS.store8c (JS.store8c fb idx r) (idx + 1) g)
                (idx + 2) b) (idx + 3) 255.

(** The byte at [i] of a typed array ([undefined] behaves as 0 in the
    shifts below). *)
Definition byte_at (arr : list Z) (i : Z) : Z :=
  default 0 (JS.index arr i).

Definition colorIndex (patternLow patternHigh col : Z) : Z :=
  let bit0 := JS.and (JS.shr patternLow (7 - col)) 1 in
  let bit1 := JS.and (JS.shr patternHigh (7 - col)) 1 in
  JS.or (JS.shl bit1 1) bit0.

Definition palette_at (i : Z) : Z * Z * Z :=
  default (0, 0, 0) (palette !! Z.to_nat i).

Definition renderBackground (p : t) (fb : list Z) : list Z :=
  let nameTableStart := 0x2000 in
  JS.for_range 30 (fun tileY =>
    JS.for_range 32 (fun tileX fb =>
      let tileIndex := byte_at (vram p) (nameTableStart + tileY * 32 + tileX) in
      let patternLow := byte_at (vram p) (tileIndex * 16) in
      let patternHigh := byte_at (vram p) (tileIndex * 16 + 8) in
      JS.for_range 8 (fun row =>
        JS.for_range 8 (fun col fb =>
          let color := palette_at (colorIndex patternLow patternHigh col) in
          drawPixel (tileX * 8 + col) (tileY * 8 + row) color fb)) fb)) fb.

Definition renderSprites (p : t) (fb : list Z) : list Z :=
  JS.for_range 64 (fun i fb =>
    let yPos := byte_at (oam p) (i * 4) in
    let tileIndex := byte_at (oam p) (i * 4 + 1) in
    let xPos := byte_at (oam p) (i * 4 + 3) in
    let patternLow := byte_at (vram p) (tileIndex * 16) in
    let patternHigh := byte_at (vram p) (tileIndex * 16 + 8) in
    JS.for_range 8 (fun row =>
      JS.for_range 8 (fun col fb =>
        let ci := colorIndex patternLow patternHigh col in
        if ci =? 0 then fb
        else drawPixel (xPos + col) (yPos + row) (palette_at ci) fb)) fb) fb.

Definition renderFrame (p : t) : t :=
  with_frame (renderSprites p (renderBackground p (frameBuffer p)))
             (S (presented p)) p.

(** [step()]. *)
Definition step (p : t) : t :=
  let c := cycle p + 1 in
  if 340 <? c then
    let p1 := with_timing 0 (scanline p + 1) p in
    let p2 :=
      if scanline p1 =? 241
      then renderFrame (with_status (JS.or (status p1) 0x80) p1)
      else p1 in
    if 262 <=? scanline p2
    then with_status (JS.and (status p2) 0x7F) (with_timing (cycle p2) 0 p2)
    else p2
  else with_timing c (scanline p) p.

End PPU.

(** ** apu.js: constants *)

Definition NTSC_CPU_HZ : Z := 1789773.
Definition DEFAULT_SAMPLE_RATE : Z := 48000.

Definition DMC_RATES : list Z :=
  [ 428; 380; 340; 320; 286; 254; 226; 214;
    190; 160; 142; 128; 106;  85;  72;  54 ].

Definition NOISE_PERIODS : list Z :=
  [   4;   8;  16;  32;  64;  96; 128; 160;
    202; 254; 380; 508; 762; 1016; 2034; 4068 ].

Definition LENGTH_TABLE : list Z :=
  [  10; 254; 20;  2; 40;  4; 80;  6;
    160;   8; 60; 10; 14; 12; 26; 14;
     12;  16; 24; 18; 48; 20; 96; 22;
    192;  24; 72; 26; 16; 28; 32; 30 ].

Definition clamp01 (x : JS.number) : JS.number :=
  if JS.lt x (JS.Num 0) then JS.Num 0
  else if JS.gt x (JS.Num 1) then JS.Num 1
  else x.

(** ** Shared units *)

Module Envelope.

Record t := mk {
  loop : bool;
  constantVolume : bool;
  volume : Z;
  start : bool;
  decay : Z;
  divider : Z
}.

Definition new : t :=
  {| loop := false; constantVolume := false; volume := 0;
     start := false; decay := 0; divider := 0 |}.

Definition write (n : Z) (e : t) : t :=
  {| loop := JS.truthy (JS.and n 0x20);
     constantVolume := JS.truthy (JS.and n 0x10);
     volume := JS.and n 0x0F;
     start := start e; decay := decay e; divider := divider e |}.

Definition restart (e : t) : t :=
  {| loop := loop e; constantVolume := constantVolume e; volume := volume e;
     start := true; decay := decay e; divider := divider e |}.

Definition quarter (e : t) : t :=
  if start e then
    {| loop := loop e; constantVolume := constantVolume e;
       volume := volume e;
       start := false; decay := 15; divider := volume e |}
  else if divider e =? 0 then
    {| loop := loop e; constantVolume := constantVolume e;
       volume := volume e; start := start e;
       decay := if 0 <? decay e then decay e - 1
                else if loop e then 15 else decay e;
       divider := volume e |}
  else
    {| loop := loop e; constantVolume := constantVolume e;
       volume := volume e; start := start e;
       decay := decay e; divider := divider e - 1 |}.

Definition out (e : t) : Z :=
  if constantVolume e then volume e else decay e.

End Envelope.

Module LengthCounter.

Record t := mk { value : Z; halt : bool }.

Definition new : t := {| value := 0; halt := false |}.

Definition load (index : Z) (l : t) : t :=
  {| value := JS.or_else (JS.index LENGTH_TABLE (JS.and index 0x1F)) 0;
     halt := halt l |}.

Definition half (l : t) : t :=
  if negb (halt l) && (0 <? value l)
  then {| value := value l - 1; halt := halt l |}
  else l.

Definition zero (l : t) : bool := value l =? 0.

Definition with_halt (h : bool) (l : t) : t :=
  {| value := value l; halt := h |}.

Definition with_value (v : Z) (l : t) : t :=
  {| value := v; halt := halt l |}.

End LengthCounter.

(** ** Pulse (x2) *)

(** The sweep unit keeps a reference to the pulse channel that owns it and
    reads and writes that channel's [timer].  Here [target] and [half] take
    the owner's timer as an argument and [half] returns the timer it leaves
    in the owner. *)
Module Sweep.

Record t := mk {
  isPulse1 : bool;
  enabled : bool;
  period : Z;
  negate : bool;
  shift : Z;
  counter : Z;
  reload : bool
}.

Definition new (isPulse1 : bool) : t :=
  {| isPulse1 := isPulse1; enabled := false; period := 0; negate := false;
     shift := 0; counter := 0; reload := false |}.

Definition write (n : Z) (s : t) : t :=
  {| isPulse1 := isPulse1 s;
     enabled := JS.truthy (JS.and n 0x80);
     period := JS.and (JS.shr n 4) 0x07;
     negate := JS.truthy (JS.and n 0x08);
     shift := JS.and n 0x07;
     counter := counter s;
     reload := true |}.

Definition target (s : t) (timer : Z) : Z :=
  let p := timer in
  let change := JS.shr p (shift s) in
  if shift s =? 0 then p
  else
    let t := if negate s then p - change else p + change in
    if negate s && isPulse1 s then t - 1 else t.

Definition with_counter (c : Z) (r : bool) (s : t) : t :=
  {| isPulse1 := isPulse1 s; enabled := enabled s; period := period s;
     negate := negate s; shift := shift s; counter := c; reload := r |}.

Definition half (s : t) (timer : Z) : t * Z :=
  let '(s1, timer1) :=
    if counter s =? 0 then
      let timer' :=
        if enabled s && negb (shift s =? 0) then
          let t := target s timer in
          if (t <? 0x800) && (8 <=? timer) then t else timer
        else timer in
      (with_counter (period s) (reload s) s, timer')
    else (with_counter (counter s - 1) (reload s) s, timer) in
  let s2 := if reload s1 then with_counter (period s1) false s1 else s1 in
  (s2, timer1).

End Sweep.

Module Pulse.

Record t := mk {
  enabled : bool;
  env : Envelope.t;
  len : LengthCounter.t;
  sweep : Sweep.t;
  duty : Z;
  dutyStep : Z;
  timer : Z;
  timerCnt : Z
}.

Definition new (isPulse1 : bool) : t :=
  {| enabled := false; env := Envelope.new; len := LengthCounter.new;
     sweep := Sweep.new isPulse1; duty := 0; dutyStep := 0;
     timer := 0; timerCnt := 0 |}.

Definition write0 (n : Z) (p : t) : t :=
  let env' := Envelope.write n (env p) in
  {| enabled := enabled p; env := env';
     len := LengthCounter.with_halt (Envelope.loop env') (len p);
     sweep := sweep p;
     duty := JS.and (JS.shr n 6) 3;
     dutyStep := dutyStep p; timer := timer p; timerCnt := timerCnt p |}.

Definition write1 (n : Z) (p : t) : t :=
  {| enabled := enabled p; env := env p; len := len p;
     sweep := Sweep.write n (sweep p);
     duty := duty p; dutyStep := dutyStep p;
     timer := timer p; timerCnt := timerCnt p |}.

Definition write2 (n : Z) (p : t) : t :=
  {| enabled := enabled p; env := env p; len := len p; sweep := sweep p;
     duty := duty p; dutyStep := dutyStep p;
     timer := JS.or (JS.and (timer p) 0x700) n;
     timerCnt := timerCnt p |}.

Definition write3 (n : Z) (p : t) : t :=
  {| enabled := enabled p;
     env := Envelope.restart (env p);
     len := if enabled p
            then LengthCounter.load (JS.and (JS.shr n 3) 0x1F) (len p)
            else len p;
     sweep := sweep p;
     duty := duty p;
     dutyStep := 0;
     timer := JS.or (JS.and (timer p) 0x0FF) (JS.shl (JS.and n 7) 8);
     timerCnt := timerCnt p |}.

Definition setEnabled (on : Z) (p : t) : t :=
  let en := JS.truthy on in
  {| enabled := en; env := env p;
     len := if negb en then LengthCounter.with_value 0 (len p) else len p;
     sweep := sweep p; duty := duty p; dutyStep := dutyStep p;
     timer := timer p; timerCnt := timerCnt p |}.

Definition quarter (p : t) : t :=
  {| enabled := enabled p; env := Envelope.quarter (env p); len := len p;
     sweep := sweep p; duty := duty p; dutyStep := dutyStep p;
     timer := timer p; timerCnt := timerCnt p |}.

Definition half (p : t) : t :=
  let len' := LengthCounter.half (len p) in
  let '(sweep', timer') := Sweep.half (sweep p) (timer p) in
  {| enabled := enabled p; env := env p; len := len';
     sweep := sweep'; duty := duty p; dutyStep := dutyStep p;
     timer := timer'; timerCnt := timerCnt p |}.

Definition clock (p : t) : t :=
  if timerCnt p =? 0 then
    {| enabled := enabled p; env := env p; len := len p; sweep := sweep p;
       duty := duty p;
       dutyStep := JS.and (dutyStep p + 1) 7;
       timer := timer p;
       timerCnt := timer p |}
  else
    {| enabled := enabled p; env := env p; len := len p; sweep := sweep p;
       duty := duty p; dutyStep := dutyStep p; timer := timer p;
       timerCnt := timerCnt p - 1 |}.

Definition DUTY : list (list Z) :=
  [ [0;0;0;0;0;0;0;1];
    [0;0;0;0;0;0;1;1];
    [0;0;0;0;1;1;1;1];
    [1;1;1;1;1;1;0;0] ].

(** [DUTY[duty][dutyStep]]; [None] is [undefined]. *)
Definition gate (p : t) : option Z :=
  if duty p <? 0 then None
  else match DUTY !! Z.to_nat (duty p) with
       | Some row => JS.index row (dutyStep p)
       | None => None
       end.

Definition out (p : t) : Z :=
  if negb (enabled p) || LengthCounter.zero (len p) || (timer p <? 8) then 0
  else if JS.truthy (JS.or_else (gate p) 0) then Envelope.out (env p) else 0.

End Pulse.

(** ** Triangle *)

Module Triangle.

Record t := mk {
  enabled : bool;
  len : LengthCounter.t;
  control : bool;
  linearReload : Z;
  linear : Z;
  reloadFlag : bool;
  timer : Z;
  timerCnt : Z;
  step : Z
}.

Definition new : t :=
  {| enabled := false; len := LengthCounter.new; control := false;
     linearReload := 0; linear := 0; reloadFlag := false;
     timer := 0; timerCnt := 0; step := 0 |}.

Definition write0 (n : Z) (c : t) : t :=
  let control' := JS.truthy (JS.and n 0x80) in
  {| enabled := enabled c;
     len := LengthCounter.with_halt control' (len c);
     control := control';
     linearReload := JS.and n 0x7F;
     linear := linear c; reloadFlag := reloadFlag c;
     timer := timer c; timerCnt := timerCnt c; step := step c |}.

Definition write2 (n : Z) (c : t) : t :=
  {| enabled := enabled c; len := len c; control := control c;
     linearReload := linearReload c; linear := linear c;
     reloadFlag := reloadFlag c;
     timer := JS.or (JS.and (timer c) 0x700) n;
     timerCnt := timerCnt c; step := step c |}.

Definition write3 (n : Z) (c : t) : t :=
  {| enabled := enabled c;
     len := if enabled c
            then LengthCounter.load (JS.and (JS.shr n 3) 0x1F) (len c)
            else len c;
     control := control c;
     linearReload := linearReload c; linear := linear c;
     reloadFlag := true;
     timer := JS.or (JS.and (timer c) 0x0FF) (JS.shl (JS.and n 7) 8);
     timerCnt := timerCnt c; step := step c |}.

Definition setEnabled (on : Z) (c : t) : t :=
  let en := JS.truthy on in
  {| enabled := en;
     len := if negb en then LengthCounter.with_value 0 (len c) else len c;
     control := control c;
     linearReload := linearReload c; linear := linear c;
     reloadFlag := reloadFlag c;
     timer := timer c; timerCnt := timerCnt c; step := step c |}.

Definition quarter (c : t) : t :=
  {| enabled := enabled c; len := len c; control := control c;
     linearReload := linearReload c;
     linear := if reloadFlag c then linearReload c
               else if 0 <? linear c then linear c - 1 else linear c;
     reloadFlag := if negb (control c) then false else reloadFlag c;
     timer := timer c; timerCnt := timerCnt c; step := step c |}.

Definition half (c : t) : t :=
  {| enabled := enabled c; len := LengthCounter.half (len c);
     control := control c;
     linearReload := linearReload c; linear := linear c;
     reloadFlag := reloadFlag c;
     timer := timer c; timerCnt := timerCnt c; step := step c |}.

Definition clock (c : t) : t :=
  if timerCnt c =? 0 then
    {| enabled := enabled c; len := len c; control := control c;
       linearReload := linearReload c; linear := linear c;
       reloadFlag := reloadFlag c;
       timer := timer c;
       timerCnt := timer c;
       step := if negb (LengthCounter.zero (len c)) && (0 <? linear c)
               then JS.and (step c + 1) 31 else step c |}
  else
    {| enabled := enabled c; len := len c; control := control c;
       linearReload := linearReload c; linear := linear c;
       reloadFlag := reloadFlag c;
       timer := timer c; timerCnt := timerCnt c - 1; step := step c |}.

Definition TRI : list Z :=
  [ 15;14;13;12;11;10;9;8;7;6;5;4;3;2;1;0;
     0; 1; 2; 3; 4; 5;6;7;8;9;10;11;12;13;14;15 ].

(** [step] stays in [0, 31], where [TRI[step]] is defined. *)
Definition out (c : t) : Z :=
  if negb (enabled c) || LengthCounter.zero (len c) || (linear c =? 0)
     || (timer c <? 2)
  then 0
  else default 0 (JS.index TRI (step c)).

End Triangle.

(** ** Noise *)

Module Noise.

Record t := mk {
  enabled : bool;
  env : Envelope.t;
  len : LengthCounter.t;
  mode : Z;
  periodIdx : Z;
  timerCnt : Z;
  lfsr : Z
}.

Definition new : t :=
  {| enabled := false; env := Envelope.new; len := LengthCounter.new;
     mode := 0; periodIdx := 0; timerCnt := 0; lfsr := 1 |}.

Definition write0 (n : Z) (c : t) : t :=
  let env' := Envelope.write n (env c) in
  {| enabled := enabled c; env := env';
     len := LengthCounter.with_halt (Envelope.loop env') (len c);
     mode := mode c; periodIdx := periodIdx c;
     timerCnt := timerCnt c; lfsr := lfsr c |}.

Definition write2 (n : Z) (c : t) : t :=
  {| enabled := enabled c; env := env c; len := len c;
     mode := if JS.truthy (JS.and n 0x80) then 1 else 0;
     periodIdx := JS.and n 0x0F;
     timerCnt := timerCnt c; lfsr := lfsr c |}.

Definition write3 (n : Z) (c : t) : t :=
  {| enabled := enabled c;
     env := Envelope.restart (env c);
     len := if enabled c
            then LengthCounter.load (JS.and (JS.shr n 3) 0x1F) (len c)
            else len c;
     mode := mode c; periodIdx := periodIdx c;
     timerCnt := timerCnt c; lfsr := lfsr c |}.

Definition setEnabled (on : Z) (c : t) : t :=
  let en := JS.truthy on in
  {| enabled := en; env := env c;
     len := if negb en then LengthCounter.with_value 0 (len c) else len c;
     mode := mode c; periodIdx := periodIdx c;
     timerCnt := timerCnt c; lfsr := lfsr c |}.

Definition quarter (c : t) : t :=
  {| enabled := enabled c; env := Envelope.quarter (env c); len := len c;
     mode := mode c; periodIdx := periodIdx c;
     timerCnt := timerCnt c; lfsr := lfsr c |}.

Definition half (c : t) : t :=
  {| enabled := enabled c; env := env c;
     len := LengthCounter.half (len c);
     mode := mode c; periodIdx := periodIdx c;
     timerCnt := timerCnt c; lfsr := lfsr c |}.

(** The shift of the feedback register alone. *)
Definition shift_lfsr (mode lfsr : Z) : Z :=
  let bit0 := JS.and lfsr 1 in
  let tap := if JS.truthy mode
             then JS.and (JS.shr lfsr 6) 1
             else JS.and (JS.shr lfsr 1) 1 in
  let fb := JS.xor bit0 tap in
  JS.or (JS.shr lfsr 1) (JS.shl fb 14).

Definition clock (c : t) : t :=
  if timerCnt c =? 0 then
    {| enabled := enabled c; env := env c; len := len c;
       mode := mode c; periodIdx := periodIdx c;
       timerCnt := JS.or_else (JS.index NOISE_PERIODS (periodIdx c)) 4;
       lfsr := shift_lfsr (mode c) (lfsr c) |}
  else
    {| enabled := enabled c; env := env c; len := len c;
       mode := mode c; periodIdx := periodIdx c;
       timerCnt := timerCnt c - 1; lfsr := lfsr c |}.

Definition out (c : t) : Z :=
  if negb (enabled c) || LengthCounter.zero (len c)
     || JS.truthy (JS.and (lfsr c) 1)
  then 0
  else Envelope.out (env c).

End Noise.

(** ** DMC

    The two CPU hooks of the constructor are modelled by the memory the
    read hook looks into, [cpuRead], a log of the addresses [cpuRead] was
    called with (latest first), [reads], and the total of the cycles
    [cpuStall] was called with, [stalled]. *)

Module DMC.

Record t := mk {
  enabled : bool;
  irqEnable : bool;
  loop : bool;
  rateIdx : Z;
  timer : Z;
  timerCnt : Z;
  sampleAddr0 : Z;
  sampleLen0 : Z;
  currentAddr : Z;
  bytesRemaining : Z;
  sampleBufferEmpty : bool;
  sampleBuffer : Z;
  shiftReg : Z;
  bitsRemaining : Z;
  dac : Z;
  irq : bool;
  cpuRead : Z -> Z;
  reads : list Z;
  stalled : Z
}.

Definition new (cpuRead : Z -> Z) : t :=
  {| enabled := false; irqEnable := false; loop := false; rateIdx := 0;
     timer := default 0 (JS.index DMC_RATES 0);
     timerCnt := 0;
     sampleAddr0 := 0xC000; sampleLen0 := 1;
     currentAddr := 0; bytesRemaining := 0;
     sampleBufferEmpty := true; sampleBuffer := 0;
     shiftReg := 0; bitsRemaining := 0;
     dac := 0; irq := false;
     cpuRead := cpuRead; reads := []; stalled := 0 |}.

Definition write0 (n : Z) (d : t) : t :=
  let irqEnable' := JS.truthy (JS.and n 0x80) in
  let rateIdx' := JS.and n 0x0F in
  {| enabled := enabled d;
     irqEnable := irqEnable';
     loop := JS.truthy (JS.and n 0x40);
     rateIdx := rateIdx';
     timer := JS.or_else (JS.index DMC_RATES rateIdx') 428;
     timerCnt := timerCnt d;
     sampleAddr0 := sampleAddr0 d; sampleLen0 := sampleLen0 d;
     currentAddr := currentAddr d; bytesRemaining := bytesRemaining d;
     sampleBufferEmpty := sampleBufferEmpty d;
     sampleBuffer := sampleBuffer d;
     shiftReg := shiftReg d; bitsRemaining := bitsRemaining d;
     dac := dac d;
     irq := if negb irqEnable' then false else irq d;
     cpuRead := cpuRead d; reads := reads d; stalled := stalled d |}.

Definition with_dac (v : Z) (d : t) : t :=
  {| enabled := enabled d; irqEnable := irqEnable d; loop := loop d;
     rateIdx := rateIdx d; timer := timer d; timerCnt := timerCnt d;
     sampleAddr0 := sampleAddr0 d; sampleLen0 := sampleLen0 d;
     currentAddr := currentAddr d; bytesRemaining := bytesRemaining d;
     sampleBufferEmpty := sampleBufferEmpty d;
     sampleBuffer := sampleBuffer d;
     shiftReg := shiftReg d; bitsRemaining := bitsRemaining d;
     dac := v; irq := irq d;
     cpuRead := cpuRead d; reads := reads d; stalled := stalled d |}.

Definition with_sample (a l : Z) (d : t) : t :=
  {| enabled := enabled d; irqEnable := irqEnable d; loop := loop d;
     rateIdx := rateIdx d; timer := timer d; timerCnt := timerCnt d;
     sampleAddr0 := a; sampleLen0 := l;
     currentAddr := currentAddr d; bytesRemaining := bytesRemaining d;
     sampleBufferEmpty := sampleBufferEmpty d;
     sampleBuffer := sampleBuffer d;
     shiftReg := shiftReg d; bitsRemaining := bitsRemaining d;
     dac := dac d; irq := irq d;
     cpuRead := cpuRead d; reads := reads d; stalled := stalled d |}.

Definition with_irq (b : bool) (d : t) : t :=
  {| enabled := enabled d; irqEnable := irqEnable d; loop := loop d;
     rateIdx := rateIdx d; timer := timer d; timerCnt := timerCnt d;
     sampleAddr0 := sampleAddr0 d; sampleLen0 := sampleLen0 d;
     currentAddr := currentAddr d; bytesRemaining := bytesRemaining d;
     sampleBufferEmpty := sampleBufferEmpty d;
     sampleBuffer := sampleBuffer d;
     shiftReg := shiftReg d; bitsRemaining := bitsRemaining d;
     dac := dac d; irq := b;
     cpuRead := cpuRead d; reads := reads d; stalled := stalled d |}.

Definition write1 (n : Z) (d : t) : t := with_dac (JS.and n 0x7F) d.

Definition write2 (n : Z) (d : t) : t :=
  with_sample (0xC000 + JS.shl (JS.and n 0xFF) 6) (sampleLen0 d) d.

Definition write3 (n : Z) (d : t) : t :=
  with_sample (sampleAddr0 d) (JS.shl (JS.and n 0xFF) 4 + 1) d.

(** The playback cursor, the enable flag and the IRQ flag together. *)
Definition with_playback (en : bool) (a b : Z) (i : bool) (d : t) : t :=
  {| enabled := en; irqEnable := irqEnable d; loop := loop d;
     rateIdx := rateIdx d; timer := timer d; timerCnt := timerCnt d;
     sampleAddr0 := sampleAddr0 d; sampleLen0 := sampleLen0 d;
     currentAddr := a; bytesRemaining := b;
     sampleBufferEmpty := sampleBufferEmpty d;
     sampleBuffer := sampleBuffer d;
     shiftReg := shiftReg d; bitsRemaining := bitsRemaining d;
     dac := dac d; irq := i;
     cpuRead := cpuRead d; reads := reads d; stalled := stalled d |}.

Definition setEnabled (on : bool) (d : t) : t :=
  let was := enabled d in
  if on && negb was then
    if bytesRemaining d =? 0
    then with_playback on (sampleAddr0 d) (sampleLen0 d) (irq d) d
    else with_playback on (currentAddr d) (bytesRemaining d) (irq d) d
  else if negb on then
    with_playback on (currentAddr d) 0 false d
  else with_playback on (currentAddr d) (bytesRemaining d) (irq d) d.

Definition refillBufferIfNeeded (d : t) : t :=
  if negb (sampleBufferEmpty d) || (bytesRemaining d =? 0) then d
  else
    let a := JS.and (currentAddr d) 0xFFFF in
    let data := JS.and (cpuRead d a) 0xFF in
    let currentAddr1 := JS.and (currentAddr d + 1) 0xFFFF in
    let bytesRemaining1 := bytesRemaining d - 1 in
    let exhausted := bytesRemaining1 =? 0 in
    {| enabled := enabled d; irqEnable := irqEnable d; loop := loop d;
       rateIdx := rateIdx d; timer := timer d; timerCnt := timerCnt d;
       sampleAddr0 := sampleAddr0 d; sampleLen0 := sampleLen0 d;
       currentAddr :=
         if exhausted && loop d then sampleAddr0 d else currentAddr1;
       bytesRemaining :=
         if exhausted && loop d then sampleLen0 d else bytesRemaining1;
       sampleBufferEmpty := false;
       sampleBuffer := data;
       shiftReg := shiftReg d; bitsRemaining := bitsRemaining d;
       dac := dac d;
       irq := if exhausted && loop d then irq d
              else if exhausted && irqEnable d then true else irq d;
       cpuRead := cpuRead d;
       reads := a :: reads d;
       stalled := stalled d + 4 |}.

(** The shifter and the timer counter. *)
Definition with_output (tc : Z) (empty : bool) (sr bits dac' : Z) (d : t)
  : t :=
  {| enabled := enabled d; irqEnable := irqEnable d; loop := loop d;
     rateIdx := rateIdx d; timer := timer d; timerCnt := tc;
     sampleAddr0 := sampleAddr0 d; sampleLen0 := sampleLen0 d;
     currentAddr := currentAddr d; bytesRemaining := bytesRemaining d;
     sampleBufferEmpty := empty;
     sampleBuffer := sampleBuffer d;
     shiftReg := sr; bitsRemaining := bits;
     dac := dac'; irq := irq d;
     cpuRead := cpuRead d; reads := reads d; stalled := stalled d |}.

(** The part of [clock] after the first refill: the timer, the transfer
    from the buffer to the shifter and the output unit. *)
Definition clock_timer (d : t) : t :=
  if timerCnt d =? 0 then
    if bitsRemaining d =? 0 then
      if negb (sampleBufferEmpty d) then
        refillBufferIfNeeded
          (with_output (timer d) true (sampleBuffer d) 8 (dac d) d)
      else
        with_output (timer d) (sampleBufferEmpty d) (shiftReg d)
                    (bitsRemaining d) (dac d) d
    else
      let dac' :=
        if JS.truthy (JS.and (shiftReg d) 1)
        then (if dac d <=? 125 then dac d + 2 else dac d)
        else (if 2 <=? dac d then dac d - 2 else dac d) in
      with_output (timer d) (sampleBufferEmpty d) (JS.shr (shiftReg d) 1)
                  (bitsRemaining d - 1) dac' d
  else
    with_output (timerCnt d - 1) (sampleBufferEmpty d) (shiftReg d)
                (bitsRemaining d) (dac d) d.

Definition clock (d : t) : t := clock_timer (refillBufferIfNeeded d).

Definition out (d : t) : Z := dac d.

Definition statusActiveBit (d : t) : Z :=
  if 0 <? bytesRemaining d then 1 else 0.

End DMC.

(** ** APU core *)

Module APU.

(** What the frame sequencer delivers to the channels: [Quarter] stands
    for one run of [_clockQuarter] (the four [quarter()] calls), [Half] for
    the four [half()] calls that [_clockQuarterHalf] adds to it. *)
Inductive tick := Quarter | Half.

Record t := mk {
  pulse1 : Pulse.t;
  pulse2 : Pulse.t;
  triangle : Triangle.t;
  noise : Noise.t;
  dmc : DMC.t;
  frameIRQ : bool;
  mode5 : bool;
  irqInhibit : bool;
  seqTime : Q;
  qPeriod : Q;
  _phase : option Z;         (* [None]: the field is not set yet *)
  master : JS.number;
  sampleRate : Q;
  samplePeriod : Q;
  sampleTimer : Q;
  audioEnabled : bool;
  rb : list JS.number;       (* the ring buffer of the WebAudio sink *)
  rw : Z;
  rr : Z;
  ticks : list tick;         (* log of the sequencer's ticks, latest first *)
  irqLine : list bool;       (* levels [_updateIRQLine] reported, latest first *)
  samples : list JS.number   (* samples produced by [step], latest first *)
}.

(** The constructor.  [sampleRate] is the rate in effect and [audio] tells
    whether the WebAudio sink was set up. *)
Definition new (cpuRead : Z -> Z) (sampleRate : Q) (audio : bool) : t :=
  {| pulse1 := Pulse.new true;
     pulse2 := Pulse.new false;
     triangle := Triangle.new;
     noise := Noise.new;
     dmc := DMC.new cpuRead;
     frameIRQ := false;
     mode5 := false;
     irqInhibit := true;
     seqTime := 0;
     qPeriod := inject_Z NTSC_CPU_HZ / 240;
     _phase := None;
     master := JS.Num (3 # 10);
     sampleRate := sampleRate;
     samplePeriod := inject_Z NTSC_CPU_HZ / sampleRate;
     sampleTimer := 0;
     audioEnabled := audio;
     rb := if audio then repeat (JS.Num 0) (Z.to_nat (2048 * 8)) else [];
     rw := 0; rr := 0;
     ticks := []; irqLine := []; samples := [] |}.

Definition with_channels (p1 p2 : Pulse.t) (tr : Triangle.t) (no : Noise.t)
    (d : DMC.t) (a : t) : t :=
  {| pulse1 := p1; pulse2 := p2; triangle := tr; noise := no; dmc := d;
     frameIRQ := frameIRQ a; mode5 := mode5 a; irqInhibit := irqInhibit a;
     seqTime := seqTime a; qPeriod := qPeriod a; _phase := _phase a;
     master := master a; sampleRate := sampleRate a;
     samplePeriod := samplePeriod a; sampleTimer := sampleTimer a;
     audioEnabled := audioEnabled a; rb := rb a; rw := rw a; rr := rr a;
     ticks := ticks a; irqLine := irqLine a; samples := samples a |}.

Definition with_pulse1 (p : Pulse.t) (a : t) : t :=
  with_channels p (pulse2 a) (triangle a) (noise a) (dmc a) a.
Definition with_pulse2 (p : Pulse.t) (a : t) : t :=
  with_channels (pulse1 a) p (triangle a) (noise a) (dmc a) a.
Definition with_triangle (c : Triangle.t) (a : t) : t :=
  with_channels (pulse1 a) (pulse2 a) c (noise a) (dmc a) a.
Definition with_noise (c : Noise.t) (a : t) : t :=
  with_channels (pulse1 a) (pulse2 a) (triangle a) c (dmc a) a.
Definition with_dmc (d : DMC.t) (a : t) : t :=
  with_channels (pulse1 a) (pulse2 a) (triangle a) (noise a) d a.

(** The frame counter's own fields. *)
Definition with_frame (irq m5 inh : bool) (st : Q) (ph : option Z) (a : t)
  : t :=
  {| pulse1 := pulse1 a; pulse2 := pulse2 a; triangle := triangle a;
     noise := noise a; dmc := dmc a;
     frameIRQ := irq; mode5 := m5; irqInhibit := inh;
     seqTime := st; qPeriod := qPeriod a; _phase := ph;
     master := master a; sampleRate := sampleRate a;
     samplePeriod := samplePeriod a; sampleTimer := sampleTimer a;
     audioEnabled := audioEnabled a; rb := rb a; rw := rw a; rr := rr a;
     ticks := ticks a; irqLine := irqLine a; samples := samples a |}.

Definition with_logs (tk : list tick) (il : list bool) (a : t) : t :=
  {| pulse1 := pulse1 a; pulse2 := pulse2 a; triangle := triangle a;
     noise := noise a; dmc := dmc a;
     frameIRQ := frameIRQ a; mode5 := mode5 a; irqInhibit := irqInhibit a;
     seqTime := seqTime a; qPeriod := qPeriod a; _phase := _phase a;
     master := master a; sampleRate := sampleRate a;
     samplePeriod := samplePeriod a; sampleTimer := sampleTimer a;
     audioEnabled := audioEnabled a; rb := rb a; rw := rw a; rr := rr a;
     ticks := tk; irqLine := il; samples := samples a |}.

(** The mixer's volume and the resampler. *)
Definition with_audio (m : JS.number) (st : Q) (buf : list JS.number)
    (w r : Z) (out : list JS.number) (a : t) : t :=
  {| pulse1 := pulse1 a; pulse2 := pulse2 a; triangle := triangle a;
     noise := noise a; dmc := dmc a;
     frameIRQ := frameIRQ a; mode5 := mode5 a; irqInhibit := irqInhibit a;
     seqTime := seqTime a; qPeriod := qPeriod a; _phase := _phase a;
     master := m; sampleRate := sampleRate a;
     samplePeriod := samplePeriod a; sampleTimer := st;
     audioEnabled := audioEnabled a; rb := buf; rw := w; rr := r;
     ticks := ticks a; irqLine := irqLine a; samples := out |}.

Definition _updateIRQLine (a : t) : t :=
  let asserted := DMC.irq (dmc a) || frameIRQ a in
  with_logs (ticks a) (asserted :: irqLine a) a.

Definition cpuIRQ (a : t) : bool := DMC.irq (dmc a) || frameIRQ a.

Definition _clockQuarter (a : t) : t :=
  with_logs (Quarter :: ticks a) (irqLine a)
    (with_channels (Pulse.quarter (pulse1 a)) (Pulse.quarter (pulse2 a))
       (Triangle.quarter (triangle a)) (Noise.quarter (noise a)) (dmc a) a).

Definition _clockQuarterHalf (a0 : t) : t :=
  let a := _clockQuarter a0 in
  with_logs (Half :: ticks a) (irqLine a)
    (with_channels (Pulse.half (pulse1 a)) (Pulse.half (pulse2 a))
       (Triangle.half (triangle a)) (Noise.half (noise a)) (dmc a) a).

(** [write(addr, v)]. *)
Definition write (addr v0 : Z) (a : t) : t :=
  let v := JS.and v0 0xFF in
  if addr =? 0x4000 then with_pulse1 (Pulse.write0 v (pulse1 a)) a
  else if addr =? 0x4001 then with_pulse1 (Pulse.write1 v (pulse1 a)) a
  else if addr =? 0x4002 then with_pulse1 (Pulse.write2 v (pulse1 a)) a
  else if addr =? 0x4003 then with_pulse1 (Pulse.write3 v (pulse1 a)) a
  else if addr =? 0x4004 then with_pulse2 (Pulse.write0 v (pulse2 a)) a
  else if addr =? 0x4005 then with_pulse2 (Pulse.write1 v (pulse2 a)) a
  else if addr =? 0x4006 then with_pulse2 (Pulse.write2 v (pulse2 a)) a
  else if addr =? 0x4007 then with_pulse2 (Pulse.write3 v (pulse2 a)) a
  else if addr =? 0x4008 then with_triangle (Triangle.write0 v (triangle a)) a
  else if addr =? 0x400A then with_triangle (Triangle.write2 v (triangle a)) a
  else if addr =? 0x400B then with_triangle (Triangle.write3 v (triangle a)) a
  else if addr =? 0x400C then with_noise (Noise.write0 v (noise a)) a
  else if addr =? 0x400E then with_noise (Noise.write2 v (noise a)) a
  else if addr =? 0x400F then with_noise (Noise.write3 v (noise a)) a
  else if addr =? 0x4010 then with_dmc (DMC.write0 v (dmc a)) a
  else if addr =? 0x4011 then with_dmc (DMC.write1 v (dmc a)) a
  else if addr =? 0x4012 then with_dmc (DMC.write2 v (dmc a)) a
  else if addr =? 0x4013 then with_dmc (DMC.write3 v (dmc a)) a
  else if addr =? 0x4015 then
    let enableDmc := JS.truthy (JS.and v 0x10) in
    let d := DMC.setEnabled enableDmc (dmc a) in
    _updateIRQLine
      (with_channels
         (Pulse.setEnabled (JS.and v 1) (pulse1 a))
         (Pulse.setEnabled (JS.and v 2) (pulse2 a))
         (Triangle.setEnabled (JS.and v 4) (triangle a))
         (Noise.setEnabled (JS.and v 8) (noise a))
         (if negb enableDmc then DMC.with_irq false d else d)
         a)
  else if addr =? 0x4017 then
    let mode5' := JS.truthy (JS.and v 0x80) in
    let irqInhibit' := JS.truthy (JS.and v 0x40) in
    let a1 :=
      with_frame (if irqInhibit' then false else frameIRQ a)
                 mode5' irqInhibit' 0 (_phase a) a in
    let a2 := if mode5 a1 then _clockQuarterHalf a1 else a1 in
    _updateIRQLine a2
  else a.

(** [read(addr)]: the value returned and the state left behind. *)
Definition read (addr : Z) (a : t) : Z * t :=
  if negb (addr =? 0x4015) then (0, a)
  else
    let p1 := if LengthCounter.zero (Pulse.len (pulse1 a)) then 0 else 1 in
    let p2 := if LengthCounter.zero (Pulse.len (pulse2 a)) then 0 else 2 in
    let tri :=
      if LengthCounter.zero (Triangle.len (triangle a)) then 0 else 4 in
    let noi := if LengthCounter.zero (Noise.len (noise a)) then 0 else 8 in
    let dmcActive :=
      if JS.truthy (DMC.statusActiveBit (dmc a)) then 16 else 0 in
    let frameIrqBit := if frameIRQ a then 0x40 else 0 in
    let dmcIrqBit := if DMC.irq (dmc a) then 0x80 else 0 in
    let val :=
      JS.or (JS.or (JS.or (JS.or (JS.or (JS.or p1 p2) tri) noi) dmcActive)
               frameIrqBit) dmcIrqBit in
    (val,
     _updateIRQLine
       (with_dmc (DMC.with_irq false (dmc a))
          (with_frame false (mode5 a) (irqInhibit a) (seqTime a)
                      (_phase a) a))).

(** The mixer (non-linear approximation). *)
Definition _mix (a : t) : JS.number :=
  let p1 := Pulse.out (pulse1 a) in
  let p2 := Pulse.out (pulse2 a) in
  let tri := Triangle.out (triangle a) in
  let noi := Noise.out (noise a) in
  let dmc := DMC.out (dmc a) in
  let pulseTerm :=
    if JS.truthy p1 || JS.truthy p2
    then ((9588 # 100) / ((8128 / inject_Z (p1 + p2)) + 100))%Q
    else 0%Q in
  let tnd :=
    (inject_Z tri / 8227 + inject_Z noi / 12241 + inject_Z dmc / 22638)%Q in
  let tndTerm :=
    if negb (Qeq_bool tnd 0)
    then ((15979 # 100) / ((1 / tnd) + 100))%Q
    else 0%Q in
  let mixed := JS.mul (JS.Num (pulseTerm + tndTerm)) (master a) in
  JS.sub (JS.mul mixed (JS.Num 2)) (JS.Num 1).

(** [setVolume(v)]: [v] is the number the argument converts to, which is
    all that the comparisons of [clamp01] and the product of [_mix] look
    at. *)
Definition setVolume (v : JS.number) (a : t) : t :=
  with_audio (clamp01 v) (sampleTimer a) (rb a) (rw a) (rr a) (samples a) a.

(** The WebAudio ring buffer, a [Float32Array]: a store keeps the
    sample rounded to single precision. *)
Definition _pushSample (s : JS.number) (a : t) : t :=
  let next := Z.rem (rw a + 1) (Z.of_nat (length (rb a))) in
  if negb (next =? rr a)
  then with_audio (master a) (sampleTimer a)
         (<[Z.to_nat (rw a) := JS.fround s]> (rb a)) next (rr a) (samples a) a
  else a.

Definition _deq (a : t) : JS.number * t :=
  if rr a =? rw a then (JS.Num 0, a)
  else
    (default (JS.Num 0) (rb a !! Z.to_nat (rr a)),
     with_audio (master a) (sampleTimer a) (rb a) (rw a)
       (Z.rem (rr a + 1) (Z.of_nat (length (rb a)))) (samples a) a).

(** The channels are clocked once per CPU cycle. *)
Definition clock_channels (a : t) : t :=
  with_channels (Pulse.clock (pulse1 a)) (Pulse.clock (pulse2 a))
    (Triangle.clock (triangle a)) (Noise.clock (noise a))
    (DMC.clock (dmc a)) a.

Definition phase (a : t) : Z := default 0 (_phase a).

Definition with_phase (ph : Z) (a : t) : t :=
  with_frame (frameIRQ a) (mode5 a) (irqInhibit a) (seqTime a) (Some ph) a.

(** [if (!this._phase) this._phase = 0]. *)
Definition init_phase (a : t) : t :=
  if JS.truthy (phase a) then a else with_phase 0 a.

(** The four boundary tests of [step], in the order of the source. *)
Definition boundary1 (q1 now : Q) (a : t) : t :=
  if (phase a =? 0) && Qle_bool q1 now
  then with_phase 1 (_clockQuarter a) else a.

Definition boundary2 (q2 now : Q) (a : t) : t :=
  if (phase a =? 1) && Qle_bool q2 now
  then with_phase 2 (_clockQuarterHalf a) else a.

Definition boundary3 (q3 now : Q) (a : t) : t :=
  if (phase a =? 2) && Qle_bool q3 now
  then with_phase 3 (_clockQuarter a) else a.

(** End of the sequence: the 4-step mode raises the frame IRQ, and the
    accumulator keeps what it holds beyond the period. *)
Definition end_of_sequence (q4 : Q) (a0 : t) : t :=
  let a := _clockQuarterHalf a0 in
  let a := if negb (mode5 a) && negb (irqInhibit a)
           then with_frame true (mode5 a) (irqInhibit a) (seqTime a)
                           (_phase a) a
           else a in
  let a := _updateIRQLine a in
  with_frame (frameIRQ a) (mode5 a) (irqInhibit a)
             (Qred (seqTime a - q4)) (Some 0) a.

Definition boundary4 (q4 now : Q) (a : t) : t :=
  if (phase a =? 3) && Qle_bool q4 now then end_of_sequence q4 a else a.

(** The frame sequencer's part of one iteration of [step]'s loop. *)
Definition sequence (a0 : t) : t :=
  let a := with_frame (frameIRQ a0) (mode5 a0) (irqInhibit a0)
             (seqTime a0 + 1)%Q (_phase a0) a0 in
  let now := seqTime a in
  let q1 := (qPeriod a * 1)%Q in
  let q2 := (qPeriod a * 2)%Q in
  let q3 := (qPeriod a * 3)%Q in
  let q4 := (qPeriod a * 4)%Q in
  let a := init_phase a in
  let a := boundary1 q1 now a in
  let a := boundary2 q2 now a in
  let a := boundary3 q3 now a in
  boundary4 q4 now a.

(** The resampler's part of one iteration of [step]'s loop. *)
Definition resample (a : t) : t :=
  let st := (sampleTimer a + 1)%Q in
  if Qle_bool (samplePeriod a) st then
    let a1 := with_audio (master a) (Qred (st - samplePeriod a)) (rb a)
                (rw a) (rr a) (samples a) a in
    let s := _mix a1 in
    let a2 := if audioEnabled a1 then _pushSample s a1 else a1 in
    with_audio (master a2) (sampleTimer a2) (rb a2) (rw a2) (rr a2)
      (s :: samples a2) a2
  else
    with_audio (master a) st (rb a) (rw a) (rr a) (samples a) a.

(** One iteration of [step]'s loop. *)
Definition cycle (a : t) : t := resample (sequence (clock_channels a)).

(** [step(cycles)]. *)
Definition step (cycles : Z) (a : t) : t :=
  Nat.iter (Z.to_nat cycles) cycle a.

End APU.

(** * Runs of the units

    The operations a caller can apply to a unit, and what a sequence of
    them leaves, starting from the constructor's state. *)

Module PPURun.

Inductive op :=
| Step
| Read (a : Z)
| Write (a v : Z).

Definition run_op (o : op) (p : PPU.t) : PPU.t :=
  match o with
  | Step => PPU.step p
  | Read a => snd (PPU.readRegister a p)
  | Write a v => PPU.writeRegister a v p
  end.

Definition run (ops : list op) (p : PPU.t) : PPU.t :=
  fold_left (fun p o => run_op o p) ops p.

Definition is_step (o : op) : bool :=
  match o with Step => true | _ => false end.

(** Bit 7 of the status register. *)
Definition vblank (p : PPU.t) : bool := Z.testbit (PPU.status p) 7.

(** What the timing and the status register satisfy in every state a run
    reaches. *)
Definition timing_ok (p : PPU.t) : Prop :=
  0 <= PPU.cycle p <= 340 /\ 0 <= PPU.scanline p <= 261 /\
  (PPU.status p = 0 \/ PPU.status p = 0x80 /\ 241 <= PPU.scanline p).

(** The same with the flag tied to the scanline, for runs of [step] alone. *)
Definition vblank_tracks_scanline (p : PPU.t) : Prop :=
  timing_ok p /\ (241 <= PPU.scanline p -> PPU.status p = 0x80).

End PPURun.

Module NoiseRun.

Inductive op :=
| Clock
| Write0 (n : Z)
| Write2 (n : Z)
| Write3 (n : Z)
| SetEnabled (on : Z)
| Quarter
| Half.

Definition run_op (o : op) (c : Noise.t) : Noise.t :=
  match o with
  | Clock => Noise.clock c
  | Write0 n => Noise.write0 n c
  | Write2 n => Noise.write2 n c
  | Write3 n => Noise.write3 n c
  | SetEnabled on => Noise.setEnabled on c
  | Quarter => Noise.quarter c
  | Half => Noise.half c
  end.

Definition run (ops : list op) (c : Noise.t) : Noise.t :=
  fold_left (fun c o => run_op o c) ops c.

(** A nonzero value of 15 bits. *)
Definition lfsr_ok (l : Z) : bool := (0 <? l) && (l <? 2 ^ 15).

End NoiseRun.

Module Sequencer.

(** The frame counter's fields in [b]: the accumulator holds [st], the
    phase is [p], the sticky flag is [irq], the ticks delivered so far are
    [tk], and the mode, the inhibit bit and the quarter period are those
    of [a]. *)
Definition frame_at (b : APU.t) (st : Q) (p : Z) (irq : bool)
    (tk : list APU.tick) (a : APU.t) : Prop :=
  (APU.seqTime b == st)%Q /\ APU.phase b = p /\ APU.frameIRQ b = irq /\
  APU.ticks b = tk /\ APU.mode5 b = APU.mode5 a /\
  APU.irqInhibit b = APU.irqInhibit a /\ APU.qPeriod b = APU.qPeriod a.

(** The start of a sequence in 4-step mode: phase 0, less than one cycle
    in the accumulator, the flag down while IRQs are inhibited. *)
Definition period_start (a : APU.t) : Prop :=
  APU.mode5 a = false /\ APU.phase a = 0 /\
  (0 <= APU.seqTime a < 1)%Q /\
  APU.qPeriod a = (inject_Z NTSC_CPU_HZ / 240)%Q /\
  (APU.irqInhibit a = true -> APU.frameIRQ a = false).


(** The boundaries the accumulator has reached when it holds [x]. *)
Definition boundaries_passed (q x : Q) : Z :=
  if Qle_bool (q * 3) x then 3
  else if Qle_bool (q * 2) x then 2
  else if Qle_bool (q * 1) x then 1
  else 0.

(** The ticks delivered since the start of the sequence once [p]
    boundaries are passed, latest first. *)
Definition ticks_after (p : Z) : list APU.tick :=
  if p =? 0 then []
  else if p =? 1 then [APU.Quarter]
  else if p =? 2 then [APU.Half; APU.Quarter; APU.Quarter]
  else [APU.Quarter; APU.Half; APU.Quarter; APU.Quarter].

End Sequencer.

Module DMCRun.

Inductive op :=
| Clock
| Write0 (n : Z)
| Write1 (n : Z)
| Write2 (n : Z)
| Write3 (n : Z)
| SetEnabled (on : bool)
| ClearIrq.                (* [this.dmc.irq = false] in [APU.write] and [APU.read] *)

Definition run_op (o : op) (d : DMC.t) : DMC.t :=
  match o with
  | Clock => DMC.clock d
  | Write0 n => DMC.write0 n d
  | Write1 n => DMC.write1 n d
  | Write2 n => DMC.write2 n d
  | Write3 n => DMC.write3 n d
  | SetEnabled on => DMC.setEnabled on d
  | ClearIrq => DMC.with_irq false d
  end.

Definition run (ops : list op) (d : DMC.t) : DMC.t :=
  fold_left (fun d o => run_op o d) ops d.

(** [n] calls of [clock]. *)
Definition clocks (n : nat) (d : DMC.t) : DMC.t := Nat.iter n DMC.clock d.





End DMCRun.

Module APURun.

Inductive op :=
| Write (addr v : Z)
| Read (addr : Z)
| Step (cycles : Z)
| SetVolume (v : JS.number).

Definition run_op (o : op) (a : APU.t) : APU.t :=
  match o with
  | Write addr v => APU.write addr v a
  | Read addr => snd (APU.read addr a)
  | Step cycles => APU.step cycles a
  | SetVolume v => APU.setVolume v a
  end.

Definition run (ops : list op) (a : APU.t) : APU.t :=
  fold_left (fun a o => run_op o a) ops a.

(** An envelope whose volume and decay level are 4-bit values. *)
Definition env_ok (e : Envelope.t) : Prop :=
  0 <= Envelope.volume e <= 15 /\ 0 <= Envelope.decay e <= 15.

(** A [setVolume] that is handed a number other than NaN; every other
    operation counts as one. *)
Definition numeric (o : op) : bool :=
  match o with
  | SetVolume JS.NaN => false
  | _ => true
  end.

(** A finite number within [lo, hi]; with [nan] set, NaN passes as
    well. *)
Definition in_range (nan : bool) (lo hi : Q) (x : JS.number) : Prop :=
  match x with
  | JS.Num q => (lo <= q <= hi)%Q
  | JS.Inf _ => False
  | JS.NaN => nan = true
  end.

Definition unit_sample (s : JS.number) : Prop := in_range false (-1) 1 s.

(** What keeps the channel outputs in their ranges: 4-bit envelopes, a
    7-bit DAC level; with it, a volume in [0, 1] and the samples produced
    so far in [-1, 1], or NaN where [nan] allows it. *)
Definition outputs_ok (nan : bool) (a : APU.t) : Prop :=
  env_ok (Pulse.env (APU.pulse1 a)) /\ env_ok (Pulse.env (APU.pulse2 a)) /\
  env_ok (Noise.env (APU.noise a)) /\
  0 <= DMC.dac (APU.dmc a) <= 127 /\
  in_range nan 0 1 (APU.master a) /\
  Forall (in_range nan (-1) 1) (APU.samples a).

End APURun.

(** * Further runs and predicates *)

Module PPUClock.

(** The number of [step] calls in a run. *)
Definition steps (ops : list PPURun.op) : Z :=
  Z.of_nat (length (List.filter PPURun.is_step ops)).

End PPUClock.

Module PPUMemory.

(** The values of a list written one after the other to one register. *)
Definition upload (reg : Z) (vs : list Z) (p : PPU.t) : PPU.t :=
  fold_left (fun p v => PPU.writeRegister reg v p) vs p.

(** What a block of stores from index [a] on leaves at index [i] of an
    array that held [old]: the stores outside the array are dropped. *)
Definition after_stores (a : Z) (vs old : list Z) (i : Z) : option Z :=
  if (0 <=? i) && (i <? Z.of_nat (length old)) then
    if (a <=? i) && (i <? a + Z.of_nat (length vs))
    then option_map (fun v => v mod 256) (JS.index vs (i - a))
    else JS.index old i
  else None.

(** The block of stores itself: [arr[a++] = v] for each [v] of [vs]. *)
Definition stores (a : Z) (vs l : list Z) : Z * list Z :=
  fold_left (fun s v => (fst s + 1, JS.store8 (snd s) (fst s) v)) vs (a, l).

End PPUMemory.

Module PPUFrame.

(** The byte [k] (0 to 3: red, green, blue, alpha) of a pixel that
    [drawPixel] draws in [color]. *)
Definition component (k : Z) (color : Z * Z * Z) : Z :=
  let '(r, g, b) := color in
  if k =? 0 then r else if k =? 1 then g else if k =? 2 then b else 255.

(** The colour [renderBackground] gives the pixel [(x, y)]: that of column
    [x mod 8] of the first pattern row of the tile the name table holds
    for [(x / 8, y / 8)]. *)
Definition background_color (p : PPU.t) (x y : Z) : Z * Z * Z :=
  let tileIndex := PPU.byte_at (PPU.vram p) (0x2000 + (y / 8) * 32 + x / 8) in
  let patternLow := PPU.byte_at (PPU.vram p) (tileIndex * 16) in
  let patternHigh := PPU.byte_at (PPU.vram p) (tileIndex * 16 + 8) in
  PPU.palette_at (PPU.colorIndex patternLow patternHigh (x mod 8)).

(** The byte [renderBackground] leaves at [j] of the frame buffer. *)
Definition background_byte (p : PPU.t) (j : Z) : Z :=
  component (j mod 4)
    (background_color p ((j / 4) mod PPU.screenWidth) (j / 4 / PPU.screenWidth)).

(** [f i] holds for some [i] of [0, n). *)
Definition exists_range (n : Z) (f : Z -> bool) : bool :=
  existsb (fun i => f (Z.of_nat i)) (seq 0 (Z.to_nat n)).

(** [fb'] is [fb] with the bytes selected by [D] replaced by those [V]
    gives. *)
Definition painted (D : Z -> bool) (V : Z -> Z) (fb fb' : list Z) : Prop :=
  length fb' = length fb /\
  forall j, 0 <= j < Z.of_nat (length fb) ->
    JS.index fb' j = if D j then Some (V j) else JS.index fb j.

(** [fb'] is [fb] but for the bytes selected by [D]. *)
Definition touched (D : Z -> bool) (fb fb' : list Z) : Prop :=
  length fb' = length fb /\
  forall j, 0 <= j < Z.of_nat (length fb) -> D j = false ->
    JS.index fb' j = JS.index fb j.

(** The four bytes of pixel [n] of [fb] show [color]. *)
Definition shows (n : Z) (color : Z * Z * Z) (fb : list Z) : Prop :=
  forall k, 0 <= k < 4 -> JS.index fb (n * 4 + k) = Some (component k color).

(** The pixel (counted along the rows, 256 to a row) that sprite [i] draws
    for its [row] and [col], and the colour index it draws there. *)
Definition sprite_pixel (p : PPU.t) (i row col : Z) : Z :=
  (PPU.byte_at (PPU.oam p) (i * 4) + row) * PPU.screenWidth
  + (PPU.byte_at (PPU.oam p) (i * 4 + 3) + col).

Definition sprite_color (p : PPU.t) (i col : Z) : Z :=
  let tileIndex := PPU.byte_at (PPU.oam p) (i * 4 + 1) in
  PPU.colorIndex (PPU.byte_at (PPU.vram p) (tileIndex * 16))
                 (PPU.byte_at (PPU.vram p) (tileIndex * 16 + 8)) col.

(** Sprite [i] draws the pixel of the byte [j] of the frame buffer. *)
Definition sprite_covers (p : PPU.t) (i j : Z) : bool :=
  exists_range 8 (fun row =>
    exists_range 8 (fun col =>
      negb (sprite_color p i col =? 0) && (j / 4 =? sprite_pixel p i row col))).

(** A typed array of [n] bytes. *)
Definition bytes (n : Z) (arr : list Z) : Prop :=
  Z.of_nat (length arr) = n /\ Forall (fun b => 0 <= b < 256) arr.

(** The arrays of the PPU have the sizes the constructor gave them. *)
Definition arrays_ok (p : PPU.t) : Prop :=
  bytes 0x4000 (PPU.vram p) /\ bytes 256 (PPU.oam p) /\
  bytes (PPU.screenWidth * PPU.screenHeight * 4) (PPU.frameBuffer p).

(** Every pixel of the 256 x 240 frame has alpha 255. *)
Definition opaque (fb : list Z) : Prop :=
  forall n, 0 <= n < PPU.screenWidth * PPU.screenHeight ->
    JS.index fb (n * 4 + 3) = Some 255.

(** The [step] that takes the scanline counter to 241. *)
Definition starts_vblank (p : PPU.t) : bool :=
  (340 <? PPU.cycle p + 1) && (PPU.scanline p + 1 =? 241).

End PPUFrame.

Module Channels.

(** A property of each of the five channels of an APU. *)
Definition hold (P1 P2 : Pulse.t -> Prop) (T : Triangle.t -> Prop)
    (N : Noise.t -> Prop) (D : DMC.t -> Prop) (a : APU.t) : Prop :=
  P1 (APU.pulse1 a) /\ P2 (APU.pulse2 a) /\ T (APU.triangle a) /\
  N (APU.noise a) /\ D (APU.dmc a).

(** The operations of a run other than the writes to one register. *)
Definition not_write_to (reg : Z) (o : APURun.op) : bool :=
  match o with
  | APURun.Write addr _ => negb (addr =? reg)
  | _ => true
  end.

(** A channel that is switched off, with its length counter at 0. *)
Definition off (enabled : bool) (len : LengthCounter.t) : Prop :=
  enabled = false /\ LengthCounter.value len = 0.

End Channels.





Module Sequencer5.


End Sequencer5.

Module Audio.

(** The ring buffer has a size and its two indices are inside it. *)
Definition ring_ok (a : APU.t) : Prop :=
  0 < Z.of_nat (length (APU.rb a)) /\
  0 <= APU.rr a < Z.of_nat (length (APU.rb a)) /\
  0 <= APU.rw a < Z.of_nat (length (APU.rb a)).

(** The number of samples waiting in the ring buffer, and the samples
    themselves, oldest first. *)
Definition waiting (a : APU.t) : Z :=
  (APU.rw a - APU.rr a) mod Z.of_nat (length (APU.rb a)).

Definition queued (a : APU.t) : list JS.number :=
  map (fun i => default (JS.Num 0)
                  (APU.rb a !! Z.to_nat ((APU.rr a + Z.of_nat i)
                                         mod Z.of_nat (length (APU.rb a)))))
      (seq 0 (Z.to_nat (waiting a))).

End Audio.

Module Ranges.

Definition length_ok (l : LengthCounter.t) : Prop :=
  0 <= LengthCounter.value l <= 254.

Definition sweep_ok (s : Sweep.t) : Prop :=
  0 <= Sweep.shift s <= 7 /\ 0 <= Sweep.period s <= 7 /\
  0 <= Sweep.counter s <= 7.

(** The fields of a pulse channel are in the ranges of the registers
    they stand for: a 2-bit duty, a 3-bit duty step, 11-bit timers. *)
Definition pulse_ok (p : Pulse.t) : Prop :=
  0 <= Pulse.duty p <= 3 /\ 0 <= Pulse.dutyStep p <= 7 /\
  0 <= Pulse.timer p <= 2047 /\ 0 <= Pulse.timerCnt p <= 2047 /\
  length_ok (Pulse.len p) /\ sweep_ok (Pulse.sweep p).

Definition triangle_ok (c : Triangle.t) : Prop :=
  0 <= Triangle.step c <= 31 /\
  0 <= Triangle.timer c <= 2047 /\ 0 <= Triangle.timerCnt c <= 2047 /\
  0 <= Triangle.linear c <= 127 /\ 0 <= Triangle.linearReload c <= 127 /\
  length_ok (Triangle.len c).

Definition noise_ok (c : Noise.t) : Prop :=
  0 <= Noise.periodIdx c <= 15 /\ 0 <= Noise.timerCnt c <= 4068 /\
  (Noise.mode c = 0 \/ Noise.mode c = 1) /\
  0 < Noise.lfsr c < 2 ^ 15 /\ length_ok (Noise.len c).

Definition dmc_ok (d : DMC.t) : Prop :=
  0 <= DMC.rateIdx d <= 15 /\ 54 <= DMC.timer d <= 428 /\
  0 <= DMC.timerCnt d <= 428 /\ 0 <= DMC.bitsRemaining d <= 8 /\
  0 <= DMC.bytesRemaining d <= 4081 /\ 1 <= DMC.sampleLen0 d <= 4081 /\
  0xC000 <= DMC.sampleAddr0 d <= 0xFFC0 /\
  0 <= DMC.currentAddr d <= 0xFFFF /\
  0 <= DMC.sampleBuffer d <= 255 /\ 0 <= DMC.shiftReg d <= 255 /\
  0 <= DMC.dac d <= 127.

End Ranges.

Module Interrupts.

(** How the frame counter's flags in [b] relate to those in an earlier
    state [a] when no register was written or read in between: the mode
    and the inhibit bit are the same, and the IRQ flag is the same or was
    raised, which takes the 4-step mode with the inhibit bit clear. *)
Definition flags_step (b a : APU.t) : Prop :=
  APU.irqInhibit b = APU.irqInhibit a /\ APU.mode5 b = APU.mode5 a /\
  (APU.frameIRQ b = APU.frameIRQ a \/
   APU.frameIRQ b = true /\ APU.mode5 a = false /\ APU.irqInhibit a = false).

(** An IRQ flag is up only while its source is enabled. *)
Definition frame_flag_ok (a : APU.t) : Prop :=
  APU.frameIRQ a = true -> APU.irqInhibit a = false.

Definition dmc_flag_ok (d : DMC.t) : Prop :=
  DMC.irq d = true -> DMC.irqEnable d = true.

(** The CPU stalls and the addresses of the DMA reads. *)
Definition dma_ok (d : DMC.t) : Prop :=
  DMC.stalled d = 4 * Z.of_nat (length (DMC.reads d)) /\
  Forall (fun a => 0 <= a <= 0xFFFF) (DMC.reads d).

(** The addresses of [k] consecutive DMA reads from [a] on, latest
    first: they wrap from 0xFFFF to 0. *)
Definition dma_addresses (a : Z) (k : nat) : list Z :=
  rev (map (fun i => (a + Z.of_nat i) mod 65536) (seq 0 k)).

(** A playback without loop that started at [a] with the reads [r0]
    already made. *)
Definition reading_from (a : Z) (r0 : list Z) (d : DMC.t) : Prop :=
  DMC.loop d = false /\
  exists k, DMC.reads d = dma_addresses a k ++ r0 /\
            DMC.currentAddr d mod 65536 = (a + Z.of_nat k) mod 65536.

End Interrupts.



(** * Properties *)

(** ** JavaScript primitives *)

Lemma int32_small (z : Z) : - 2 ^ 31 <= z < 2 ^ 31 -> JS.int32 z = z.
Proof.
  intros H. unfold JS.int32.
  rewrite Z.mod_small by lia. lia.
Qed.

(** ** PPU *)

Section PPUFacts.

Import PPU PPURun.

Lemma cycle_step (p : PPU.t) :
  cycle (step p) = if 340 <? cycle p + 1 then 0 else cycle p + 1.
Proof.
  unfold step. destruct (340 <? cycle p + 1); [|reflexivity].
  cbn [scanline with_timing].
  destruct (scanline p + 1 =? 241); destruct (262 <=? _); reflexivity.
Qed.

Lemma scanline_step (p : PPU.t) :
  scanline (step p) =
  if 340 <? cycle p + 1
  then (if 262 <=? scanline p + 1 then 0 else scanline p + 1)
  else scanline p.
Proof.
  unfold step. destruct (340 <? cycle p + 1); [|reflexivity].
  cbn [scanline with_timing].
  destruct (scanline p + 1 =? 241);
    cbn [scanline renderFrame with_frame with_status with_timing];
    destruct (262 <=? _); reflexivity.
Qed.

Lemma status_step (p : PPU.t) :
  status (step p) =
  if 340 <? cycle p + 1 then
    let s1 := if scanline p + 1 =? 241
              then JS.or (status p) 0x80 else status p in
    if 262 <=? scanline p + 1 then JS.and s1 0x7F else s1
  else status p.
Proof.
  unfold step. destruct (340 <? cycle p + 1); [|reflexivity].
  cbn [scanline with_timing].
  destruct (scanline p + 1 =? 241);
    cbn [scanline status renderFrame with_frame with_status with_timing];
    destruct (262 <=? _); reflexivity.
Qed.

Lemma timing_ok_new : timing_ok new.
Proof. unfold timing_ok. cbn. lia. Qed.

Lemma timing_ok_step (p : PPU.t) : timing_ok p -> timing_ok (step p).
Proof.
  unfold timing_ok. intros (Hc & Hs & Hst).
  rewrite cycle_step, scanline_step, status_step.
  destruct (Z.ltb_spec 340 (cycle p + 1)); [|cbn zeta; lia].
  cbn zeta.
  destruct (Z.eqb_spec (scanline p + 1) 241) as [E|E];
    destruct (Z.leb_spec 262 (scanline p + 1)); try lia.
  - destruct Hst as [-> | [-> _]]; vm_compute JS.or; lia.
  - destruct Hst as [-> | [-> _]]; vm_compute JS.and; lia.
Qed.

Lemma timing_ok_read (a : Z) (p : PPU.t) :
  timing_ok p -> timing_ok (snd (readRegister a p)).
Proof.
  unfold timing_ok, readRegister. intros (Hc & Hs & Hst).
  destruct (a =? 0x2002); [|destruct (a =? 0x2007)]; cbn; try tauto.
  repeat split; try lia.
  destruct Hst as [-> | [-> _]]; vm_compute JS.and; lia.
Qed.

Lemma timing_ok_write (a v : Z) (p : PPU.t) :
  timing_ok p -> timing_ok (writeRegister a v p).
Proof.
  unfold timing_ok, writeRegister. intros H.
  repeat match goal with
         | |- context [if ?b then _ else _] => destruct b
         | |- context [match scrollX p with _ => _ end] => destruct (scrollX p)
         end; cbn; exact H.
Qed.

Lemma timing_ok_run (ops : list op) (p : PPU.t) :
  timing_ok p -> timing_ok (run ops p).
Proof.
  revert p. induction ops as [|o ops IH]; intros p H; [exact H|].
  cbn. apply IH. destruct o; cbn.
  - now apply timing_ok_step.
  - now apply timing_ok_read.
  - now apply timing_ok_write.
Qed.

Lemma tracks_step (p : PPU.t) :
  vblank_tracks_scanline p -> vblank_tracks_scanline (step p).
Proof.
  intros [H T]. split; [now apply timing_ok_step|].
  destruct H as (Hc & Hs & Hst).
  rewrite scanline_step, status_step.
  destruct (Z.ltb_spec 340 (cycle p + 1)); [|cbn zeta; exact T].
  cbn zeta.
  destruct (Z.eqb_spec (scanline p + 1) 241) as [E|E];
    destruct (Z.leb_spec 262 (scanline p + 1)); try lia.
  intros _. destruct Hst as [-> | [-> _]]; reflexivity.
Qed.

Lemma tracks_run (ops : list op) (p : PPU.t) :
  forallb is_step ops = true ->
  vblank_tracks_scanline p -> vblank_tracks_scanline (run ops p).
Proof.
  revert p. induction ops as [|o ops IH]; intros p Hs H; [exact H|].
  cbn in Hs. apply andb_prop in Hs as [Ho Hs].
  cbn. apply IH; [exact Hs|].
  destruct o; try discriminate. now apply tracks_step.
Qed.

End PPUFacts.

Section PPURegisters.

Import PPU PPURun.

(** A write to $2005 looks at [scrollX] alone: it fills [scrollX] when that
    field holds [null], and otherwise stores the value in [scrollY] and
    puts [null] in [scrollX]. *)
Lemma write_2005 (v : Z) (p : PPU.t) :
  match scrollX p with
  | None =>
      scrollX (writeRegister 0x2005 v p) = Some v /\
      scrollY (writeRegister 0x2005 v p) = scrollY p
  | Some _ =>
      scrollX (writeRegister 0x2005 v p) = None /\
      scrollY (writeRegister 0x2005 v p) = v
  end.
Proof.
  unfold writeRegister. cbn. destruct (scrollX p); cbn; auto.
Qed.

(** C1 (the code at the failing input).  After the constructor, the first
    write to $2005, of 5, lands in [scrollY] and leaves [null] in [scrollX];
    the second write, of 7, lands in [scrollX] and leaves [scrollY] at 5. *)
Theorem scroll_writes_after_reset :
  scrollX new = Some 0 /\
  scrollX (writeRegister 0x2005 5 new) = None /\
  scrollY (writeRegister 0x2005 5 new) = 5 /\
  scrollX (writeRegister 0x2005 7 (writeRegister 0x2005 5 new)) = Some 7 /\
  scrollY (writeRegister 0x2005 7 (writeRegister 0x2005 5 new)) = 5.
Proof. repeat split. Qed.

(** Two writes of 0xFF to $2006 after the constructor leave the VRAM
    pointer at 0xFFFF, and a write of 0xFF to $2003 leaves the OAM address
    at 255. *)
Lemma addr_ffff_reachable :
  addr (run [Write 0x2006 0xFF; Write 0x2006 0xFF] new) = 0xFFFF /\
  oamAddr (run [Write 0x2003 0xFF] new) = 0xFF.
Proof. split; vm_compute; reflexivity. Qed.

(** C2 (counterexample).  With the VRAM pointer at 0xFFFF a read of $2007
    and a write of $2007 leave it at 0x10000, not at 0; with the OAM
    address at 255 a write of $2004 leaves it at 256, not at 0. *)
Lemma autoincrement_wrap_fails :
  let p := run [Write 0x2006 0xFF; Write 0x2006 0xFF; Write 0x2003 0xFF] new in
  addr (snd (readRegister 0x2007 p)) <> (addr p + 1) mod 2 ^ 16 /\
  addr (writeRegister 0x2007 0 p) <> (addr p + 1) mod 2 ^ 16 /\
  oamAddr (writeRegister 0x2004 0 p) <> (oamAddr p + 1) mod 256.
Proof. repeat split; vm_compute; discriminate. Qed.

(** C2 (amended).  Every access to $2007, read or write, leaves the VRAM
    pointer at its old value plus one, and every write to $2004 leaves the
    OAM address at its old value plus one; nothing reduces them.  The new
    value is the wrapped one exactly while the sum stays below the modulus
    (for a pointer that is not negative). *)
Theorem autoincrement_adds_one (v : Z) (p : PPU.t) :
  addr (snd (readRegister 0x2007 p)) = addr p + 1 /\
  addr (writeRegister 0x2007 v p) = addr p + 1 /\
  oamAddr (writeRegister 0x2004 v p) = oamAddr p + 1 /\
  (0 <= addr p ->
   (addr p + 1 = (addr p + 1) mod 2 ^ 16 <-> addr p < 0xFFFF)) /\
  (0 <= oamAddr p ->
   (oamAddr p + 1 = (oamAddr p + 1) mod 256 <-> oamAddr p < 255)).
Proof.
  repeat split; try reflexivity.
  - intros E. pose proof (Z.mod_pos_bound (addr p + 1) (2 ^ 16)). lia.
  - intros L. rewrite Z.mod_small; lia.
  - intros E. pose proof (Z.mod_pos_bound (oamAddr p + 1) 256). lia.
  - intros L. rewrite Z.mod_small; lia.
Qed.

End PPURegisters.

(** ** Length counter *)

Section LengthCounterFacts.

Import LengthCounter.

Lemma load_value (i : Z) (l : LengthCounter.t) :
  0 <= i < 32 ->
  value (load i l) = nth (Z.to_nat i) LENGTH_TABLE 0 /\
  2 <= value (load i l) <= 254.
Proof.
  intros H.
  assert (C : In i (map Z.of_nat (seq 0 32))).
  { apply in_map_iff. exists (Z.to_nat i). split; [lia|].
    apply in_seq. lia. }
  cbn in C.
  repeat (destruct C as [<- | C]; [vm_compute; intuition discriminate|]).
  destruct C.
Qed.

Lemma half_iter_running (n : nat) (l : LengthCounter.t) :
  halt l = false -> 0 <= value l ->
  value (Nat.iter n half l) = Z.max 0 (value l - Z.of_nat n) /\
  halt (Nat.iter n half l) = false.
Proof.
  intros Hh Hv. induction n as [|n [IHv IHh]]; [cbn; split; [lia|exact Hh]|].
  rewrite Nat.iter_succ. set (x := Nat.iter n half l) in *.
  unfold half. rewrite IHh. cbn [negb andb].
  destruct (Z.ltb_spec 0 (value x)); cbn [value halt];
    split; try assumption; lia.
Qed.

Lemma half_iter_halted (n : nat) (l : LengthCounter.t) :
  halt l = true -> Nat.iter n half l = l.
Proof.
  intros Hh. induction n as [|n IH]; [reflexivity|].
  rewrite Nat.iter_succ, IH. unfold half. now rewrite Hh.
Qed.

(** C8.  The table has 32 entries.  Loading a 5-bit index [i] sets the
    value to the [i]-th entry.  A half-frame tick with [halt] clear and a
    positive value takes exactly one off.  After [n] ticks with [halt]
    clear the value is the loaded one minus [n], stopped at 0: it is 0 once
    [n] reaches the loaded value, and never negative.  With [halt] set, no
    number of ticks changes the counter. *)
Theorem length_counter_load_and_half (i : Z) (n : nat) (l : LengthCounter.t) :
  0 <= i < 32 ->
  length LENGTH_TABLE = 32%nat /\
  value (load i l) = nth (Z.to_nat i) LENGTH_TABLE 0 /\
  (halt l = false -> 0 < value l -> value (half l) = value l - 1) /\
  (halt l = false ->
   value (Nat.iter n half (load i l))
   = Z.max 0 (nth (Z.to_nat i) LENGTH_TABLE 0 - Z.of_nat n)) /\
  (halt l = false ->
   value (Nat.iter (Z.to_nat (value (load i l))) half (load i l)) = 0) /\
  (halt l = false -> 0 <= value (Nat.iter n half (load i l))) /\
  (halt l = true -> Nat.iter n half (load i l) = load i l).
Proof.
  intros Hi. destruct (load_value i l Hi) as [Hv Hr].
  repeat apply conj.
  - reflexivity.
  - exact Hv.
  - intros Hh Hp. unfold half. rewrite Hh. cbn [negb andb].
    destruct (Z.ltb_spec 0 (value l)); [reflexivity|lia].
  - intros Hh. rewrite <- Hv. apply half_iter_running; [exact Hh|lia].
  - intros Hh.
    destruct (half_iter_running (Z.to_nat (value (load i l))) (load i l))
      as [E _]; [exact Hh|lia|].
    rewrite E. lia.
  - intros Hh.
    destruct (half_iter_running n (load i l)) as [E _]; [exact Hh|lia|].
    rewrite E. lia.
  - intros Hh. apply half_iter_halted. exact Hh.
Qed.

(** Index 1 selects 254: halted or not, 254 ticks later. *)
Lemma length_counter_witness :
  0 <= 1 < 32 /\
  value (load 1 new) = 254 /\
  value (Nat.iter 254 half (load 1 new)) = 0.
Proof.
  destruct (length_counter_load_and_half 1 254 new) as (_ & E & _ & R & _);
    [lia|].
  split; [lia|]. split; [exact E|]. exact (R eq_refl).
Defined.

End LengthCounterFacts.

(** ** Noise: the feedback register *)

Section NoiseFacts.

Import Noise NoiseRun.

(** Only the truth value of [mode] selects the tap. *)
Lemma shift_lfsr_mode (m l : Z) :
  shift_lfsr m l = shift_lfsr (if JS.truthy m then 1 else 0) l.
Proof. unfold shift_lfsr. destruct (JS.truthy m); reflexivity. Qed.

(** The bit [x & 1]. *)
Lemma and_1_bit (x : Z) : JS.and x 1 = 0 \/ JS.and x 1 = 1.
Proof.
  unfold JS.and. change (JS.int32 1) with (Z.ones 1).
  rewrite Z.land_ones by lia. change (2 ^ 1) with 2.
  pose proof (Z.mod_pos_bound (JS.int32 x) 2). lia.
Qed.

Lemma lor_below_pow2 (a b n : Z) :
  0 <= a < 2 ^ n -> 0 <= b < 2 ^ n -> 0 <= Z.lor a b < 2 ^ n.
Proof.
  intros Ha Hb.
  assert (N : 0 <= Z.lor a b) by (apply Z.lor_nonneg; lia).
  split; [exact N|].
  destruct (Z.eq_dec (Z.lor a b) 0) as [E|E]; [rewrite E; lia|].
  assert (Hn : 0 < n).
  { destruct (Z.lt_trichotomy n 0) as [L|[L|L]]; [|subst n|exact L].
    - rewrite Z.pow_neg_r in Ha by exact L. lia.
    - change (2 ^ 0) with 1 in *.
      assert (a = 0) by lia. assert (b = 0) by lia. subst. now elim E. }
  apply Z.log2_lt_pow2; [lia|].
  rewrite Z.log2_lor by lia.
  apply Z.max_lub_lt.
  - destruct (Z.eq_dec a 0) as [->|Na]; [exact Hn|].
    apply Z.log2_lt_pow2; lia.
  - destruct (Z.eq_dec b 0) as [->|Nb]; [exact Hn|].
    apply Z.log2_lt_pow2; lia.
Qed.

(** On a 15-bit value the shift is [l / 2] with the feedback bit put at
    bit 14. *)
Lemma shift_lfsr_shape (m l : Z) :
  0 < l < 2 ^ 15 ->
  exists fb, (fb = 0 \/ fb = 1) /\ shift_lfsr m l = Z.lor (l / 2) (fb * 2 ^ 14).
Proof.
  intros Hl. change (2 ^ 15) with 32768 in Hl.
  assert (D : 0 <= l / 2 < 16384)
    by (split; [apply Z.div_pos; lia | apply Z.div_lt_upper_bound; lia]).
  assert (S : JS.shr l 1 = l / 2).
  { unfold JS.shr. rewrite int32_small by lia.
    change (1 mod 32) with 1. rewrite Z.shiftr_div_pow2 by lia.
    reflexivity. }
  unfold shift_lfsr. rewrite S.
  set (tap := if JS.truthy m then _ else _).
  assert (T : tap = 0 \/ tap = 1)
    by (unfold tap; destruct (JS.truthy m); apply and_1_bit).
  clearbody tap.
  destruct (and_1_bit l) as [-> | ->], T as [-> | ->].
  - exists 0. split; [auto|]. unfold JS.or. rewrite int32_small by lia.
    reflexivity.
  - exists 1. split; [auto|]. unfold JS.or. rewrite int32_small by lia.
    reflexivity.
  - exists 1. split; [auto|]. unfold JS.or. rewrite int32_small by lia.
    reflexivity.
  - exists 0. split; [auto|]. unfold JS.or. rewrite int32_small by lia.
    reflexivity.
Qed.

(** From the value 1 the feedback bit is 1 with either tap: bit 0 is set
    and bits 1 and 6 are clear. *)
Lemma shift_lfsr_one (m : Z) : shift_lfsr m 1 = 2 ^ 14.
Proof. rewrite shift_lfsr_mode. destruct (JS.truthy m); reflexivity. Qed.

Lemma shift_lfsr_ok (m l : Z) :
  lfsr_ok l = true -> lfsr_ok (shift_lfsr m l) = true.
Proof.
  intros H. unfold lfsr_ok in H. apply andb_prop in H as [H0 H1].
  apply Z.ltb_lt in H0, H1.
  destruct (Z.eq_dec l 1) as [->|N]; [now rewrite shift_lfsr_one|].
  destruct (shift_lfsr_shape m l) as (fb & Hfb & ->); [lia|].
  change (2 ^ 15) with 32768 in H1.
  assert (D : 1 <= l / 2 < 16384)
    by (split; [apply Z.div_le_lower_bound; lia
               | apply Z.div_lt_upper_bound; lia]).
  pose proof (lor_below_pow2 (l / 2) (fb * 2 ^ 14) 15) as B.
  change (2 ^ 14) with 16384 in *. change (2 ^ 15) with 32768 in *.
  assert (Z.lor (l / 2) (fb * 16384) <> 0).
  { rewrite Z.lor_eq_0_iff. lia. }
  unfold lfsr_ok. change (2 ^ 15) with 32768.
  apply andb_true_intro. split; [apply Z.ltb_lt | apply Z.ltb_lt]; lia.
Qed.

Lemma lfsr_ok_run_op (o : op) (c : Noise.t) :
  lfsr_ok (lfsr c) = true -> lfsr_ok (lfsr (run_op o c)) = true.
Proof.
  intros H. destruct o; cbn; try exact H.
  unfold clock. destruct (timerCnt c =? 0); cbn; [|exact H].
  now apply shift_lfsr_ok.
Qed.

Lemma lfsr_ok_run (ops : list op) (c : Noise.t) :
  lfsr_ok (lfsr c) = true -> lfsr_ok (lfsr (run ops c)) = true.
Proof.
  revert c. induction ops as [|o ops IH]; intros c H; [exact H|].
  cbn. apply IH. now apply lfsr_ok_run_op.
Qed.

(** C10.  After any sequence of [clock] calls and register writes (and
    enable changes and sequencer ticks), in any order, from the
    constructor's state, the feedback register is a 15-bit value other
    than 0; and one shift, with the tap of either mode, never turns a
    nonzero 15-bit value into 0. *)
Theorem lfsr_never_zero (ops : list op) :
  lfsr Noise.new = 1 /\
  lfsr (run ops Noise.new) <> 0 /\
  0 < lfsr (run ops Noise.new) < 2 ^ 15 /\
  (forall m l, 0 < l < 2 ^ 15 -> shift_lfsr m l <> 0).
Proof.
  assert (K : lfsr_ok (lfsr (run ops Noise.new)) = true)
    by (apply lfsr_ok_run; reflexivity).
  unfold lfsr_ok in K. apply andb_prop in K as [K0 K1].
  apply Z.ltb_lt in K0, K1.
  repeat apply conj; try lia; try reflexivity.
  intros m l [L0 L1].
  assert (S : lfsr_ok (shift_lfsr m l) = true).
  { apply shift_lfsr_ok. unfold lfsr_ok.
    apply andb_true_intro. split; apply Z.ltb_lt; assumption. }
  unfold lfsr_ok in S. apply andb_prop in S as [S0 _].
  apply Z.ltb_lt in S0. lia.
Qed.

End NoiseFacts.

(** ** Sweep and pulse *)

Section SweepFacts.

(** C6.  On a half-frame tick of a pulse channel the sweep's target is the
    timer plus the timer shifted right by [shift], or, under [negate], the
    timer minus that (one less again for pulse 1).  The tick leaves the
    target in the channel's timer when the divider is 0, the sweep is
    enabled with a nonzero shift, the target is below 0x800 and the timer
    is at least 8, and leaves the timer as it was in every other case; so a
    timer that changed got the target, with the target below 0x800 and the
    old timer at least 8.  [out] is 0 whenever the timer is below 8. *)
Theorem sweep_half_writes_back (p : Pulse.t) :
  let s := Pulse.sweep p in
  let timer := Pulse.timer p in
  let change := JS.shr timer (Sweep.shift s) in
  let t := Sweep.target s timer in
  (Sweep.shift s <> 0 ->
   t = if Sweep.negate s
       then timer - change - (if Sweep.isPulse1 s then 1 else 0)
       else timer + change) /\
  Pulse.timer (Pulse.half p)
  = (if (Sweep.counter s =? 0) && Sweep.enabled s && negb (Sweep.shift s =? 0)
        && (t <? 0x800) && (8 <=? timer)
     then t else timer) /\
  (Pulse.timer (Pulse.half p) <> timer ->
   Pulse.timer (Pulse.half p) = t /\ t < 0x800 /\ 8 <= timer) /\
  (~ (t < 0x800 /\ 8 <= timer) -> Pulse.timer (Pulse.half p) = timer) /\
  (timer < 8 -> Pulse.out p = 0).
Proof.
  intros s timer change t.
  assert (E : Pulse.timer (Pulse.half p)
              = (if (Sweep.counter s =? 0) && Sweep.enabled s
                    && negb (Sweep.shift s =? 0)
                    && (t <? 0x800) && (8 <=? timer)
                 then t else timer)).
  { unfold Pulse.half, Sweep.half. fold s timer.
    destruct (Sweep.counter s =? 0); cbn [andb]; [|reflexivity].
    destruct (Sweep.enabled s); cbn [andb]; [|reflexivity].
    destruct (Sweep.shift s =? 0); cbn [andb negb]; [reflexivity|].
    fold t. destruct ((t <? 0x800) && (8 <=? timer)); reflexivity. }
  repeat apply conj.
  - intros Hs. unfold t, Sweep.target. fold change.
    destruct (Z.eqb_spec (Sweep.shift s) 0); [contradiction|].
    destruct (Sweep.negate s), (Sweep.isPulse1 s); cbn [andb]; lia.
  - exact E.
  - rewrite E.
    destruct (Z.ltb_spec t 0x800), (Z.leb_spec 8 timer);
      rewrite ?andb_false_r; cbn [andb]; try congruence.
    destruct (_ && _ && _); [intros _; auto | congruence].
  - rewrite E. intros N.
    destruct (Z.ltb_spec t 0x800), (Z.leb_spec 8 timer);
      rewrite ?andb_false_r; cbn [andb]; try reflexivity.
    exfalso. apply N. split; assumption.
  - intros L. unfold Pulse.out. fold timer.
    destruct (Z.ltb_spec timer 8); [|lia].
    now rewrite orb_true_r.
Qed.

End SweepFacts.

(** ** Mixer *)

Section MixerFacts.

Import APU APURun.

#[local] Open Scope Q_scope.

(** [clamp01] brings every number into [0, 1], the infinities too; NaN
    alone passes through. *)
Lemma clamp01_unit (nan : bool) (x : JS.number) :
  (nan = false -> x <> JS.NaN) -> in_range nan 0 1 (clamp01 x).
Proof.
  intros H. destruct x as [q|n|].
  - unfold clamp01, JS.gt, JS.lt.
    destruct (Qle_bool 0 q) eqn:E0; cbn [negb]; [|cbn; lra].
    apply Qle_bool_iff in E0.
    destruct (Qle_bool q 1) eqn:E1; cbn [negb]; [|cbn; lra].
    apply Qle_bool_iff in E1. cbn. lra.
  - destruct n; cbn; lra.
  - destruct nan; [reflexivity|]. exfalso. apply H; reflexivity.
Qed.

Lemma in_range_num (lo hi : Q) (x : JS.number) :
  in_range false lo hi x -> exists q, x = JS.Num q /\ lo <= q <= hi.
Proof.
  destruct x as [q|n|]; cbn; intros H; [|contradiction|discriminate].
  exists q. split; [reflexivity|exact H].
Qed.

(** [Math.fround] on 0.1, which is not a single-precision value, on 0.5,
    which is one, on a tie between two neighbours, and on NaN. *)
Lemma fround_examples :
  JS.fround (JS.Num (1 # 10)) = JS.Num (13421773 # 134217728) /\
  JS.fround (JS.Num (1 # 2)) = JS.Num (1 # 2) /\
  JS.fround (JS.Num 16777217) = JS.Num 16777216 /\
  JS.fround JS.NaN = JS.NaN.
Proof. repeat split; vm_compute; reflexivity. Qed.

(** [k / x] shrinks as [x] grows. *)
Lemma div_antitone (k x y : Q) : 0 <= k -> 0 < x -> x <= y -> k / y <= k / x.
Proof.
  intros Hk Hx Hxy.
  apply Qle_shift_div_r; [lra|].
  assert (E : k / x * y == k * y / x) by (field; lra).
  rewrite E. apply Qle_shift_div_l; [lra|].
  rewrite (Qmult_comm k x), (Qmult_comm k y).
  apply Qmult_le_compat_r; assumption.
Qed.

(** Both terms of the mixer have the shape [c / (k / x + 100)], which is
    not negative and grows with [x]. *)
Lemma term_monotone (c k x y : Q) :
  0 <= c -> 0 <= k -> 0 < x -> x <= y ->
  0 <= c / (k / x + 100) <= c / (k / y + 100).
Proof.
  intros Hc Hk Hx Hxy.
  assert (Dx : 0 <= k / x) by (apply Qle_shift_div_l; lra).
  assert (Dy : 0 <= k / y) by (apply Qle_shift_div_l; lra).
  pose proof (div_antitone k x y Hk Hx Hxy) as D.
  split.
  - apply Qle_shift_div_l; lra.
  - apply div_antitone; lra.
Qed.

(** The largest value of the pulse term and of the other term, and their
    sum. *)
Lemma terms_at_most_one :
  (9588 # 100) / (8128 / 30 + 100)
  + (15979 # 100) / (1 / (15 / 8227 + 15 / 12241 + 127 / 22638) + 100) <= 1.
Proof. vm_compute. discriminate. Qed.

Lemma inject_Z_bounds (z lo hi : Z) :
  (lo <= z <= hi)%Z -> inject_Z lo <= inject_Z z <= inject_Z hi.
Proof. intros [L H]. split; rewrite <- Zle_Qle; assumption. Qed.

(** The sample [_mix] computes from outputs in their ranges and a volume
    in [0, 1]; from the volume NaN it computes NaN. *)
Lemma mix_bounds (nan : bool) (a : APU.t) :
  (0 <= Pulse.out (pulse1 a) <= 15)%Z ->
  (0 <= Pulse.out (pulse2 a) <= 15)%Z ->
  (0 <= Triangle.out (triangle a) <= 15)%Z ->
  (0 <= Noise.out (noise a) <= 15)%Z ->
  (0 <= DMC.out (dmc a) <= 127)%Z ->
  in_range nan 0 1 (master a) ->
  in_range nan (-1) 1 (_mix a).
Proof.
  intros H1 H2 Ht Hn Hd Hm.
  unfold _mix.
  destruct (master a) as [m|n|]; [|contradiction|exact Hm].
  cbn [in_range JS.mul JS.sub] in *.
  set (p1 := Pulse.out (pulse1 a)) in *.
  set (p2 := Pulse.out (pulse2 a)) in *.
  set (tri := Triangle.out (triangle a)) in *.
  set (noi := Noise.out (noise a)) in *.
  set (d := DMC.out (dmc a)) in *.
  set (pulseTerm := if JS.truthy p1 || JS.truthy p2 then _ else _).
  set (tnd := inject_Z tri / 8227 + inject_Z noi / 12241 + inject_Z d / 22638).
  set (tndTerm := if negb (Qeq_bool tnd 0) then _ else _).
  pose proof terms_at_most_one as Hmax.
  set (pmax := (9588 # 100) / (8128 / 30 + 100)) in Hmax.
  set (tmax := (15979 # 100) / (1 / _ + 100)) in Hmax.
  assert (Hp : 0 <= pulseTerm <= pmax).
  { unfold pulseTerm, pmax.
    destruct (JS.truthy p1 || JS.truthy p2) eqn:E.
    - apply term_monotone; try lra.
      + change 0 with (inject_Z 0). rewrite <- Zlt_Qlt.
        unfold JS.truthy in E.
        destruct (Z.eqb_spec p1 0), (Z.eqb_spec p2 0);
          cbn in E; try discriminate; lia.
      + change 30 with (inject_Z 30). rewrite <- Zle_Qle. lia.
    - split; [lra|]. vm_compute. discriminate. }
  assert (Hx : 0 <= tnd <= 15 / 8227 + 15 / 12241 + 127 / 22638).
  { pose proof (inject_Z_bounds tri 0 15 Ht) as It.
    pose proof (inject_Z_bounds noi 0 15 Hn) as In'.
    pose proof (inject_Z_bounds d 0 127 Hd) as Id.
    change (inject_Z 0) with 0 in *. change (inject_Z 15) with 15 in *.
    change (inject_Z 127) with 127 in *.
    unfold tnd. clearbody tri noi d.
    revert It In' Id.
    generalize (inject_Z tri) (inject_Z noi) (inject_Z d).
    intros x y z Ix Iy Iz. unfold Qdiv.
    assert (0 <= x * / 8227 <= 15 * / 8227).
    { split; [apply Qmult_le_0_compat; [lra|discriminate]
             |apply Qmult_le_compat_r; [lra|discriminate]]. }
    assert (0 <= y * / 12241 <= 15 * / 12241).
    { split; [apply Qmult_le_0_compat; [lra|discriminate]
             |apply Qmult_le_compat_r; [lra|discriminate]]. }
    assert (0 <= z * / 22638 <= 127 * / 22638).
    { split; [apply Qmult_le_0_compat; [lra|discriminate]
             |apply Qmult_le_compat_r; [lra|discriminate]]. }
    lra. }
  assert (Hq : 0 <= tndTerm <= tmax).
  { unfold tndTerm, tmax.
    destruct (Qeq_bool tnd 0) eqn:E; cbn [negb].
    - split; [lra|]. vm_compute. discriminate.
    - apply Qeq_bool_neq in E.
      apply term_monotone; lra. }
  assert (Hs : 0 <= (pulseTerm + tndTerm) * m <= 1).
  { split.
    - apply Qmult_le_0_compat; lra.
    - assert (E : 1 == 1 * 1) by ring.
      rewrite E. apply Qmult_le_compat_nonneg; lra. }
  lra.
Qed.

(** C9 (the code at the failing input).  Both comparisons of [clamp01]
    are false on NaN, so it returns NaN unchanged: [setVolume(NaN)] leaves
    NaN in [master], and the sample [_mix] then computes is NaN, which is
    not within [-1, 1], whatever the channels put out.  After the
    constructor and [setVolume(NaN)], the first sample [step] produces, in
    its 38th cycle, is NaN. *)
Theorem nan_volume_reaches_mix (a : APU.t) :
  clamp01 JS.NaN = JS.NaN /\
  master (setVolume JS.NaN a) = JS.NaN /\
  _mix (setVolume JS.NaN a) = JS.NaN /\
  ~ unit_sample (_mix (setVolume JS.NaN a)) /\
  samples (step 38 (setVolume JS.NaN (new (fun _ => 0%Z) 48000 false)))
  = [JS.NaN].
Proof.
  assert (M : _mix (setVolume JS.NaN a) = JS.NaN) by reflexivity.
  split; [reflexivity|]. split; [reflexivity|]. split; [exact M|].
  split; [rewrite M; cbn; discriminate|].
  vm_compute. reflexivity.
Qed.

(** X26.  The mixer on numbers.  With the channel outputs in their ranges
    and the volume set through [setVolume] to any number other than NaN,
    the infinities included, the volume is a finite value within [0, 1]
    and the sample that [_mix] computes by the non-linear formulas is a
    finite value within [-1, 1]. *)
Theorem mix_within_unit (v : JS.number) (a : APU.t) :
  (0 <= Pulse.out (pulse1 a) <= 15)%Z ->
  (0 <= Pulse.out (pulse2 a) <= 15)%Z ->
  (0 <= Triangle.out (triangle a) <= 15)%Z ->
  (0 <= Noise.out (noise a) <= 15)%Z ->
  (0 <= DMC.out (dmc a) <= 127)%Z ->
  v <> JS.NaN ->
  master (setVolume v a) = clamp01 v /\
  (exists m, master (setVolume v a) = JS.Num m /\ 0 <= m <= 1) /\
  (exists s, _mix (setVolume v a) = JS.Num s /\ -1 <= s <= 1).
Proof.
  intros H1 H2 Ht Hn Hd Hv.
  assert (Hm : in_range false 0 1 (master (setVolume v a)))
    by (apply clamp01_unit; intros _; exact Hv).
  split; [reflexivity|]. split; [apply in_range_num, Hm|].
  apply in_range_num, mix_bounds; assumption.
Qed.

End MixerFacts.

Section MixerWitness.

Import APU.

(** The DAC at its top level, 127, and a volume request of [Infinity],
    which [setVolume] clamps to 1. *)
Lemma mix_within_unit_witness :
  let a := write 0x4011 0x7F (new (fun _ => 0%Z) 48000 false) in
  DMC.out (dmc a) = 127 /\
  master (setVolume (JS.Inf false) a) = JS.Num 1 /\
  (exists s, _mix (setVolume (JS.Inf false) a) = JS.Num s /\ (-1 <= s <= 1)%Q).
Proof.
  intros a.
  split; [reflexivity|].
  split; [reflexivity|].
  apply (mix_within_unit (JS.Inf false) a);
    try (vm_compute; split; discriminate).
  discriminate.
Defined.

End MixerWitness.

(** ** Frame sequencer *)

Section SequencerFacts.

Import APU Sequencer.

Lemma phase_init (a : APU.t) :
  phase (init_phase a) = phase a /\ _phase (init_phase a) = Some (phase a).
Proof.
  unfold init_phase, JS.truthy, phase.
  destruct (_phase a) as [p|] eqn:E; [|cbn; auto].
  cbn [default from_option id].
  destruct (Z.eqb_spec p 0) as [->|]; cbn; rewrite ?E; auto.
Qed.

Lemma init_phase_frame (a : APU.t) :
  frame_at (init_phase a) (seqTime a) (phase a) (frameIRQ a) (ticks a) a.
Proof.
  destruct (phase_init a) as [P _].
  unfold frame_at. rewrite P. unfold init_phase.
  destruct (JS.truthy (phase a)); cbn; repeat split; reflexivity.
Qed.

(** A boundary whose phase has not come, or whose time has not come,
    leaves the state alone. *)
Lemma boundary1_skip (q now : Q) (a : APU.t) :
  phase a <> 0 \/ (now < q)%Q -> boundary1 q now a = a.
Proof.
  intros H. unfold boundary1.
  destruct (Z.eqb_spec (phase a) 0); cbn [andb]; [|reflexivity].
  destruct (Qle_bool q now) eqn:E; [|reflexivity].
  apply Qle_bool_iff in E. destruct H; [contradiction|lra].
Qed.

Lemma boundary2_skip (q now : Q) (a : APU.t) :
  phase a <> 1 \/ (now < q)%Q -> boundary2 q now a = a.
Proof.
  intros H. unfold boundary2.
  destruct (Z.eqb_spec (phase a) 1); cbn [andb]; [|reflexivity].
  destruct (Qle_bool q now) eqn:E; [|reflexivity].
  apply Qle_bool_iff in E. destruct H; [contradiction|lra].
Qed.

Lemma boundary3_skip (q now : Q) (a : APU.t) :
  phase a <> 2 \/ (now < q)%Q -> boundary3 q now a = a.
Proof.
  intros H. unfold boundary3.
  destruct (Z.eqb_spec (phase a) 2); cbn [andb]; [|reflexivity].
  destruct (Qle_bool q now) eqn:E; [|reflexivity].
  apply Qle_bool_iff in E. destruct H; [contradiction|lra].
Qed.

Lemma boundary4_skip (q now : Q) (a : APU.t) :
  phase a <> 3 \/ (now < q)%Q -> boundary4 q now a = a.
Proof.
  intros H. unfold boundary4.
  destruct (Z.eqb_spec (phase a) 3); cbn [andb]; [|reflexivity].
  destruct (Qle_bool q now) eqn:E; [|reflexivity].
  apply Qle_bool_iff in E. destruct H; [contradiction|lra].
Qed.

Lemma boundary1_fire (q now : Q) (a : APU.t) :
  phase a = 0 -> (q <= now)%Q ->
  boundary1 q now a = with_phase 1 (_clockQuarter a).
Proof.
  intros P H. unfold boundary1. rewrite P.
  apply Qle_bool_iff in H. now rewrite H.
Qed.

Lemma boundary2_fire (q now : Q) (a : APU.t) :
  phase a = 1 -> (q <= now)%Q ->
  boundary2 q now a = with_phase 2 (_clockQuarterHalf a).
Proof.
  intros P H. unfold boundary2. rewrite P.
  apply Qle_bool_iff in H. now rewrite H.
Qed.

Lemma boundary3_fire (q now : Q) (a : APU.t) :
  phase a = 2 -> (q <= now)%Q ->
  boundary3 q now a = with_phase 3 (_clockQuarter a).
Proof.
  intros P H. unfold boundary3. rewrite P.
  apply Qle_bool_iff in H. now rewrite H.
Qed.

Lemma boundary4_fire (q now : Q) (a : APU.t) :
  phase a = 3 -> (q <= now)%Q ->
  boundary4 q now a = end_of_sequence q a.
Proof.
  intros P H. unfold boundary4. rewrite P.
  apply Qle_bool_iff in H. now rewrite H.
Qed.

(** The channel clocks and the resampler leave the frame counter's fields
    alone. *)
Lemma resample_frame (a : APU.t) :
  frame_at (resample a) (seqTime a) (phase a) (frameIRQ a) (ticks a) a /\
  _phase (resample a) = _phase a /\ dmc (resample a) = dmc a.
Proof.
  unfold resample, frame_at.
  destruct (Qle_bool _ _); [|cbn; repeat split; reflexivity].
  cbn [audioEnabled with_audio].
  destruct (audioEnabled a); [|cbn; repeat split; reflexivity].
  unfold _pushSample. destruct (negb _); cbn; repeat split; reflexivity.
Qed.

(** [seqTime += 1]. *)
Lemma sequence_unfold (a : APU.t) :
  let b := with_frame (frameIRQ a) (mode5 a) (irqInhibit a)
             (seqTime a + 1)%Q (_phase a) a in
  let now := (seqTime a + 1)%Q in
  sequence a
  = boundary4 (qPeriod a * 4) now
      (boundary3 (qPeriod a * 3) now
         (boundary2 (qPeriod a * 2) now
            (boundary1 (qPeriod a * 1) now (init_phase b)))).
Proof. reflexivity. Qed.

Lemma advanced_frame (a : APU.t) :
  let b := init_phase (with_frame (frameIRQ a) (mode5 a) (irqInhibit a)
                         (seqTime a + 1)%Q (_phase a) a) in
  frame_at b (seqTime a + 1) (phase a) (frameIRQ a) (ticks a) a /\
  irqLine b = irqLine a /\ dmc b = dmc a.
Proof.
  intros b. subst b.
  set (b := with_frame _ _ _ _ _ a).
  pose proof (init_phase_frame b) as F. split; [exact F|].
  unfold init_phase. destruct (JS.truthy _); split; reflexivity.
Qed.

(** A cycle in which no boundary is reached. *)
Lemma sequence_idle (a : APU.t) :
  0 <= phase a <= 3 ->
  (seqTime a + 1 < qPeriod a * inject_Z (phase a + 1))%Q ->
  frame_at (sequence a) (seqTime a + 1) (phase a) (frameIRQ a) (ticks a) a /\
  irqLine (sequence a) = irqLine a /\ dmc (sequence a) = dmc a.
Proof.
  intros Hp Ht. rewrite sequence_unfold. cbv zeta.
  pose proof (advanced_frame a) as F. cbv zeta in F.
  set (b := init_phase _) in *.
  assert (P : phase b = phase a) by apply F.
  assert (C : phase a = 0 \/ phase a = 1 \/ phase a = 2 \/ phase a = 3) by lia.
  destruct C as [C|[C|[C|C]]]; rewrite C in Ht; cbn in Ht.
  - rewrite (boundary1_skip _ _ b) by (right; exact Ht).
    rewrite boundary2_skip, boundary3_skip, boundary4_skip
      by (left; lia).
    exact F.
  - rewrite (boundary1_skip _ _ b) by (left; lia).
    rewrite (boundary2_skip _ _ b) by (right; exact Ht).
    rewrite boundary3_skip, boundary4_skip by (left; lia).
    exact F.
  - rewrite (boundary1_skip _ _ b), (boundary2_skip _ _ b) by (left; lia).
    rewrite (boundary3_skip _ _ b) by (right; exact Ht).
    rewrite boundary4_skip by (left; lia).
    exact F.
  - rewrite (boundary1_skip _ _ b), (boundary2_skip _ _ b),
      (boundary3_skip _ _ b) by (left; lia).
    rewrite boundary4_skip by (right; exact Ht).
    exact F.
Qed.

Lemma quarter_fired (k : Z) (b : APU.t) :
  let c := with_phase k (_clockQuarter b) in
  frame_at c (seqTime b) k (frameIRQ b) (Quarter :: ticks b) b /\
  irqLine c = irqLine b /\ dmc c = dmc b.
Proof. cbv zeta. unfold frame_at. cbn. repeat split; reflexivity. Qed.

Lemma half_fired (k : Z) (b : APU.t) :
  let c := with_phase k (_clockQuarterHalf b) in
  frame_at c (seqTime b) k (frameIRQ b) (Half :: Quarter :: ticks b) b /\
  irqLine c = irqLine b /\ dmc c = dmc b.
Proof. cbv zeta. unfold frame_at. cbn. repeat split; reflexivity. Qed.

Lemma sequence_ended (q : Q) (b : APU.t) :
  let c := end_of_sequence q b in
  frame_at c (seqTime b - q) 0
    (frameIRQ b || negb (mode5 b) && negb (irqInhibit b))
    (Half :: Quarter :: ticks b) b /\
  _phase c = Some 0 /\
  irqLine c = cpuIRQ c :: irqLine b /\ dmc c = dmc b.
Proof.
  cbv zeta. unfold frame_at, end_of_sequence, cpuIRQ.
  cbn [_clockQuarterHalf _clockQuarter with_logs with_channels mode5
       irqInhibit].
  destruct (mode5 b) eqn:M, (irqInhibit b) eqn:I; cbn;
    rewrite ?M, ?I, ?orb_false_r, ?orb_true_r;
    repeat split; try reflexivity; apply Qred_correct.
Qed.

Lemma frame_at_chain (c b a : APU.t) (st : Q) (p p' : Z) (irq : bool)
    (tk f : list tick) :
  frame_at b st p irq tk a ->
  frame_at c (seqTime b) p' (frameIRQ b) (f ++ ticks b) b ->
  frame_at c st p' irq (f ++ tk) a.
Proof.
  unfold frame_at.
  intros (F1 & F2 & F3 & F4 & F5 & F6 & F7) (G1 & G2 & G3 & G4 & G5 & G6 & G7).
  repeat split; try congruence.
  rewrite G1. exact F1.
Qed.

(** The cycles in which the first, second and third boundary is reached. *)
Lemma sequence_cross1 (a : APU.t) :
  phase a = 0 ->
  (qPeriod a * 1 <= seqTime a + 1 < qPeriod a * 2)%Q ->
  frame_at (sequence a) (seqTime a + 1) 1 (frameIRQ a)
           ([Quarter] ++ ticks a) a.
Proof.
  intros Hp [H1 H2]. rewrite sequence_unfold. cbv zeta.
  destruct (advanced_frame a) as [F _]. cbv zeta in F.
  set (b := init_phase _) in *.
  assert (P : phase b = 0) by (rewrite <- Hp; apply F).
  rewrite (boundary1_fire _ _ b) by assumption.
  destruct (quarter_fired 1 b) as [G _]. cbv zeta in G.
  set (c := with_phase 1 _) in *.
  assert (Pc : phase c = 1) by apply G.
  rewrite (boundary2_skip _ _ c) by (right; exact H2).
  rewrite boundary3_skip, boundary4_skip by (left; lia).
  exact (frame_at_chain c b a _ _ _ _ _ [Quarter] F G).
Qed.

Lemma sequence_cross2 (a : APU.t) :
  phase a = 1 ->
  (qPeriod a * 2 <= seqTime a + 1 < qPeriod a * 3)%Q ->
  frame_at (sequence a) (seqTime a + 1) 2 (frameIRQ a)
           ([Half; Quarter] ++ ticks a) a.
Proof.
  intros Hp [H1 H2]. rewrite sequence_unfold. cbv zeta.
  destruct (advanced_frame a) as [F _]. cbv zeta in F.
  set (b := init_phase _) in *.
  assert (P : phase b = 1) by (rewrite <- Hp; apply F).
  rewrite (boundary1_skip _ _ b) by (left; lia).
  rewrite (boundary2_fire _ _ b) by assumption.
  destruct (half_fired 2 b) as [G _]. cbv zeta in G.
  set (c := with_phase 2 _) in *.
  assert (Pc : phase c = 2) by apply G.
  rewrite (boundary3_skip _ _ c) by (right; exact H2).
  rewrite boundary4_skip by (left; lia).
  exact (frame_at_chain c b a _ _ _ _ _ [Half; Quarter] F G).
Qed.

Lemma sequence_cross3 (a : APU.t) :
  phase a = 2 ->
  (qPeriod a * 3 <= seqTime a + 1 < qPeriod a * 4)%Q ->
  frame_at (sequence a) (seqTime a + 1) 3 (frameIRQ a)
           ([Quarter] ++ ticks a) a.
Proof.
  intros Hp [H1 H2]. rewrite sequence_unfold. cbv zeta.
  destruct (advanced_frame a) as [F _]. cbv zeta in F.
  set (b := init_phase _) in *.
  assert (P : phase b = 2) by (rewrite <- Hp; apply F).
  rewrite (boundary1_skip _ _ b), (boundary2_skip _ _ b) by (left; lia).
  rewrite (boundary3_fire _ _ b) by assumption.
  destruct (quarter_fired 3 b) as [G _]. cbv zeta in G.
  set (c := with_phase 3 _) in *.
  assert (Pc : phase c = 3) by apply G.
  rewrite (boundary4_skip _ _ c) by (right; exact H2).
  exact (frame_at_chain c b a _ _ _ _ _ [Quarter] F G).
Qed.

(** The cycle in which the sequence ends. *)
Lemma sequence_wrap (a : APU.t) :
  phase a = 3 ->
  (qPeriod a * 4 <= seqTime a + 1)%Q ->
  frame_at (sequence a) (seqTime a + 1 - qPeriod a * 4) 0
           (frameIRQ a || negb (mode5 a) && negb (irqInhibit a))
           ([Half; Quarter] ++ ticks a) a /\
  _phase (sequence a) = Some 0.
Proof.
  intros Hp H. rewrite sequence_unfold. cbv zeta.
  destruct (advanced_frame a) as [F _]. cbv zeta in F.
  set (b := init_phase _) in *.
  assert (P : phase b = 3) by (rewrite <- Hp; apply F).
  rewrite (boundary1_skip _ _ b), (boundary2_skip _ _ b),
    (boundary3_skip _ _ b) by (left; lia).
  rewrite (boundary4_fire _ _ b) by assumption.
  destruct (sequence_ended (qPeriod a * 4) b) as (G & G0 & _).
  cbv zeta in G, G0. split; [|exact G0].
  unfold frame_at in *.
  destruct F as (F1 & F2 & F3 & F4 & F5 & F6 & F7).
  destruct G as (G1 & G2 & G3 & G4 & G5 & G6 & G7).
  cbn [app]. repeat split; try congruence.
  rewrite G1, F1. reflexivity.
Qed.

(** One iteration of [step]'s loop, seen from the frame counter. *)
Lemma cycle_frame (a : APU.t) (st : Q) (p : Z) (irq : bool)
    (tk : list tick) :
  frame_at (sequence (clock_channels a)) st p irq tk (clock_channels a) ->
  frame_at (cycle a) st p irq tk a.
Proof.
  unfold cycle. intros F.
  destruct (resample_frame (sequence (clock_channels a))) as [R _].
  unfold frame_at in *. cbn [clock_channels with_channels mode5 irqInhibit
    qPeriod] in F.
  destruct F as (F1 & F2 & F3 & F4 & F5 & F6 & F7).
  destruct R as (R1 & R2 & R3 & R4 & R5 & R6 & R7).
  repeat split; try congruence.
  rewrite R1. exact F1.
Qed.

Lemma cycle_idle (a : APU.t) :
  0 <= phase a <= 3 ->
  (seqTime a + 1 < qPeriod a * inject_Z (phase a + 1))%Q ->
  frame_at (cycle a) (seqTime a + 1) (phase a) (frameIRQ a) (ticks a) a.
Proof.
  intros Hp Ht. apply cycle_frame.
  apply (sequence_idle (clock_channels a)); assumption.
Qed.

Lemma cycle_cross1 (a : APU.t) :
  phase a = 0 ->
  (qPeriod a * 1 <= seqTime a + 1 < qPeriod a * 2)%Q ->
  frame_at (cycle a) (seqTime a + 1) 1 (frameIRQ a) ([Quarter] ++ ticks a) a.
Proof.
  intros Hp Ht. apply cycle_frame.
  apply (sequence_cross1 (clock_channels a)); assumption.
Qed.

Lemma cycle_cross2 (a : APU.t) :
  phase a = 1 ->
  (qPeriod a * 2 <= seqTime a + 1 < qPeriod a * 3)%Q ->
  frame_at (cycle a) (seqTime a + 1) 2 (frameIRQ a)
           ([Half; Quarter] ++ ticks a) a.
Proof.
  intros Hp Ht. apply cycle_frame.
  apply (sequence_cross2 (clock_channels a)); assumption.
Qed.

Lemma cycle_cross3 (a : APU.t) :
  phase a = 2 ->
  (qPeriod a * 3 <= seqTime a + 1 < qPeriod a * 4)%Q ->
  frame_at (cycle a) (seqTime a + 1) 3 (frameIRQ a) ([Quarter] ++ ticks a) a.
Proof.
  intros Hp Ht. apply cycle_frame.
  apply (sequence_cross3 (clock_channels a)); assumption.
Qed.

Lemma cycle_wrap (a : APU.t) :
  phase a = 3 ->
  (qPeriod a * 4 <= seqTime a + 1)%Q ->
  frame_at (cycle a) (seqTime a + 1 - qPeriod a * 4) 0
           (frameIRQ a || negb (mode5 a) && negb (irqInhibit a))
           ([Half; Quarter] ++ ticks a) a /\
  _phase (cycle a) = Some 0.
Proof.
  intros Hp Ht.
  destruct (sequence_wrap (clock_channels a) Hp Ht) as [F P].
  split; [apply cycle_frame; exact F|].
  unfold cycle.
  destruct (resample_frame (sequence (clock_channels a))) as (_ & R & _).
  rewrite R. exact P.
Qed.

(** The same steps, from a state described relative to an earlier one. *)
Lemma frame_at_fields (b a : APU.t) (st : Q) (p : Z) (irq : bool)
    (tk : list tick) :
  frame_at b st p irq tk a ->
  (seqTime b == st)%Q /\ phase b = p /\ frameIRQ b = irq /\ ticks b = tk /\
  mode5 b = mode5 a /\ irqInhibit b = irqInhibit a /\ qPeriod b = qPeriod a.
Proof. exact id. Qed.

Lemma frame_at_next (c b a : APU.t) (st st' : Q) (p p' : Z) (irq : bool)
    (tk f : list tick) :
  frame_at b st p irq tk a ->
  frame_at c (seqTime b + 1) p' (frameIRQ b) (f ++ ticks b) b ->
  (st' == st + 1)%Q ->
  frame_at c st' p' irq (f ++ tk) a.
Proof.
  unfold frame_at.
  intros (F1 & F2 & F3 & F4 & F5 & F6 & F7)
         (G1 & G2 & G3 & G4 & G5 & G6 & G7) E.
  repeat split; try congruence.
  rewrite G1, F1, E. reflexivity.
Qed.

Lemma step_idle (b a : APU.t) (st st' : Q) (p : Z) (irq : bool)
    (tk : list tick) :
  frame_at b st p irq tk a -> 0 <= p <= 3 ->
  (st + 1 < qPeriod a * inject_Z (p + 1))%Q -> (st' == st + 1)%Q ->
  frame_at (cycle b) st' p irq tk a.
Proof.
  intros F Hp Ht E.
  pose proof (frame_at_fields _ _ _ _ _ _ F) as (F1 & F2 & _ & _ & _ & _ & F7).
  apply (frame_at_next (cycle b) b a st st' p p irq tk [] F); [|exact E].
  rewrite <- F2 at 1. apply cycle_idle; rewrite F2; [exact Hp|].
  rewrite F1, F7. exact Ht.
Qed.

Lemma step_cross1 (b a : APU.t) (st st' : Q) (irq : bool) (tk : list tick) :
  frame_at b st 0 irq tk a ->
  (qPeriod a * 1 <= st + 1 < qPeriod a * 2)%Q -> (st' == st + 1)%Q ->
  frame_at (cycle b) st' 1 irq ([Quarter] ++ tk) a.
Proof.
  intros F Ht E.
  pose proof (frame_at_fields _ _ _ _ _ _ F) as (F1 & F2 & _ & _ & _ & _ & F7).
  apply (frame_at_next (cycle b) b a st st' 0 1 irq tk [Quarter] F); [|exact E].
  apply cycle_cross1; [exact F2|]. rewrite F1, F7. exact Ht.
Qed.

Lemma step_cross2 (b a : APU.t) (st st' : Q) (irq : bool) (tk : list tick) :
  frame_at b st 1 irq tk a ->
  (qPeriod a * 2 <= st + 1 < qPeriod a * 3)%Q -> (st' == st + 1)%Q ->
  frame_at (cycle b) st' 2 irq ([Half; Quarter] ++ tk) a.
Proof.
  intros F Ht E.
  pose proof (frame_at_fields _ _ _ _ _ _ F) as (F1 & F2 & _ & _ & _ & _ & F7).
  apply (frame_at_next (cycle b) b a st st' 1 2 irq tk [Half; Quarter] F);
    [|exact E].
  apply cycle_cross2; [exact F2|]. rewrite F1, F7. exact Ht.
Qed.

Lemma step_cross3 (b a : APU.t) (st st' : Q) (irq : bool) (tk : list tick) :
  frame_at b st 2 irq tk a ->
  (qPeriod a * 3 <= st + 1 < qPeriod a * 4)%Q -> (st' == st + 1)%Q ->
  frame_at (cycle b) st' 3 irq ([Quarter] ++ tk) a.
Proof.
  intros F Ht E.
  pose proof (frame_at_fields _ _ _ _ _ _ F) as (F1 & F2 & _ & _ & _ & _ & F7).
  apply (frame_at_next (cycle b) b a st st' 2 3 irq tk [Quarter] F); [|exact E].
  apply cycle_cross3; [exact F2|]. rewrite F1, F7. exact Ht.
Qed.

Lemma step_wrap (b a : APU.t) (st st' : Q) (irq : bool) (tk : list tick) :
  frame_at b st 3 irq tk a ->
  (qPeriod a * 4 <= st + 1)%Q -> (st' == st + 1 - qPeriod a * 4)%Q ->
  frame_at (cycle b) st' 0 (irq || negb (mode5 a) && negb (irqInhibit a))
           ([Half; Quarter] ++ tk) a /\
  _phase (cycle b) = Some 0.
Proof.
  intros F Ht E.
  pose proof (frame_at_fields _ _ _ _ _ _ F)
    as (F1 & F2 & F3 & F4 & F5 & F6 & F7).
  destruct (cycle_wrap b F2) as [G P]; [rewrite F1, F7; exact Ht|].
  split; [|exact P].
  unfold frame_at in *.
  destruct G as (G1 & G2 & G3 & G4 & G5 & G6 & G7).
  repeat split; try congruence.
  rewrite G1, F1, F7, E. reflexivity.
Qed.

Lemma period_start_q (a : APU.t) :
  period_start a -> (qPeriod a == 1789773 # 240)%Q.
Proof. intros (_ & _ & _ & -> & _). reflexivity. Qed.

Ltac case_le :=
  match goal with
  | |- context [Qle_bool ?u ?v] =>
      let E := fresh "E" in
      destruct (Qle_bool u v) eqn:E;
      [ apply Qle_bool_iff in E
      | apply not_true_iff_false in E; rewrite Qle_bool_iff in E;
        apply Qnot_le_lt in E ]
  end.

Ltac idle_bound :=
  match goal with
  | |- context [inject_Z ?z] =>
      let v := eval cbv in (inject_Z z) in
      change (inject_Z z) with v; lra
  end.

(** Inside a sequence: after [m] cycles, as long as the accumulator is
    below four quarter periods, it holds its starting value plus [m], the
    phase counts the boundaries it has reached, and the ticks of those
    boundaries, and no others, were delivered. *)
Lemma within_period (m : nat) (a : APU.t) :
  period_start a ->
  (seqTime a + inject_Z (Z.of_nat m) < qPeriod a * 4)%Q ->
  let x := (seqTime a + inject_Z (Z.of_nat m))%Q in
  let p := boundaries_passed (qPeriod a) x in
  frame_at (Nat.iter m cycle a) x p (frameIRQ a) (ticks_after p ++ ticks a) a.
Proof.
  intros S. pose proof (period_start_q a S) as Hq.
  destruct S as (_ & P0 & Hs & _ & _).
  induction m as [|m IH]; intros Hm; cbv zeta.
  - change (Nat.iter 0 cycle a) with a.
    change (inject_Z (Z.of_nat 0)) with 0%Q in *.
    unfold boundaries_passed.
    repeat case_le; try lra.
    unfold frame_at. split; [ring|].
    repeat split; try reflexivity; assumption.
  - rewrite Nat2Z.inj_succ, <- Z.add_1_r, inject_Z_plus in Hm |- *.
    change (inject_Z 1) with 1%Q in *.
    assert (Hm' : (seqTime a + inject_Z (Z.of_nat m) < qPeriod a * 4)%Q)
      by lra.
    specialize (IH Hm'). cbv zeta in IH. rewrite Nat.iter_succ.
    set (b := Nat.iter m cycle a) in *.
    set (y := inject_Z (Z.of_nat m)) in *.
    revert IH. unfold boundaries_passed.
    repeat case_le; intros IH; try lra;
      first
        [ apply (step_idle b a (seqTime a + y));
          [exact IH | lia | idle_bound | ring]
        | apply (step_cross1 b a (seqTime a + y)); [exact IH | lra | ring]
        | apply (step_cross2 b a (seqTime a + y)); [exact IH | lra | ring]
        | apply (step_cross3 b a (seqTime a + y)); [exact IH | lra | ring] ].
Qed.

Lemma period_start_new (cpuRead : Z -> Z) (rate : Q) (audio : bool) :
  period_start (new cpuRead rate audio).
Proof.
  unfold period_start. cbn. repeat split; try reflexivity; lra.
Qed.




(** Cycles in which no boundary is reached, from any phase. *)
Lemma idle_run (m : nat) (a : APU.t) :
  0 <= phase a <= 3 ->
  (seqTime a + inject_Z (Z.of_nat m) < qPeriod a * inject_Z (phase a + 1))%Q ->
  frame_at (Nat.iter m cycle a) (seqTime a + inject_Z (Z.of_nat m)) (phase a)
           (frameIRQ a) (ticks a) a.
Proof.
  intros Hp. induction m as [|m IH]; intros Hm.
  - change (Nat.iter 0 cycle a) with a.
    change (inject_Z (Z.of_nat 0)) with 0%Q.
    unfold frame_at. split; [ring|]. repeat split; reflexivity.
  - rewrite Nat2Z.inj_succ, <- Z.add_1_r, inject_Z_plus in Hm |- *.
    change (inject_Z 1) with 1%Q in *.
    rewrite Nat.iter_succ.
    apply (step_idle _ a (seqTime a + inject_Z (Z.of_nat m)));
      [apply IH; lra | exact Hp | lra | ring].
Qed.

(** What a write to $4017 does to the frame counter: the accumulator is
    set to 0, the mode and the inhibit bit are taken from bits 7 and 6,
    the sticky flag is lowered when the inhibit bit is set, and in 5-step
    mode one quarter tick and one half tick are delivered.  [_phase] is not
    assigned. *)
Lemma write_4017 (v : Z) (a : APU.t) :
  let b := write 0x4017 v a in
  seqTime b = 0%Q /\
  mode5 b = JS.truthy (JS.and (JS.and v 0xFF) 0x80) /\
  irqInhibit b = JS.truthy (JS.and (JS.and v 0xFF) 0x40) /\
  frameIRQ b = (if irqInhibit b then false else frameIRQ a) /\
  ticks b = (if mode5 b then [Half; Quarter] ++ ticks a else ticks a) /\
  _phase b = _phase a /\ qPeriod b = qPeriod a.
Proof.
  cbv zeta. unfold write.
  change (0x4017 =? 0x4017) with true.
  repeat match goal with
         | |- context [0x4017 =? ?k] => change (0x4017 =? k) with false
         end.
  cbv iota.
  cbn [with_frame mode5].
  destruct (JS.truthy (JS.and (JS.and v 255) 128));
    cbn; repeat split; reflexivity.
Qed.

(** C3 (the code at the failing input).  7458 cycles after the
    constructor the first boundary is passed and [_phase] is 1.  A write of
    0 to $4017 then sets the accumulator to 0 and leaves [_phase] at 1, not
    at 0; so the next 7458 cycles, in which a sequence restarted from its
    start would pass its first boundary, deliver no tick. *)
Theorem write_4017_keeps_phase :
  let a := step 7458 (new (fun _ => 0) 48000 false) in
  let b := write 0x4017 0 a in
  _phase a = Some 1 /\
  seqTime b = 0%Q /\
  _phase b = Some 1 /\
  ticks (step 7458 b) = ticks b /\
  phase (step 7458 b) = 1.
Proof.
  cbv zeta. unfold step. set (n := Z.to_nat 7458).
  set (a0 := new (fun _ => 0) 48000 false).
  pose proof (within_period n a0 (period_start_new _ _ _)) as W.
  assert (K : boundaries_passed (qPeriod a0)
                (seqTime a0 + inject_Z (Z.of_nat n)) = 1)
    by (vm_compute; reflexivity).
  cbv zeta in W. rewrite K in W.
  assert (L : (seqTime a0 + inject_Z (Z.of_nat n) < qPeriod a0 * 4)%Q)
    by (vm_compute; reflexivity).
  specialize (W L). clear K L.
  destruct W as (_ & P & _ & _ & _ & _ & Qa).
  revert P Qa. generalize (Nat.iter n cycle a0). intros a P Qa.
  assert (P' : _phase a = Some 1).
  { unfold phase in P. destruct (_phase a); cbn in P; [congruence|lia]. }
  destruct (write_4017 0 a) as (W1 & _ & _ & _ & _ & W6 & W7).
  revert W1 W6 W7. generalize (write 0x4017 0 a). intros b W1 W6 W7.
  assert (Pb : phase b = 1) by (unfold phase; rewrite W6, P'; reflexivity).
  pose proof (idle_run n b) as I.
  rewrite Pb, W1, W7, Qa in I.
  assert (H1 : 0 <= 1 <= 3) by lia.
  assert (H2 : (0 + inject_Z (Z.of_nat n)
                < qPeriod a0 * inject_Z (1 + 1))%Q)
    by (vm_compute; reflexivity).
  specialize (I H1 H2). clear H1 H2.
  destruct I as (_ & I2 & _ & I4 & _).
  repeat split; try assumption; congruence.
Qed.

(** Cycles in which no boundary is reached, from a state described
    relative to an earlier one. *)
Lemma idle_steps (m : nat) (b a : APU.t) (st st' : Q) (p : Z) (irq : bool)
    (tk : list tick) :
  frame_at b st p irq tk a -> 0 <= p <= 3 ->
  (st + inject_Z (Z.of_nat m) < qPeriod a * inject_Z (p + 1))%Q ->
  (st' == st + inject_Z (Z.of_nat m))%Q ->
  frame_at (Nat.iter m cycle b) st' p irq tk a.
Proof.
  intros F Hp. revert st'. induction m as [|m IH]; intros st' Hm E.
  - change (Nat.iter 0 cycle b) with b.
    change (inject_Z (Z.of_nat 0)) with 0%Q in E.
    destruct F as (F1 & F'). split; [|exact F'].
    rewrite F1, E. ring.
  - rewrite Nat2Z.inj_succ, <- Z.add_1_r, inject_Z_plus in Hm, E.
    change (inject_Z 1) with 1%Q in *.
    rewrite Nat.iter_succ.
    apply (step_idle _ a (st + inject_Z (Z.of_nat m)));
      [apply IH; [lra|reflexivity] | exact Hp | lra | rewrite E; ring].
Qed.

(** C7 (the code at the failing input).  7458 cycles after the
    constructor the first boundary is passed and [_phase] is 1.  A write of
    0 to $4017 then selects the 4-step mode with IRQs let through and sets
    the accumulator to 0, but leaves [_phase] at 1.  The sequence that
    starts there skips its first boundary: after 29829 cycles it has
    delivered two quarter ticks and one half tick, and the 29830th cycle
    wraps it, with the frame IRQ raised, after three quarter ticks and two
    half ticks in all, not four and two. *)
Theorem sequence_after_midway_reset :
  let a := step 7458 (new (fun _ => 0) 48000 false) in
  let b := write 0x4017 0 a in
  (mode5 b = false /\ irqInhibit b = false /\ seqTime b = 0%Q /\
   phase b = 1 /\ frameIRQ b = false) /\
  (phase (step 29829 b) = 3 /\
   ticks (step 29829 b) = [Quarter; Half; Quarter] ++ ticks b /\
   frameIRQ (step 29829 b) = false) /\
  (phase (step 29830 b) = 0 /\
   ticks (step 29830 b) = [Half; Quarter; Quarter; Half; Quarter] ++ ticks b /\
   frameIRQ (step 29830 b) = true).
Proof.
  cbv zeta. unfold step. set (n := Z.to_nat 7458).
  set (a0 := new (fun _ => 0) 48000 false).
  pose proof (within_period n a0 (period_start_new _ _ _)) as W.
  assert (K : boundaries_passed (qPeriod a0)
                (seqTime a0 + inject_Z (Z.of_nat n)) = 1)
    by (vm_compute; reflexivity).
  cbv zeta in W. rewrite K in W.
  assert (L : (seqTime a0 + inject_Z (Z.of_nat n) < qPeriod a0 * 4)%Q)
    by (vm_compute; reflexivity).
  specialize (W L). clear K L.
  destruct W as (_ & P & I0 & _ & _ & _ & Qa).
  change (frameIRQ a0) with false in I0.
  change (qPeriod a0) with (inject_Z NTSC_CPU_HZ / 240)%Q in Qa.
  revert P I0 Qa. generalize (Nat.iter n cycle a0). clear n a0.
  intros a P I0 Qa.
  assert (P' : _phase a = Some 1).
  { unfold phase in P. destruct (_phase a); cbn in P; [congruence|lia]. }
  destruct (write_4017 0 a) as (W1 & W2 & W3 & W4 & _ & W6 & W7).
  change (JS.truthy (JS.and (JS.and 0 255) 128)) with false in W2.
  change (JS.truthy (JS.and (JS.and 0 255) 64)) with false in W3.
  rewrite W3, I0 in W4. rewrite Qa in W7.
  revert W1 W2 W3 W4 W6 W7. generalize (write 0x4017 0 a).
  intros b W1 W2 W3 W4 W6 W7.
  assert (Pb : phase b = 1) by (unfold phase; rewrite W6, P'; reflexivity).
  split; [auto|].
  set (n1 := Z.to_nat 14914). set (n2 := Z.to_nat 7457).
  set (n3 := Z.to_nat 7456).
  assert (F0 : frame_at b 0 1 false (ticks b) b).
  { unfold frame_at. rewrite W1. repeat split; auto. }
  assert (F1 : frame_at (Nat.iter n1 cycle b) 14914 1 false (ticks b) b).
  { apply (idle_steps n1 b b 0 14914 1 false (ticks b) F0); [lia| |];
      rewrite ?W7; vm_compute; reflexivity. }
  assert (F2 : frame_at (cycle (Nat.iter n1 cycle b)) 14915 2 false
                 ([Half; Quarter] ++ ticks b) b).
  { apply (step_cross2 _ b 14914 14915 false (ticks b) F1);
      rewrite ?W7; [split|]; vm_compute; (reflexivity || discriminate). }
  assert (F3 : frame_at (Nat.iter n2 cycle (cycle (Nat.iter n1 cycle b)))
                 22372 2 false ([Half; Quarter] ++ ticks b) b).
  { apply (idle_steps n2 _ b 14915 22372 2 false _ F2); [lia| |];
      rewrite ?W7; vm_compute; reflexivity. }
  assert (F4 : frame_at
                 (cycle (Nat.iter n2 cycle (cycle (Nat.iter n1 cycle b))))
                 22373 3 false ([Quarter] ++ [Half; Quarter] ++ ticks b) b).
  { apply (step_cross3 _ b 22372 22373 false _ F3);
      rewrite ?W7; [split|]; vm_compute; (reflexivity || discriminate). }
  assert (F5 : frame_at
                 (Nat.iter n3 cycle
                    (cycle (Nat.iter n2 cycle (cycle (Nat.iter n1 cycle b)))))
                 29829 3 false ([Quarter] ++ [Half; Quarter] ++ ticks b) b).
  { apply (idle_steps n3 _ b 22373 29829 3 false _ F4); [lia| |];
      rewrite ?W7; vm_compute; reflexivity. }
  assert (E1 : Z.to_nat 29829 = (n3 + S (n2 + S n1))%nat)
    by (unfold n1, n2, n3; lia).
  assert (E2 : Z.to_nat 29830 = S (n3 + S (n2 + S n1)))
    by (unfold n1, n2, n3; lia).
  rewrite E1, E2, Nat.iter_succ.
  rewrite (Nat.iter_add n3), Nat.iter_succ, (Nat.iter_add n2), Nat.iter_succ.
  revert F5.
  generalize (Nat.iter n3 cycle
                (cycle (Nat.iter n2 cycle (cycle (Nat.iter n1 cycle b))))).
  intros c F5.
  destruct (step_wrap c b 29829 (9 # 20) false _ F5) as [F6 _];
    [rewrite W7; vm_compute; discriminate
    |rewrite W7; vm_compute; reflexivity|].
  rewrite W2, W3 in F6. cbn [negb andb orb] in F6.
  destruct F5 as (_ & G2 & G3 & G4 & _).
  destruct F6 as (H1 & H2 & H3 & H4 & _).
  split; [split; [exact G2|split; [exact G4|exact G3]]|].
  split; [exact H2|]. split; [exact H4|exact H3].
Qed.

End SequencerFacts.

(** ** DMC playback *)

Section DMCFacts.

Import DMC DMCRun.




























(** The counters of every state reached from the constructor are in
    order. *)
Lemma and_mask_range (n k : Z) :
  0 <= k < 31 -> 0 <= JS.and n (Z.ones k) < 2 ^ k.
Proof.
  intros Hk. unfold JS.and.
  assert (O : 0 <= Z.ones k < 2 ^ 31).
  { rewrite Z.ones_equiv.
    assert (0 < 2 ^ k) by (apply Z.pow_pos_nonneg; lia).
    assert (2 ^ k < 2 ^ 31) by (apply Z.pow_lt_mono_r; lia). lia. }
  rewrite (int32_small (Z.ones k)) by lia.
  rewrite Z.land_ones by lia.
  apply Z.mod_pos_bound. apply Z.pow_pos_nonneg; lia.
Qed.







End DMCFacts.

(** ** The samples of a run

    The hypotheses of the mixer's bound hold in every state the program
    reaches: the envelopes stay 4-bit, the DAC level 7-bit and the volume
    within [0, 1], so every sample [step] produces is within [-1, 1]. *)

Section OutputRanges.

Import APU APURun.

(** Whether NaN counts as in range: it does in the invariant of every
    run, and does not in the one of the runs that never hand NaN to
    [setVolume]. *)
Variable nan : bool.

Lemma env_ok_new : env_ok Envelope.new.
Proof. unfold env_ok. cbn. lia. Qed.

Lemma env_ok_write (n : Z) (e : Envelope.t) :
  env_ok e -> env_ok (Envelope.write n e).
Proof.
  intros [_ D]. split; [|exact D]. cbn.
  pose proof (and_mask_range n 4 ltac:(lia)) as R.
  change (Z.ones 4) with 15 in R. change (2 ^ 4) with 16 in R. lia.
Qed.

Lemma env_ok_restart (e : Envelope.t) : env_ok e -> env_ok (Envelope.restart e).
Proof. exact id. Qed.

Lemma env_ok_quarter (e : Envelope.t) : env_ok e -> env_ok (Envelope.quarter e).
Proof.
  intros [V D]. unfold Envelope.quarter, env_ok.
  destruct (Envelope.start e); [cbn; lia|].
  destruct (Envelope.divider e =? 0); cbn; [|lia].
  destruct (Z.ltb_spec 0 (Envelope.decay e)); [lia|].
  destruct (Envelope.loop e); lia.
Qed.

Lemma env_out_range (e : Envelope.t) : env_ok e -> 0 <= Envelope.out e <= 15.
Proof. intros [V D]. unfold Envelope.out. destruct (Envelope.constantVolume e); lia. Qed.

Lemma pulse_out_range (p : Pulse.t) : env_ok (Pulse.env p) -> 0 <= Pulse.out p <= 15.
Proof.
  intros E. unfold Pulse.out.
  repeat match goal with
         | |- context [if ?b then _ else _] => destruct b
         end; try lia; apply env_out_range, E.
Qed.

Lemma noise_out_range (c : Noise.t) : env_ok (Noise.env c) -> 0 <= Noise.out c <= 15.
Proof.
  intros E. unfold Noise.out.
  match goal with
  | |- context [if ?b then _ else _] => destruct b
  end; [lia|apply env_out_range, E].
Qed.

Lemma triangle_out_range (c : Triangle.t) : 0 <= Triangle.out c <= 15.
Proof.
  unfold Triangle.out.
  match goal with
  | |- context [if ?b then _ else _] => destruct b
  end; [lia|].
  unfold JS.index. destruct (Triangle.step c <? 0); [cbn; lia|].
  generalize (Z.to_nat (Triangle.step c)). intros k.
  do 32 (destruct k as [|k]; [vm_compute; split; discriminate|]).
  vm_compute. split; discriminate.
Qed.

Create HintDb apu_ranges.

#[local] Hint Resolve env_ok_new env_ok_write env_ok_restart env_ok_quarter
  : apu_ranges.

(** The operations of a pulse channel and of the noise channel keep the
    envelope in range. *)
Lemma pulse_env_ok (p : Pulse.t) (n : Z) :
  env_ok (Pulse.env p) ->
  env_ok (Pulse.env (Pulse.write0 n p)) /\
  env_ok (Pulse.env (Pulse.write1 n p)) /\
  env_ok (Pulse.env (Pulse.write2 n p)) /\
  env_ok (Pulse.env (Pulse.write3 n p)) /\
  env_ok (Pulse.env (Pulse.setEnabled n p)) /\
  env_ok (Pulse.env (Pulse.quarter p)) /\
  env_ok (Pulse.env (Pulse.half p)) /\
  env_ok (Pulse.env (Pulse.clock p)).
Proof.
  intros E.
  do 6 (split; [cbn [Pulse.env Pulse.write0 Pulse.write1 Pulse.write2
                     Pulse.write3 Pulse.setEnabled Pulse.quarter];
                auto with apu_ranges|]).
  split.
  - unfold Pulse.half. destruct (Sweep.half _ _). exact E.
  - unfold Pulse.clock. destruct (_ =? _); exact E.
Qed.

Lemma noise_env_ok (c : Noise.t) (n : Z) :
  env_ok (Noise.env c) ->
  env_ok (Noise.env (Noise.write0 n c)) /\
  env_ok (Noise.env (Noise.write2 n c)) /\
  env_ok (Noise.env (Noise.write3 n c)) /\
  env_ok (Noise.env (Noise.setEnabled n c)) /\
  env_ok (Noise.env (Noise.quarter c)) /\
  env_ok (Noise.env (Noise.half c)) /\
  env_ok (Noise.env (Noise.clock c)).
Proof.
  intros E.
  do 6 (split; [cbn [Noise.env Noise.write0 Noise.write2 Noise.write3
                     Noise.setEnabled Noise.quarter Noise.half];
                auto with apu_ranges|]).
  unfold Noise.clock. destruct (_ =? _); exact E.
Qed.

(** The operations on the DMC keep the DAC level in range. *)
Lemma dac_range (o : DMCRun.op) (d : DMC.t) :
  0 <= DMC.dac d <= 127 -> 0 <= DMC.dac (DMCRun.run_op o d) <= 127.
Proof.
  intros D. destruct o as [|n|n|n|n|on|]; cbn [DMCRun.run_op]; try exact D.
  - unfold DMC.clock.
    assert (R : forall e, DMC.dac (DMC.refillBufferIfNeeded e) = DMC.dac e).
    { intros e. unfold DMC.refillBufferIfNeeded.
      destruct (_ || _); reflexivity. }
    rewrite <- (R d) in D.
    generalize dependent (DMC.refillBufferIfNeeded d). intros e D.
    unfold DMC.clock_timer.
    repeat match goal with
           | |- context [if ?b then _ else _] => destruct b eqn:?
           end; rewrite ?R; cbn [DMC.dac DMC.with_output]; lia.
  - cbn. pose proof (and_mask_range n 7 ltac:(lia)) as R.
    change (Z.ones 7) with 127 in R. change (2 ^ 7) with 128 in R. lia.
  - unfold DMC.setEnabled.
    repeat match goal with
           | |- context [if ?b then _ else _] => destruct b
           end; exact D.
Qed.

Ltac ok_parts :=
  unfold outputs_ok;
  split; [|split; [|split; [|split; [|split]]]].

Ltac ok_simpl :=
  cbn [pulse1 pulse2 triangle noise dmc master samples
       with_channels with_pulse1 with_pulse2 with_triangle with_noise
       with_dmc with_frame with_logs with_audio with_phase
       _updateIRQLine _clockQuarter _clockQuarterHalf].

Ltac ok_field P1 P2 N D :=
  first [ assumption
        | apply (pulse_env_ok _ 0 P1)
        | apply (pulse_env_ok _ 0 P2)
        | apply (noise_env_ok _ 0 N)
        | eapply (pulse_env_ok _ _ P1)
        | eapply (pulse_env_ok _ _ P2)
        | eapply (noise_env_ok _ _ N)
        | apply (dac_range DMCRun.Clock _ D)
        | apply (dac_range (DMCRun.Write0 _) _ D)
        | apply (dac_range (DMCRun.Write1 _) _ D)
        | apply (dac_range (DMCRun.Write2 _) _ D)
        | apply (dac_range (DMCRun.Write3 _) _ D)
        | apply (dac_range (DMCRun.SetEnabled _) _ D)
        | apply (dac_range DMCRun.ClearIrq _ D) ].

Lemma outputs_ok_new (mem : Z -> Z) (rate : Q) (audio : bool) :
  outputs_ok nan (new mem rate audio).
Proof.
  ok_parts; cbn; auto with apu_ranges; try lia; try lra.
Qed.

Lemma outputs_ok_clockQuarter (a : APU.t) :
  outputs_ok nan a -> outputs_ok nan (_clockQuarter a).
Proof.
  intros (P1 & P2 & N & D & M & S). ok_parts; ok_simpl; ok_field P1 P2 N D.
Qed.

Lemma outputs_ok_clockQuarterHalf (a : APU.t) :
  outputs_ok nan a -> outputs_ok nan (_clockQuarterHalf a).
Proof.
  intros H. apply outputs_ok_clockQuarter in H.
  unfold _clockQuarterHalf.
  destruct H as (P1 & P2 & N & D & M & S).
  ok_parts; ok_simpl; ok_field P1 P2 N D.
Qed.

Lemma outputs_ok_frame (irq m5 inh : bool) (st : Q) (ph : option Z)
    (a : APU.t) :
  outputs_ok nan a -> outputs_ok nan (with_frame irq m5 inh st ph a).
Proof. exact id. Qed.

Lemma outputs_ok_updateIRQLine (a : APU.t) :
  outputs_ok nan a -> outputs_ok nan (_updateIRQLine a).
Proof. exact id. Qed.

Lemma outputs_ok_write (addr v : Z) (a : APU.t) :
  outputs_ok nan a -> outputs_ok nan (write addr v a).
Proof.
  intros H. pose proof H as (P1 & P2 & N & D & M & S). unfold write.
  repeat match goal with
         | |- context [if addr =? ?k then _ else _] => destruct (addr =? k)
         end; try exact H.
  all: try (ok_parts; ok_simpl; ok_field P1 P2 N D; fail).
  - ok_parts; ok_simpl; try ok_field P1 P2 N D.
    pose proof (dac_range (DMCRun.SetEnabled
                  (JS.truthy (JS.and (JS.and v 255) 16))) _ D) as D'.
    cbn [DMCRun.run_op] in D'.
    destruct (negb _); exact D'.
  - apply outputs_ok_updateIRQLine. cbn [with_frame mode5].
    destruct (JS.truthy (JS.and (JS.and v 255) 128)).
    + apply outputs_ok_clockQuarterHalf, outputs_ok_frame, H.
    + apply outputs_ok_frame, H.
Qed.

Lemma outputs_ok_read (addr : Z) (a : APU.t) :
  outputs_ok nan a -> outputs_ok nan (snd (read addr a)).
Proof.
  intros H. unfold read. destruct (negb _); [exact H|]. exact H.
Qed.

Lemma outputs_ok_setVolume (v : JS.number) (a : APU.t) :
  (nan = false -> v <> JS.NaN) ->
  outputs_ok nan a -> outputs_ok nan (setVolume v a).
Proof.
  intros Hv (P1 & P2 & N & D & M & S). ok_parts; ok_simpl; try assumption.
  apply clamp01_unit, Hv.
Qed.

Lemma outputs_ok_clock_channels (a : APU.t) :
  outputs_ok nan a -> outputs_ok nan (clock_channels a).
Proof.
  intros (P1 & P2 & N & D & M & S). unfold clock_channels.
  ok_parts; ok_simpl; ok_field P1 P2 N D.
Qed.

Lemma outputs_ok_end_of_sequence (q4 : Q) (a : APU.t) :
  outputs_ok nan a -> outputs_ok nan (end_of_sequence q4 a).
Proof.
  intros H. apply outputs_ok_clockQuarterHalf in H.
  unfold end_of_sequence. cbv zeta.
  apply outputs_ok_frame, outputs_ok_updateIRQLine.
  destruct (_ && _); [apply outputs_ok_frame|]; exact H.
Qed.

Lemma outputs_ok_sequence (a : APU.t) :
  outputs_ok nan a -> outputs_ok nan (sequence a).
Proof.
  intros H. unfold sequence. cbv zeta.
  match goal with
  | |- outputs_ok nan (boundary4 _ _ (boundary3 _ _ (boundary2 _ _
                     (boundary1 _ _ (init_phase ?x))))) =>
      assert (H0 : outputs_ok nan (init_phase x))
        by (unfold init_phase; destruct (JS.truthy _);
            [|apply outputs_ok_frame]; apply outputs_ok_frame, H);
      generalize dependent (init_phase x)
  end.
  intros b H0.
  assert (H1 : forall q n c,
            outputs_ok nan c -> outputs_ok nan (boundary1 q n c)).
  { intros q n c Hc. unfold boundary1. destruct (_ && _); [|exact Hc].
    apply outputs_ok_frame, outputs_ok_clockQuarter, Hc. }
  assert (H2 : forall q n c,
            outputs_ok nan c -> outputs_ok nan (boundary2 q n c)).
  { intros q n c Hc. unfold boundary2. destruct (_ && _); [|exact Hc].
    apply outputs_ok_frame, outputs_ok_clockQuarterHalf, Hc. }
  assert (H3 : forall q n c,
            outputs_ok nan c -> outputs_ok nan (boundary3 q n c)).
  { intros q n c Hc. unfold boundary3. destruct (_ && _); [|exact Hc].
    apply outputs_ok_frame, outputs_ok_clockQuarter, Hc. }
  unfold boundary4. destruct (_ && _).
  - apply outputs_ok_end_of_sequence; auto.
  - auto.
Qed.

Lemma outputs_ok_resample (a : APU.t) :
  outputs_ok nan a -> outputs_ok nan (resample a).
Proof.
  intros H. pose proof H as (P1 & P2 & N & D & M & S).
  unfold resample. cbv zeta. destruct (Qle_bool _ _); [|exact H].
  match goal with
  | |- context [_mix ?x] =>
      assert (U : in_range nan (-1) 1 (_mix x));
      [|generalize dependent (_mix x); intros s U]
  end.
  { apply mix_bounds; cbn [pulse1 pulse2 triangle noise dmc master with_audio].
    - apply pulse_out_range, P1.
    - apply pulse_out_range, P2.
    - apply triangle_out_range.
    - apply noise_out_range, N.
    - exact D.
    - exact M. }
  cbn [audioEnabled with_audio].
  destruct (audioEnabled a).
  - unfold _pushSample. destruct (negb _).
    + ok_parts; cbn; try assumption. constructor; assumption.
    + ok_parts; cbn; try assumption. constructor; assumption.
  - ok_parts; cbn; try assumption. constructor; assumption.
Qed.

Lemma outputs_ok_cycle (a : APU.t) :
  outputs_ok nan a -> outputs_ok nan (cycle a).
Proof.
  intros H. unfold cycle.
  apply outputs_ok_resample, outputs_ok_sequence.
  apply outputs_ok_clock_channels, H.
Qed.

Lemma outputs_ok_step (cycles : Z) (a : APU.t) :
  outputs_ok nan a -> outputs_ok nan (step cycles a).
Proof.
  intros H. unfold step. induction (Z.to_nat cycles) as [|n IH]; [exact H|].
  cbn [Nat.iter]. apply outputs_ok_cycle, IH.
Qed.

Lemma outputs_ok_run_op (o : APURun.op) (a : APU.t) :
  (nan = false -> numeric o = true) ->
  outputs_ok nan a -> outputs_ok nan (APURun.run_op o a).
Proof.
  intros Ho H. destruct o as [addr v|addr|cycles|v]; cbn [APURun.run_op].
  - apply outputs_ok_write, H.
  - apply outputs_ok_read, H.
  - apply outputs_ok_step, H.
  - apply outputs_ok_setVolume; [|exact H].
    intros E ->. specialize (Ho E). discriminate.
Qed.

Lemma outputs_ok_run (ops : list APURun.op) (a : APU.t) :
  (nan = false -> forallb numeric ops = true) ->
  outputs_ok nan a -> outputs_ok nan (APURun.run ops a).
Proof.
  unfold APURun.run. revert a.
  induction ops as [|o ops IH]; intros a Ho H; [exact H|].
  cbn [fold_left]. apply IH.
  - intros E. specialize (Ho E). cbn [forallb] in Ho.
    apply andb_prop in Ho. apply Ho.
  - apply outputs_ok_run_op; [|exact H].
    intros E. specialize (Ho E). cbn [forallb] in Ho.
    apply andb_prop in Ho. apply Ho.
Qed.

End OutputRanges.

Section SamplesOfRuns.

Import APU APURun.

(** Every sample the APU produces, whatever the CPU writes, reads and
    steps from power-on, lies in [-1, 1], as long as [setVolume] is not
    handed NaN. *)
Lemma samples_within_unit (mem : Z -> Z) (rate : Q) (audio : bool)
    (ops : list APURun.op) :
  forallb numeric ops = true ->
  Forall unit_sample (samples (APURun.run ops (new mem rate audio))).
Proof.
  intros Ho.
  pose proof (outputs_ok_run false ops _ (fun _ => Ho)
                (outputs_ok_new false mem rate audio))
    as (_ & _ & _ & _ & _ & S).
  exact S.
Qed.

End SamplesOfRuns.

(** * Further properties *)

(** ** JavaScript's bit operators on small numbers *)

Section JSFacts.

Lemma int32_mod (z k : Z) : 0 <= k <= 32 -> JS.int32 z mod 2 ^ k = z mod 2 ^ k.
Proof.
  intros Hk. unfold JS.int32.
  assert (E : 2 ^ 32 = 2 ^ (32 - k) * 2 ^ k)
    by (rewrite <- Z.pow_add_r by lia; f_equal; lia).
  pose proof (Z.div_mod (z + 2 ^ 31) (2 ^ 32) ltac:(lia)) as D.
  assert (P : 0 < 2 ^ k) by (apply Z.pow_pos_nonneg; lia).
  set (q := (z + 2 ^ 31) / 2 ^ 32) in *.
  assert (M : (z + 2 ^ 31) mod 2 ^ 32 - 2 ^ 31 = z - 2 ^ 32 * q) by lia.
  rewrite M, E.
  replace (z - 2 ^ (32 - k) * 2 ^ k * q)
    with (z + (- q * 2 ^ (32 - k)) * 2 ^ k) by ring.
  apply Z.mod_add. lia.
Qed.

Lemma and_ones (n k : Z) : 0 <= k < 31 -> JS.and n (Z.ones k) = n mod 2 ^ k.
Proof.
  intros Hk. unfold JS.and.
  assert (O : 0 <= Z.ones k < 2 ^ 31).
  { rewrite Z.ones_equiv.
    assert (0 < 2 ^ k) by (apply Z.pow_pos_nonneg; lia).
    assert (2 ^ k < 2 ^ 31) by (apply Z.pow_lt_mono_r; lia). lia. }
  rewrite (int32_small (Z.ones k)) by lia.
  rewrite Z.land_ones by lia. apply int32_mod. lia.
Qed.

Lemma shl_small (x n : Z) :
  0 <= n < 32 -> - 2 ^ 31 <= x * 2 ^ n < 2 ^ 31 -> JS.shl x n = x * 2 ^ n.
Proof.
  intros Hn Hx. unfold JS.shl.
  assert (P : 0 < 2 ^ n) by (apply Z.pow_pos_nonneg; lia).
  rewrite (int32_small x) by nia.
  rewrite Z.mod_small by lia. rewrite Z.shiftl_mul_pow2 by lia.
  apply int32_small. exact Hx.
Qed.

Lemma lor_add (a b k : Z) :
  0 <= k -> 0 <= b < 2 ^ k -> Z.lor (a * 2 ^ k) b = a * 2 ^ k + b.
Proof.
  intros Hk Hb.
  assert (L : Z.land (a * 2 ^ k) b = 0).
  { apply Z.bits_inj'. intros i Hi. rewrite Z.land_spec, Z.bits_0.
    destruct (Z.lt_ge_cases i k).
    - rewrite Z.mul_pow2_bits_low by lia. reflexivity.
    - assert (B : Z.testbit b i = false).
      { destruct (Z.eq_dec b 0) as [->|Nz]; [apply Z.bits_0|].
        apply Z.bits_above_log2; [lia|].
        apply Z.lt_le_trans with k; [|lia].
        apply Z.log2_lt_pow2; lia. }
      rewrite B. apply andb_false_r. }
  rewrite <- Z.lxor_lor by exact L.
  symmetry. apply Z.add_nocarry_lxor. exact L.
Qed.

Lemma or_add (a b k : Z) :
  0 <= k <= 31 -> 0 <= b < 2 ^ k -> - 2 ^ 31 <= a * 2 ^ k ->
  a * 2 ^ k + b < 2 ^ 31 -> JS.or (a * 2 ^ k) b = a * 2 ^ k + b.
Proof.
  intros Hk Hb Ha Hs. unfold JS.or.
  assert (K : 2 ^ k <= 2 ^ 31) by (apply Z.pow_le_mono_r; lia).
  rewrite !int32_small by lia. apply lor_add; [lia|assumption].
Qed.

Lemma testbit_int32 (w k : Z) :
  0 <= k < 32 -> Z.testbit (JS.int32 w) k = Z.testbit w k.
Proof.
  intros Hk.
  rewrite <- (Z.mod_pow2_bits_low (JS.int32 w) 32 k) by lia.
  rewrite int32_mod by lia. apply Z.mod_pow2_bits_low. lia.
Qed.

Lemma land_pow2 (x k : Z) :
  0 <= k -> Z.land x (2 ^ k) = if Z.testbit x k then 2 ^ k else 0.
Proof.
  intros Hk. apply Z.bits_inj'. intros i Hi.
  rewrite Z.land_spec, Z.pow2_bits_eqb by lia.
  destruct (Z.eqb_spec k i) as [->|N].
  - destruct (Z.testbit x i); cbn [andb].
    + rewrite Z.pow2_bits_eqb, Z.eqb_refl by lia. reflexivity.
    + now rewrite Z.bits_0.
  - rewrite andb_false_r. destruct (Z.testbit x k).
    + rewrite Z.pow2_bits_eqb by lia. symmetry. now apply Z.eqb_neq.
    + now rewrite Z.bits_0.
Qed.

Lemma and_pow2 (w k : Z) :
  0 <= k < 31 -> JS.and w (2 ^ k) = if Z.testbit w k then 2 ^ k else 0.
Proof.
  intros Hk. unfold JS.and.
  assert (0 < 2 ^ k < 2 ^ 31)
    by (split; [apply Z.pow_pos_nonneg; lia|apply Z.pow_lt_mono_r; lia]).
  rewrite (int32_small (2 ^ k)) by lia.
  rewrite land_pow2, testbit_int32 by lia. reflexivity.
Qed.

Lemma truthy_and_pow2 (w k : Z) :
  0 <= k < 31 -> JS.truthy (JS.and w (2 ^ k)) = Z.testbit w k.
Proof.
  intros Hk. rewrite and_pow2 by exact Hk. unfold JS.truthy.
  assert (0 < 2 ^ k) by (apply Z.pow_pos_nonneg; lia).
  destruct (Z.testbit w k); [|reflexivity].
  destruct (Z.eqb_spec (2 ^ k) 0); [lia|reflexivity].
Qed.

Lemma and_byte (v : Z) : JS.and v 0xFF = v mod 256.
Proof. exact (and_ones v 8 ltac:(lia)). Qed.

(** The bit [k] of the byte that [APU.write] keeps of its argument. *)
Lemma byte_bit (v k : Z) :
  0 <= k < 8 -> JS.truthy (JS.and (JS.and v 0xFF) (2 ^ k)) = Z.testbit v k.
Proof.
  intros Hk. rewrite truthy_and_pow2 by lia.
  rewrite and_byte. apply (Z.mod_pow2_bits_low v 8 k). lia.
Qed.

Lemma enable_bits (v : Z) :
  JS.truthy (JS.and (JS.and v 0xFF) 1) = Z.testbit v 0 /\
  JS.truthy (JS.and (JS.and v 0xFF) 2) = Z.testbit v 1 /\
  JS.truthy (JS.and (JS.and v 0xFF) 4) = Z.testbit v 2 /\
  JS.truthy (JS.and (JS.and v 0xFF) 8) = Z.testbit v 3 /\
  JS.truthy (JS.and (JS.and v 0xFF) 0x10) = Z.testbit v 4 /\
  JS.truthy (JS.and (JS.and v 0xFF) 0x20) = Z.testbit v 5 /\
  JS.truthy (JS.and (JS.and v 0xFF) 0x40) = Z.testbit v 6 /\
  JS.truthy (JS.and (JS.and v 0xFF) 0x80) = Z.testbit v 7.
Proof.
  repeat split;
    [ exact (byte_bit v 0 ltac:(lia)) | exact (byte_bit v 1 ltac:(lia))
    | exact (byte_bit v 2 ltac:(lia)) | exact (byte_bit v 3 ltac:(lia))
    | exact (byte_bit v 4 ltac:(lia)) | exact (byte_bit v 5 ltac:(lia))
    | exact (byte_bit v 6 ltac:(lia)) | exact (byte_bit v 7 ltac:(lia)) ].
Qed.

Lemma or_add_256 (a b : Z) :
  0 <= b < 256 -> - 2 ^ 31 <= a * 256 -> a * 256 + b < 2 ^ 31 ->
  JS.or (a * 256) b = a * 256 + b.
Proof. intros Hb Ha Hs. exact (or_add a b 8 ltac:(lia) Hb Ha Hs). Qed.

Lemma shl_8 (x : Z) : - 2 ^ 31 <= x * 256 < 2 ^ 31 -> JS.shl x 8 = x * 256.
Proof. intros Hx. exact (shl_small x 8 ltac:(lia) Hx). Qed.

Lemma land_0x700 (x : Z) : Z.land x 0x700 = ((x / 256) mod 8) * 256.
Proof.
  transitivity (Z.shiftl (Z.land (Z.shiftr x 8) (Z.ones 3)) 8).
  - change 0x700 with (Z.shiftl (Z.ones 3) 8).
    apply Z.bits_inj'. intros i Hi.
    rewrite Z.land_spec.
    destruct (Z.lt_ge_cases i 8).
    + rewrite !Z.shiftl_spec_low by lia. apply andb_false_r.
    + rewrite !Z.shiftl_spec_high by lia.
      rewrite Z.land_spec, Z.shiftr_spec by lia.
      replace (i - 8 + 8) with i by lia. reflexivity.
  - rewrite Z.shiftl_mul_pow2, Z.land_ones, Z.shiftr_div_pow2 by lia.
    reflexivity.
Qed.

Lemma and_0x700 (x : Z) :
  exists h, 0 <= h < 8 /\ JS.and x 0x700 = h * 256.
Proof.
  exists ((JS.int32 x / 256) mod 8). split; [apply Z.mod_pos_bound; lia|].
  unfold JS.and. rewrite (int32_small 0x700) by lia. apply land_0x700.
Qed.

Lemma or_comm (a b : Z) : JS.or a b = JS.or b a.
Proof. unfold JS.or. apply Z.lor_comm. Qed.

End JSFacts.

(** ** PPU: the dot clock *)

Section PPUClockFacts.

Import PPU PPURun PPUClock.

Lemma presented_step (p : PPU.t) :
  presented (step p) =
  if (340 <? cycle p + 1) && (scanline p + 1 =? 241)
  then S (presented p) else presented p.
Proof.
  unfold step. destruct (340 <? cycle p + 1); [|reflexivity].
  cbn [scanline with_timing andb].
  destruct (scanline p + 1 =? 241);
    cbn [scanline presented renderFrame with_frame with_status with_timing];
    destruct (262 <=? _); reflexivity.
Qed.

Lemma run_snoc (ops : list op) (o : op) (p : PPU.t) :
  run (ops ++ [o]) p = run_op o (run ops p).
Proof. unfold run. rewrite fold_left_app. reflexivity. Qed.

Lemma steps_snoc (ops : list op) (o : op) :
  steps (ops ++ [o]) = steps ops + (if is_step o then 1 else 0).
Proof.
  unfold steps. rewrite List.filter_app, length_app. cbn [List.filter].
  destruct (is_step o); cbn [length]; lia.
Qed.

Lemma timing_read (a : Z) (p : PPU.t) :
  let p' := snd (readRegister a p) in
  cycle p' = cycle p /\ scanline p' = scanline p /\ presented p' = presented p.
Proof.
  unfold readRegister.
  destruct (a =? 0x2002); [|destruct (a =? 0x2007)]; cbn; auto.
Qed.

Lemma timing_write (a v : Z) (p : PPU.t) :
  let p' := writeRegister a v p in
  cycle p' = cycle p /\ scanline p' = scanline p /\ presented p' = presented p.
Proof.
  unfold writeRegister.
  repeat match goal with
         | |- context [if ?b then _ else _] => destruct b
         | |- context [match scrollX p with _ => _ end] => destruct (scrollX p)
         end; cbn; auto.
Qed.

(** X1.  The dot clock in closed form.  After a run from the constructor's
    state that holds [n] calls of [step], among any register reads and
    writes, [cycle] is [n mod 341], [scanline] is [(n / 341) mod 262], and
    [renderFrame] has presented the frame [(n / 341 + 21) / 262] times: once
    for each time the scanline counter reached 241. *)
Theorem ppu_clock_closed_form (ops : list op) :
  let p := run ops new in
  let n := steps ops in
  cycle p = n mod 341 /\
  scanline p = (n / 341) mod 262 /\
  Z.of_nat (presented p) = (n / 341 + 21) / 262.
Proof.
  induction ops as [|o ops IH] using rev_ind; [cbv zeta; cbn; auto|].
  cbv zeta in *. rewrite run_snoc, steps_snoc.
  destruct IH as (Hc & Hs & Hp).
  assert (N : 0 <= steps ops) by (unfold steps; lia).
  destruct o as [|a|a v]; cbn [run_op is_step].
  - rewrite cycle_step, scanline_step, presented_step, Hc, Hs.
    destruct (Z.ltb_spec 340 (steps ops mod 341 + 1));
      destruct (Z.leb_spec 262 ((steps ops / 341) mod 262 + 1));
      destruct (Z.eqb_spec ((steps ops / 341) mod 262 + 1) 241);
      cbn [andb]; rewrite ?Nat2Z.inj_succ, Hp;
      Z.to_euclidean_division_equations; lia.
  - destruct (timing_read a (run ops new)) as (-> & -> & ->).
    rewrite Z.add_0_r. auto.
  - destruct (timing_write a v (run ops new)) as (-> & -> & ->).
    rewrite Z.add_0_r. auto.
Qed.

End PPUClockFacts.

(** ** PPU: the timing and the vblank flag *)

Section PPUTiming.

Import PPU PPURun PPUClock.

(** The two counters after a run that holds [steps ops] calls of [step]. *)
Lemma counters_of_run (ops : list op) :
  cycle (run ops new) = steps ops mod 341 /\
  scanline (run ops new) = (steps ops / 341) mod 262.
Proof.
  induction ops as [|o ops [Hc Hs]] using rev_ind; [cbn; auto|].
  rewrite run_snoc, steps_snoc.
  assert (N : 0 <= steps ops) by (unfold steps; lia).
  destruct o as [|a|a v]; cbn [run_op is_step].
  - rewrite cycle_step, scanline_step, Hc, Hs.
    destruct (Z.ltb_spec 340 (steps ops mod 341 + 1));
      destruct (Z.leb_spec 262 ((steps ops / 341) mod 262 + 1));
      Z.to_euclidean_division_equations; lia.
  - destruct (timing_read a (run ops new)) as (-> & -> & _).
    rewrite Z.add_0_r. auto.
  - destruct (timing_write a v (run ops new)) as (-> & -> & _).
    rewrite Z.add_0_r. auto.
Qed.

(** C4.  In every state reached from the constructor by [step] calls and
    register reads and writes in any order, [cycle] is in [0, 340] and
    [scanline] in [0, 261]; they are the counters of the [n] calls of
    [step] made so far ([cycle] is [n mod 341], [scanline] is
    [(n / 341) mod 262]), and the vblank flag is only up on scanlines 241
    and later.  From such a state a [step] adds one to [cycle] modulo 341
    and, at cycle 340, one to [scanline] modulo 262; the [step] that takes
    [scanline] from 240 to 241 raises the flag, the one that wraps it from
    261 to 0 lowers the flag, and every other [step] leaves the flag as it
    is; a read of $2002 returns the status as it was and lowers the flag.
    When the run was made of [step] calls alone, the flag is up exactly on
    scanlines 241 to 261. *)
Theorem ppu_timing (ops : list op) :
  let p := run ops new in
  let n := steps ops in
  (0 <= cycle p <= 340 /\ 0 <= scanline p <= 261) /\
  (cycle p = n mod 341 /\ scanline p = (n / 341) mod 262) /\
  (cycle (step p) = (cycle p + 1) mod 341 /\
   scanline (step p)
   = if cycle p =? 340 then (scanline p + 1) mod 262 else scanline p) /\
  (vblank p = true -> 241 <= scanline p) /\
  vblank (step p)
  = (if cycle p =? 340
     then if scanline p =? 240 then true
          else if scanline p =? 261 then false else vblank p
     else vblank p) /\
  (cycle p = 340 /\ scanline p = 240 ->
   scanline (step p) = 241 /\ vblank (step p) = true) /\
  (~ (cycle p = 340 /\ scanline p = 240) ->
   vblank (step p) = true -> vblank p = true) /\
  (cycle p = 340 /\ scanline p = 261 ->
   scanline (step p) = 0 /\ vblank (step p) = false) /\
  (fst (readRegister 0x2002 p) = Some (status p) /\
   vblank (snd (readRegister 0x2002 p)) = false) /\
  (forallb is_step ops = true -> (vblank p = true <-> 241 <= scanline p)).
Proof.
  intros p n.
  assert (T : timing_ok p) by (apply timing_ok_run, timing_ok_new).
  pose proof T as (Hc & Hs & Hst).
  assert (V : vblank p = true <-> status p = 0x80).
  { unfold vblank. destruct Hst as [E | [E _]]; rewrite E; cbn; split;
      (discriminate || reflexivity). }
  assert (C : cycle (step p) = (cycle p + 1) mod 341 /\
              scanline (step p)
              = if cycle p =? 340 then (scanline p + 1) mod 262
                else scanline p).
  { rewrite cycle_step, scanline_step.
    destruct (Z.ltb_spec 340 (cycle p + 1)), (Z.eqb_spec (cycle p) 340);
      try lia.
    - replace (cycle p + 1) with 341 by lia.
      split; [reflexivity|].
      destruct (Z.leb_spec 262 (scanline p + 1)).
      + replace (scanline p + 1) with 262 by lia. reflexivity.
      + rewrite Z.mod_small; lia.
    - split; [rewrite Z.mod_small; lia|reflexivity]. }
  assert (F : vblank (step p)
              = if cycle p =? 340
                then if scanline p =? 240 then true
                     else if scanline p =? 261 then false else vblank p
                else vblank p).
  { unfold vblank. rewrite status_step.
    destruct (Z.ltb_spec 340 (cycle p + 1)), (Z.eqb_spec (cycle p) 340);
      try lia; [|reflexivity].
    cbv zeta.
    destruct (Z.eqb_spec (scanline p + 1) 241), (Z.eqb_spec (scanline p) 240);
      try lia;
      destruct (Z.leb_spec 262 (scanline p + 1)),
               (Z.eqb_spec (scanline p) 261); try lia;
      destruct Hst as [-> | [-> _]]; reflexivity. }
  split; [lia|]. split; [apply counters_of_run|]. split; [exact C|].
  split; [rewrite V; lia|]. split; [exact F|].
  destruct C as [_ Cs].
  split; [|split; [|split; [|split]]].
  - intros [Ec Es]. rewrite Cs, F, Ec, Es. split; reflexivity.
  - intros N. rewrite F.
    destruct (Z.eqb_spec (cycle p) 340); [|exact id].
    destruct (Z.eqb_spec (scanline p) 240); [lia|].
    destruct (Z.eqb_spec (scanline p) 261); [discriminate|exact id].
  - intros [Ec Es]. rewrite Cs, F, Ec, Es. split; reflexivity.
  - split; [reflexivity|].
    unfold vblank, readRegister. cbn.
    destruct Hst as [-> | [-> _]]; reflexivity.
  - intros S.
    assert (K : vblank_tracks_scanline p).
    { apply tracks_run; [exact S|]. split; [apply timing_ok_new|].
      cbn. lia. }
    destruct K as [_ K]. rewrite V. split; [|exact K].
    intros E. destruct Hst as [E0 | [_ L]]; [congruence | exact L].
Qed.

(** 341 x 241 calls of [step] after the constructor reach scanline 241
    with the flag up; 341 x 262 calls are back at scanline 0 with the flag
    down. *)
Lemma ppu_timing_witness :
  let up := repeat Step (Z.to_nat (341 * 241)) in
  let down := repeat Step (Z.to_nat (341 * 262)) in
  (cycle (run up new) = 0 /\ scanline (run up new) = 241 /\
   vblank (run up new) = true) /\
  (cycle (run down new) = 0 /\ scanline (run down new) = 0 /\
   vblank (run down new) = false).
Proof.
  intros up down.
  assert (Nu : steps up = 341 * 241) by (vm_compute; reflexivity).
  assert (Nd : steps down = 341 * 262) by (vm_compute; reflexivity).
  assert (Su : forallb is_step up = true) by (vm_compute; reflexivity).
  assert (Sd : forallb is_step down = true) by (vm_compute; reflexivity).
  destruct (ppu_timing up) as (_ & (Cu & Lu) & _ & _ & _ & _ & _ & _ & _ & Vu).
  destruct (ppu_timing down)
    as (_ & (Cd & Ld) & _ & _ & _ & _ & _ & _ & _ & Vd).
  rewrite Nu in Cu, Lu. rewrite Nd in Cd, Ld.
  change ((341 * 241) mod 341) with 0 in Cu.
  change ((341 * 241 / 341) mod 262) with 241 in Lu.
  change ((341 * 262) mod 341) with 0 in Cd.
  change ((341 * 262 / 341) mod 262) with 0 in Ld.
  specialize (Vu Su). specialize (Vd Sd).
  split.
  - split; [exact Cu|]. split; [exact Lu|]. apply Vu. rewrite Lu. lia.
  - split; [exact Cd|]. split; [exact Ld|].
    destruct (vblank (run down new)); [|reflexivity].
    destruct Vd as [Vd _]. specialize (Vd eq_refl). lia.
Defined.

End PPUTiming.

(** ** PPU: the address latch and the uploads *)

Section PPUMemoryFacts.

Import PPU PPURun PPUMemory.

(** Two writes to $2006 on a latch that holds [a]. *)
Lemma write_2006_twice (hi lo : Z) (p : PPU.t) :
  0 <= addr p < 2 ^ 15 -> 0 <= hi < 256 -> 0 <= lo < 256 ->
  addr (writeRegister 0x2006 lo (writeRegister 0x2006 hi p))
  = addr p * 65536 + hi * 256 + lo.
Proof.
  intros Ha Hh Hl. unfold writeRegister. cbn [Z.eqb Pos.eqb addr with_addr].
  rewrite (shl_small (addr p) 8) by lia.
  rewrite (or_add (addr p) hi 8) by lia.
  rewrite (shl_small _ 8) by lia.
  rewrite (or_add _ lo 8) by lia.
  change (2 ^ 8) with 256. lia.
Qed.

(** X2.  The address latch of $2006 is a shift register that is never
    masked to 16 bits: two byte writes [hi], [lo] on a latch that holds [a]
    leave [a * 65536 + hi * 256 + lo].  So the pair sets the address
    [hi * 256 + lo] only on a latch that holds 0; on any other, the address
    is beyond the 16 KB of [vram], where a read of $2007 returns
    [undefined] and a write to $2007 stores nothing. *)
Theorem addr_latch_keeps_old_bits (hi lo v : Z) (p : PPU.t) :
  0 <= addr p < 2 ^ 15 -> 0 <= hi < 256 -> 0 <= lo < 256 ->
  length (vram p) = Z.to_nat 0x4000 ->
  let p' := writeRegister 0x2006 lo (writeRegister 0x2006 hi p) in
  addr p' = addr p * 65536 + hi * 256 + lo /\
  (addr p = 0 -> addr p' = hi * 256 + lo) /\
  (0 < addr p ->
   fst (readRegister 0x2007 p') = None /\
   vram (writeRegister 0x2007 v p') = vram p').
Proof.
  intros Ha Hh Hl Hv p'.
  pose proof (write_2006_twice hi lo p Ha Hh Hl) as E. fold p' in E.
  assert (V : vram p' = vram p).
  { unfold p', writeRegister. cbn [Z.eqb Pos.eqb vram with_addr]. reflexivity. }
  split; [exact E|]. split; [intros Z0; rewrite E, Z0; lia|].
  intros Hp.
  unfold readRegister, writeRegister.
  cbn [Z.eqb Pos.eqb fst vram with_addr with_vram].
  unfold JS.index, JS.store8.
  destruct (Z.ltb_spec (addr p') 0); [lia|].
  split.
  - apply lookup_ge_None_2. rewrite V, Hv. lia.
  - apply list_insert_ge. rewrite V, Hv. lia.
Qed.

Lemma addr_latch_witness :
  let p := writeRegister 0x2006 0x00 (writeRegister 0x2006 0x20 new) in
  let p' := writeRegister 0x2006 0x00 (writeRegister 0x2006 0x20 p) in
  addr p = 0x2000 /\ addr p' = 0x20002000 /\
  fst (readRegister 0x2007 p') = None.
Proof.
  intros p p'.
  assert (A : addr p = 0x2000) by reflexivity.
  assert (L : length (vram p) = Z.to_nat 0x4000) by apply repeat_length.
  destruct (addr_latch_keeps_old_bits 0x20 0x00 0 p) as (E & _ & R);
    [rewrite A; lia | lia | lia | exact L |].
  fold p' in E, R. split; [exact A|]. split; [rewrite E, A; reflexivity|].
  apply R. rewrite A. lia.
Defined.

Lemma store8_length (l : list Z) (i v : Z) :
  length (JS.store8 l i v) = length l.
Proof. unfold JS.store8. destruct (i <? 0); [reflexivity|apply length_insert]. Qed.

Lemma store8c_length (l : list Z) (i v : Z) :
  length (JS.store8c l i v) = length l.
Proof. unfold JS.store8c. destruct (i <? 0); [reflexivity|apply length_insert]. Qed.

Lemma index_store8 (l : list Z) (a v i : Z) :
  JS.index (JS.store8 l a v) i =
  if (i =? a) && (0 <=? i) && (i <? Z.of_nat (length l))
  then Some (v mod 256) else JS.index l i.
Proof.
  unfold JS.index, JS.store8.
  destruct (Z.ltb_spec i 0) as [Hi|Hi].
  - destruct (Z.leb_spec 0 i); [lia|]. now rewrite andb_false_r.
  - destruct (Z.eqb_spec i a) as [->|N]; cbn [andb].
    + destruct (Z.ltb_spec a 0); [lia|].
      destruct (Z.leb_spec 0 a); [|lia]. cbn [andb].
      destruct (Z.ltb_spec a (Z.of_nat (length l))).
      * apply list_lookup_insert_eq. lia.
      * rewrite list_insert_ge by lia. reflexivity.
    + destruct (Z.ltb_spec a 0); [reflexivity|].
      apply list_lookup_insert_ne. lia.
Qed.

Lemma index_cons (v : Z) (vs : list Z) (i : Z) :
  JS.index (v :: vs) i = if i =? 0 then Some v else JS.index vs (i - 1).
Proof.
  unfold JS.index.
  destruct (Z.ltb_spec i 0).
  - destruct (Z.eqb_spec i 0); [lia|]. destruct (Z.ltb_spec (i - 1) 0); [reflexivity|lia].
  - destruct (Z.eqb_spec i 0) as [->|N]; [reflexivity|].
    destruct (Z.ltb_spec (i - 1) 0); [lia|].
    replace (Z.to_nat i) with (S (Z.to_nat (i - 1))) by lia. reflexivity.
Qed.

Lemma index_range (l : list Z) (i : Z) :
  (0 <=? i) && (i <? Z.of_nat (length l)) = false -> JS.index l i = None.
Proof.
  intros H. unfold JS.index. destruct (Z.ltb_spec i 0); [reflexivity|].
  apply lookup_ge_None_2.
  destruct (Z.leb_spec 0 i); [|lia]. cbn [andb] in H.
  apply Z.ltb_ge in H. lia.
Qed.

Lemma stores_spec (vs : list Z) (a : Z) (l : list Z) :
  fst (stores a vs l) = a + Z.of_nat (length vs) /\
  length (snd (stores a vs l)) = length l /\
  forall i, JS.index (snd (stores a vs l)) i = after_stores a vs l i.
Proof.
  revert a l. induction vs as [|v vs IH]; intros a l.
  - cbn. split; [lia|]. split; [reflexivity|]. intros i. unfold after_stores.
    destruct ((0 <=? i) && (i <? Z.of_nat (length l))) eqn:R.
    + cbn [length]. destruct (Z.leb_spec a i), (Z.ltb_spec i (a + Z.of_nat 0));
        try lia; reflexivity.
    + apply index_range, R.
  - change (stores a (v :: vs) l) with (stores (a + 1) vs (JS.store8 l a v)).
    destruct (IH (a + 1) (JS.store8 l a v)) as (F & L & I).
    rewrite F, L, store8_length. cbn [length].
    split; [lia|]. split; [reflexivity|]. intros i. rewrite I.
    unfold after_stores. rewrite store8_length. cbn [length].
    destruct ((0 <=? i) && (i <? Z.of_nat (length l))) eqn:R; [|reflexivity].
    rewrite index_store8, index_cons.
    apply andb_prop in R as [R0 R1]. rewrite R0, R1.
    destruct (Z.leb_spec (a + 1) i), (Z.ltb_spec i (a + 1 + Z.of_nat (length vs))),
      (Z.leb_spec a i), (Z.ltb_spec i (a + Z.of_nat (S (length vs)))),
      (Z.eqb_spec i a), (Z.eqb_spec (i - a) 0);
      try lia; cbn [andb option_map]; try reflexivity.
    replace (i - (a + 1)) with (i - a - 1) by lia. reflexivity.
Qed.

Lemma upload_2007 (vs : list Z) (p : PPU.t) :
  addr (upload 0x2007 vs p) = fst (stores (addr p) vs (vram p)) /\
  vram (upload 0x2007 vs p) = snd (stores (addr p) vs (vram p)) /\
  oam (upload 0x2007 vs p) = oam p /\
  oamAddr (upload 0x2007 vs p) = oamAddr p.
Proof.
  revert p. induction vs as [|v vs IH]; intros p; [cbn; auto|].
  change (upload 0x2007 (v :: vs) p)
    with (upload 0x2007 vs (writeRegister 0x2007 v p)).
  destruct (IH (writeRegister 0x2007 v p)) as (-> & -> & -> & ->).
  repeat split; reflexivity.
Qed.

Lemma upload_2004 (vs : list Z) (p : PPU.t) :
  oamAddr (upload 0x2004 vs p) = fst (stores (oamAddr p) vs (oam p)) /\
  oam (upload 0x2004 vs p) = snd (stores (oamAddr p) vs (oam p)) /\
  vram (upload 0x2004 vs p) = vram p /\
  addr (upload 0x2004 vs p) = addr p.
Proof.
  revert p. induction vs as [|v vs IH]; intros p; [cbn; auto|].
  change (upload 0x2004 (v :: vs) p)
    with (upload 0x2004 vs (writeRegister 0x2004 v p)).
  destruct (IH (writeRegister 0x2004 v p)) as (-> & -> & -> & ->).
  repeat split; reflexivity.
Qed.

(** X3.  A block of writes to $2007 stores the values, modulo 256, at the
    consecutive addresses from [addr] on, leaves every other byte of
    [vram] as it was, and leaves [addr] advanced by the number of writes;
    the writes that fall outside the array store nothing.  OAM is not
    touched. *)
Theorem vram_upload (vs : list Z) (p : PPU.t) :
  let p' := upload 0x2007 vs p in
  addr p' = addr p + Z.of_nat (length vs) /\
  length (vram p') = length (vram p) /\
  (forall i, JS.index (vram p') i = after_stores (addr p) vs (vram p) i) /\
  oam p' = oam p /\ oamAddr p' = oamAddr p.
Proof.
  intros p'. destruct (upload_2007 vs p) as (A & V & O & OA).
  destruct (stores_spec vs (addr p) (vram p)) as (F & L & I).
  unfold p'. rewrite A, V. auto.
Qed.

(** X4.  A block of writes to $2004 after $2003 set the OAM address to
    [a]: the values are stored, modulo 256, at [a], [a + 1], ..., the rest
    of [oam] is as it was and [oamAddr] is [a] plus the number of writes.
    The writes that fall beyond the 256 bytes (or at a negative [a]) store
    nothing: the address does not wrap. *)
Theorem oam_upload (a : Z) (vs : list Z) (p : PPU.t) :
  let p' := upload 0x2004 vs (writeRegister 0x2003 a p) in
  oamAddr p' = a + Z.of_nat (length vs) /\
  length (oam p') = length (oam p) /\
  (forall i, JS.index (oam p') i = after_stores a vs (oam p) i) /\
  vram p' = vram p /\ addr p' = addr p.
Proof.
  intros p'.
  destruct (upload_2004 vs (writeRegister 0x2003 a p)) as (A & V & O & OA).
  change (oamAddr (writeRegister 0x2003 a p)) with a in A, V.
  change (oam (writeRegister 0x2003 a p)) with (oam p) in A, V.
  destruct (stores_spec vs a (oam p)) as (F & L & I).
  unfold p'. rewrite A, V. auto.
Qed.

End PPUMemoryFacts.

(** ** PPU: rendering *)

Section FrameBuffer.

Import PPU PPUFrame.

Lemma for_range_S {S : Type} (n : nat) (body : Z -> S -> S) (s : S) :
  JS.for_range (Z.of_nat (Datatypes.S n)) body s
  = body (Z.of_nat n) (JS.for_range (Z.of_nat n) body s).
Proof.
  unfold JS.for_range. rewrite !Nat2Z.id, seq_S, fold_left_app. reflexivity.
Qed.

Lemma for_range_inv {S : Type} (P : S -> Prop) (n : Z) (body : Z -> S -> S)
    (s : S) :
  (forall i s, 0 <= i < n -> P s -> P (body i s)) -> P s ->
  P (JS.for_range n body s).
Proof.
  intros Hb Hs.
  destruct (Z.le_gt_cases n 0) as [Hn|Hn].
  { unfold JS.for_range. replace (Z.to_nat n) with 0%nat by lia. exact Hs. }
  rewrite <- (Z2Nat.id n) in * by lia.
  induction (Z.to_nat n) as [|m IH]; [exact Hs|].
  destruct m as [|m].
  - rewrite for_range_S. apply Hb; [lia|exact Hs].
  - rewrite for_range_S. apply Hb; [lia|]. apply IH; [|lia].
    intros i s' Hi. apply Hb. lia.
Qed.

Lemma exists_range_S (n : nat) (f : Z -> bool) :
  exists_range (Z.of_nat (S n)) f = exists_range (Z.of_nat n) f || f (Z.of_nat n).
Proof.
  unfold exists_range. rewrite !Nat2Z.id, seq_S, existsb_app. cbn.
  now rewrite orb_false_r.
Qed.

Lemma exists_range_true (n : Z) (f : Z -> bool) (w : Z) :
  0 <= w < n -> f w = true -> exists_range n f = true.
Proof.
  intros Hw Hf. unfold exists_range. apply existsb_exists.
  exists (Z.to_nat w). split; [apply in_seq; lia|].
  rewrite Z2Nat.id by lia. exact Hf.
Qed.

Lemma exists_range_false (n : Z) (f : Z -> bool) :
  (forall w, 0 <= w < n -> f w = false) -> exists_range n f = false.
Proof.
  intros Hf. unfold exists_range.
  destruct (existsb _ _) eqn:E; [|reflexivity].
  apply existsb_exists in E as (w & Hw & Ew). apply in_seq in Hw.
  rewrite Hf in Ew by lia. discriminate.
Qed.

Lemma painted_refl (V : Z -> Z) (fb : list Z) :
  painted (fun _ => false) V fb fb.
Proof. split; [reflexivity|]. intros j _. reflexivity. Qed.

Lemma painted_ext (D D' : Z -> bool) (V V' : Z -> Z) (fb fb' : list Z) :
  (forall j, 0 <= j < Z.of_nat (length fb) -> D j = D' j) ->
  (forall j, 0 <= j < Z.of_nat (length fb) -> D j = true -> V j = V' j) ->
  painted D V fb fb' -> painted D' V' fb fb'.
Proof.
  intros HD HV [L P]. split; [exact L|].
  intros j Hj. rewrite (P j Hj), <- (HD j Hj).
  destruct (D j) eqn:E; [|reflexivity]. now rewrite (HV j Hj E).
Qed.

Lemma painted_trans (D1 D2 : Z -> bool) (V : Z -> Z) (fb0 fb1 fb2 : list Z) :
  painted D1 V fb0 fb1 -> painted D2 V fb1 fb2 ->
  painted (fun j => D1 j || D2 j) V fb0 fb2.
Proof.
  intros [L1 P1] [L2 P2]. split; [congruence|].
  intros j Hj. rewrite P2 by (rewrite L1; exact Hj). rewrite P1 by exact Hj.
  destruct (D1 j), (D2 j); reflexivity.
Qed.

Lemma for_range_painted (n : Z) (D : Z -> Z -> bool) (V : Z -> Z)
    (body : Z -> list Z -> list Z) (fb : list Z) :
  (forall i fb0, 0 <= i < n -> length fb0 = length fb ->
                 painted (D i) V fb0 (body i fb0)) ->
  painted (fun j => exists_range n (fun i => D i j)) V fb
          (JS.for_range n body fb).
Proof.
  intros Hb.
  destruct (Z.le_gt_cases n 0) as [Hn|Hn].
  { unfold JS.for_range, exists_range.
    replace (Z.to_nat n) with 0%nat by lia. apply painted_refl. }
  rewrite <- (Z2Nat.id n) in * by lia.
  induction (Z.to_nat n) as [|m IH]; [apply painted_refl|].
  assert (IH' : painted (fun j => exists_range (Z.of_nat m) (fun i => D i j))
                  V fb (JS.for_range (Z.of_nat m) body fb)).
  { destruct m as [|m]; [apply painted_refl|].
    apply IH; [|lia]. intros i fb0 Hi. apply Hb. lia. }
  rewrite for_range_S.
  assert (T : painted (D (Z.of_nat m)) V (JS.for_range (Z.of_nat m) body fb)
                (body (Z.of_nat m) (JS.for_range (Z.of_nat m) body fb)))
    by (apply Hb; [lia|apply IH']).
  pose proof (painted_trans _ _ _ _ _ _ IH' T) as U.
  revert U. apply painted_ext.
  - intros j _. cbv beta. symmetry. apply exists_range_S.
  - reflexivity.
Qed.

Lemma index_store8c (l : list Z) (a v i : Z) :
  0 <= i < Z.of_nat (length l) ->
  JS.index (JS.store8c l a v) i =
  if i =? a then Some (Z.max 0 (Z.min 255 v)) else JS.index l i.
Proof.
  intros Hi. unfold JS.index, JS.store8c.
  destruct (Z.ltb_spec i 0); [lia|].
  destruct (Z.eqb_spec i a) as [->|N].
  - destruct (Z.ltb_spec a 0); [lia|]. apply list_lookup_insert_eq. lia.
  - destruct (Z.ltb_spec a 0); [reflexivity|].
    apply list_lookup_insert_ne. lia.
Qed.

Lemma store8c_len (l : list Z) (i v : Z) :
  length (JS.store8c l i v) = length l.
Proof. unfold JS.store8c. destruct (i <? 0); [reflexivity|apply length_insert]. Qed.

Lemma drawPixel_length (x y : Z) (c : Z * Z * Z) (fb : list Z) :
  length (drawPixel x y c fb) = length fb.
Proof.
  unfold drawPixel. destruct c as [[r g] b]. cbv zeta.
  now rewrite !store8c_len.
Qed.

(** [drawPixel] sets the four bytes of one pixel and no other. *)
Lemma drawPixel_painted (x y : Z) (c : Z * Z * Z) (fb : list Z) :
  painted (fun j => j / 4 =? y * screenWidth + x)
          (fun j => Z.max 0 (Z.min 255 (component (j mod 4) c)))
          fb (drawPixel x y c fb).
Proof.
  split; [apply drawPixel_length|].
  intros j Hj. unfold drawPixel. destruct c as [[r g] b]. cbv zeta.
  set (idx := (y * screenWidth + x) * 4).
  rewrite !index_store8c by (rewrite ?store8c_len; exact Hj).
  unfold component.
  destruct (Z.eqb_spec (j / 4) (y * screenWidth + x)) as [E|N].
  - assert (M : j = idx + j mod 4) by (unfold idx; rewrite <- E; 
      pose proof (Z.div_mod j 4); lia).
    assert (0 <= j mod 4 < 4) by (apply Z.mod_pos_bound; lia).
    destruct (Z.eqb_spec j (idx + 3)), (Z.eqb_spec j (idx + 2)),
      (Z.eqb_spec j (idx + 1)), (Z.eqb_spec j idx),
      (Z.eqb_spec (j mod 4) 0), (Z.eqb_spec (j mod 4) 1),
      (Z.eqb_spec (j mod 4) 2); try lia; reflexivity.
  - assert (j < idx \/ idx + 3 < j).
    { unfold idx in *. pose proof (Z.div_mod j 4).
      pose proof (Z.mod_pos_bound j 4). lia. }
    destruct (Z.eqb_spec j (idx + 3)), (Z.eqb_spec j (idx + 2)),
      (Z.eqb_spec j (idx + 1)), (Z.eqb_spec j idx); try lia; reflexivity.
Qed.

Lemma palette_range (i k : Z) : 0 <= component k (palette_at i) <= 255.
Proof.
  unfold palette_at. generalize (Z.to_nat i). intros n.
  assert (F : Forall (fun c => forall k, 0 <= component k c <= 255) palette).
  { repeat constructor; unfold component;
      destruct (k0 =? 0), (k0 =? 1), (k0 =? 2); lia. }
  destruct (palette !! n) as [c|] eqn:E.
  - cbn [default]. rewrite Forall_lookup in F. apply (F n c E).
  - cbn. destruct (k =? 0), (k =? 1), (k =? 2); lia.
Qed.

Lemma pixel_of_tile (ty tx row col n : Z) :
  0 <= tx < 32 -> 0 <= row < 8 -> 0 <= col < 8 ->
  n = (ty * 8 + row) * 256 + (tx * 8 + col) ->
  n mod 256 = tx * 8 + col /\ n / 256 = ty * 8 + row /\
  (tx * 8 + col) / 8 = tx /\ (tx * 8 + col) mod 8 = col /\
  (ty * 8 + row) / 8 = ty.
Proof.
  intros Hx Hr Hc ->.
  assert (A : ((ty * 8 + row) * 256 + (tx * 8 + col)) mod 256 = tx * 8 + col).
  { rewrite Z.add_comm, Z.mod_add by lia. apply Z.mod_small. lia. }
  assert (B : ((ty * 8 + row) * 256 + (tx * 8 + col)) / 256 = ty * 8 + row).
  { rewrite Z.add_comm, Z.div_add by lia. rewrite Z.div_small by lia. lia. }
  assert (C : (tx * 8 + col) / 8 = tx).
  { rewrite Z.add_comm, Z.div_add by lia. rewrite Z.div_small by lia. lia. }
  assert (D : (tx * 8 + col) mod 8 = col).
  { rewrite Z.add_comm, Z.mod_add by lia. apply Z.mod_small. lia. }
  assert (E : (ty * 8 + row) / 8 = ty).
  { rewrite Z.add_comm, Z.div_add by lia. rewrite Z.div_small by lia. lia. }
  auto.
Qed.

Lemma renderBackground_painted (p : PPU.t) (fb : list Z) :
  painted
    (fun j =>
       exists_range 30 (fun ty => exists_range 32 (fun tx =>
         exists_range 8 (fun row => exists_range 8 (fun col =>
           j / 4 =? (ty * 8 + row) * screenWidth + (tx * 8 + col))))))
    (background_byte p) fb (renderBackground p fb).
Proof.
  unfold renderBackground. cbv zeta.
  refine (for_range_painted 30 (fun ty j => exists_range 32 (fun tx =>
            exists_range 8 (fun row => exists_range 8 (fun col =>
              j / 4 =? (ty * 8 + row) * screenWidth + (tx * 8 + col)))))
            _ _ fb _).
  intros ty fb1 Hty _.
  refine (for_range_painted 32 (fun tx j =>
            exists_range 8 (fun row => exists_range 8 (fun col =>
              j / 4 =? (ty * 8 + row) * screenWidth + (tx * 8 + col))))
            _ _ fb1 _).
  intros tx fb2 Htx _. cbv beta zeta.
  refine (for_range_painted 8 (fun row j => exists_range 8 (fun col =>
              j / 4 =? (ty * 8 + row) * screenWidth + (tx * 8 + col)))
            _ _ fb2 _).
  intros row fb3 Hrow _.
  refine (for_range_painted 8 (fun col j =>
              j / 4 =? (ty * 8 + row) * screenWidth + (tx * 8 + col))
            _ _ fb3 _).
  intros col fb4 Hcol _.
  eapply painted_ext; [| |apply drawPixel_painted].
  - reflexivity.
  - intros j Hj E. cbv beta in E. apply Z.eqb_eq in E.
    unfold screenWidth in E.
    destruct (pixel_of_tile ty tx row col (j / 4) Htx Hrow Hcol E)
      as (A & B & C & D & F).
    unfold background_byte, background_color, screenWidth.
    rewrite A, B, C, D, F.
    match goal with
    | |- Z.max 0 (Z.min 255 (component ?k (palette_at ?i))) = _ =>
        pose proof (palette_range i k)
    end.
    lia.
Qed.

(** Every byte of the frame after [renderBackground]. *)
Lemma background_byte_at (p : PPU.t) (fb : list Z) (j : Z) :
  length fb = Z.to_nat (screenWidth * screenHeight * 4) ->
  0 <= j < screenWidth * screenHeight * 4 ->
  JS.index (renderBackground p fb) j = Some (background_byte p j).
Proof.
  intros L Hj. unfold screenWidth, screenHeight in *.
  destruct (renderBackground_painted p fb) as [_ P].
  rewrite P by (rewrite L; lia).
  set (n := j / 4).
  assert (N : 0 <= n < 61440).
  { unfold n. split; [apply Z.div_pos; lia|apply Z.div_lt_upper_bound; lia]. }
  set (x := n mod 256). set (y := n / 256).
  assert (Hx : 0 <= x < 256) by (apply Z.mod_pos_bound; lia).
  assert (Hy : 0 <= y < 240).
  { unfold y. split; [apply Z.div_pos; lia|apply Z.div_lt_upper_bound; lia]. }
  assert (Dn : n = y * 256 + x)
    by (unfold x, y; pose proof (Z.div_mod n 256 ltac:(lia)); lia).
  assert (X8 : 0 <= x mod 8 < 8) by (apply Z.mod_pos_bound; lia).
  assert (Y8 : 0 <= y mod 8 < 8) by (apply Z.mod_pos_bound; lia).
  assert (Xd : x = x / 8 * 8 + x mod 8) by (pose proof (Z.div_mod x 8); lia).
  assert (Yd : y = y / 8 * 8 + y mod 8) by (pose proof (Z.div_mod y 8); lia).
  assert (Xq : 0 <= x / 8 < 32).
  { split; [apply Z.div_pos; lia|apply Z.div_lt_upper_bound; lia]. }
  assert (Yq : 0 <= y / 8 < 30).
  { split; [apply Z.div_pos; lia|apply Z.div_lt_upper_bound; lia]. }
  rewrite (exists_range_true 30 _ (y / 8)); [reflexivity|exact Yq|].
  apply (exists_range_true 32 _ (x / 8)); [exact Xq|].
  apply (exists_range_true 8 _ (y mod 8)); [exact Y8|].
  apply (exists_range_true 8 _ (x mod 8)); [exact X8|].
  apply Z.eqb_eq. fold n. unfold screenWidth. lia.
Qed.

(** X5.  What [renderBackground] draws.  On a frame buffer of 256 x 240
    pixels, every pixel [(x, y)] of the frame ends opaque (alpha 255) in
    the colour of palette entry 0 to 3 that the two bit planes give for
    column [x mod 8]: the bit planes are the bytes [tile * 16] and
    [tile * 16 + 8] of [vram], where [tile] is the name-table byte at
    [0x2000 + (y / 8) * 32 + x / 8].  The row [y mod 8] does not enter:
    the eight rows of a tile are all drawn from its first pattern row. *)
Theorem render_background_pixels (p : PPU.t) (fb : list Z) (x y k : Z) :
  length fb = Z.to_nat (screenWidth * screenHeight * 4) ->
  0 <= x < screenWidth -> 0 <= y < screenHeight -> 0 <= k < 4 ->
  length (renderBackground p fb) = length fb /\
  JS.index (renderBackground p fb) ((y * screenWidth + x) * 4 + k)
  = Some (component k (background_color p x y)) /\
  background_color p x y = background_color p x (y - y mod 8) /\
  component 3 (background_color p x y) = 255.
Proof.
  intros L Hx Hy Hk. unfold screenWidth, screenHeight in *.
  destruct (renderBackground_painted p fb) as [Len _].
  split; [exact Len|]. split; [|split].
  - set (j := (y * 256 + x) * 4 + k).
    assert (Q4 : j / 4 = y * 256 + x).
    { unfold j. rewrite Z.add_comm, Z.div_add by lia.
      rewrite Z.div_small by lia. lia. }
    assert (M4 : j mod 4 = k).
    { unfold j. rewrite Z.add_comm, Z.mod_add by lia.
      apply Z.mod_small. lia. }
    rewrite background_byte_at
      by (try exact L; unfold screenWidth, screenHeight, j; lia).
    unfold background_byte, screenWidth. rewrite Q4, M4.
    rewrite Z.add_comm, Z.mod_add, Z.div_add by lia.
    rewrite (Z.mod_small x), (Z.div_small x) by lia.
    reflexivity.
  - unfold background_color.
    replace ((y - y mod 8) / 8) with (y / 8); [reflexivity|].
    pose proof (Z.div_mod y 8 ltac:(lia)).
    replace (y - y mod 8) with (y / 8 * 8) by lia.
    now rewrite Z.div_mul by lia.
  - unfold component. destruct (background_color p x y) as [[r g] b].
    reflexivity.
Qed.

Lemma render_background_witness :
  JS.index (renderBackground new (frameBuffer new))
           ((0 * screenWidth + 0) * 4 + 0)
  = Some (component 0 (background_color new 0 0)).
Proof.
  apply (render_background_pixels new (frameBuffer new) 0 0 0);
    [apply repeat_length | unfold screenWidth; lia
    | unfold screenHeight; lia | lia].
Defined.

Lemma painted_touched (D : Z -> bool) (V : Z -> Z) (fb fb' : list Z) :
  painted D V fb fb' -> touched D fb fb'.
Proof.
  intros [L P]. split; [exact L|]. intros j Hj E. now rewrite P, E.
Qed.

Lemma touched_refl (fb : list Z) : touched (fun _ => false) fb fb.
Proof. split; reflexivity. Qed.

Lemma touched_ext (D D' : Z -> bool) (fb fb' : list Z) :
  (forall j, 0 <= j < Z.of_nat (length fb) -> D' j = false -> D j = false) ->
  touched D fb fb' -> touched D' fb fb'.
Proof.
  intros HD [L P]. split; [exact L|]. intros j Hj E. apply P; auto.
Qed.

Lemma for_range_touched (n : Z) (D : Z -> Z -> bool)
    (body : Z -> list Z -> list Z) (fb : list Z) :
  (forall i fb0, 0 <= i < n -> length fb0 = length fb ->
                 touched (D i) fb0 (body i fb0)) ->
  touched (fun j => exists_range n (fun i => D i j)) fb
          (JS.for_range n body fb).
Proof.
  intros Hb.
  apply (for_range_inv
           (fun s => touched (fun j => exists_range n (fun i => D i j)) fb s)).
  - intros i s Hi [L P].
    destruct (Hb i s Hi L) as [L' P'].
    split; [congruence|]. intros j Hj E.
    assert (F : D i j = false).
    { destruct (D i j) eqn:F; [|reflexivity].
      rewrite (exists_range_true n _ i Hi F) in E. discriminate. }
    rewrite P'; [apply P; assumption | rewrite L; exact Hj | exact F].
  - eapply touched_ext; [|apply touched_refl]. reflexivity.
Qed.

(** What one sprite draws. *)
Lemma sprite_touched (p : PPU.t) (i : Z) (fb : list Z) :
  touched (sprite_covers p i) fb
    (JS.for_range 8 (fun row =>
       JS.for_range 8 (fun col fb =>
         if colorIndex
              (byte_at (vram p) (byte_at (oam p) (i * 4 + 1) * 16))
              (byte_at (vram p) (byte_at (oam p) (i * 4 + 1) * 16 + 8)) col
            =? 0
         then fb
         else drawPixel (byte_at (oam p) (i * 4 + 3) + col)
                (byte_at (oam p) (i * 4) + row)
                (palette_at
                   (colorIndex
                      (byte_at (vram p) (byte_at (oam p) (i * 4 + 1) * 16))
                      (byte_at (vram p)
                         (byte_at (oam p) (i * 4 + 1) * 16 + 8)) col))
                fb)) fb).
Proof.
  unfold sprite_covers, sprite_color, sprite_pixel. cbv zeta.
  set (lo := byte_at (vram p) (byte_at (oam p) (i * 4 + 1) * 16)).
  set (hi := byte_at (vram p) (byte_at (oam p) (i * 4 + 1) * 16 + 8)).
  set (xPos := byte_at (oam p) (i * 4 + 3)).
  set (yPos := byte_at (oam p) (i * 4)).
  refine (for_range_touched 8 (fun row j => exists_range 8 (fun col =>
            negb (colorIndex lo hi col =? 0)
            && (j / 4 =? (yPos + row) * screenWidth + (xPos + col)))) _ fb _).
  intros row fb1 Hrow _.
  refine (for_range_touched 8 (fun col j =>
            negb (colorIndex lo hi col =? 0)
            && (j / 4 =? (yPos + row) * screenWidth + (xPos + col))) _ fb1 _).
  intros col fb2 Hcol _.
  destruct (colorIndex lo hi col =? 0).
  - apply touched_refl.
  - cbn [negb andb]. eapply painted_touched. apply drawPixel_painted.
Qed.

Lemma renderSprites_touched (p : PPU.t) (fb : list Z) :
  touched (fun j => exists_range 64 (fun i => sprite_covers p i j)) fb
          (renderSprites p fb).
Proof.
  unfold renderSprites.
  refine (for_range_touched 64 (fun i j => sprite_covers p i j) _ fb _).
  intros i fb1 Hi _. cbv beta zeta. apply sprite_touched.
Qed.

Lemma lists_equal (l l' : list Z) :
  length l' = length l ->
  (forall j, 0 <= j < Z.of_nat (length l) -> JS.index l' j = JS.index l j) ->
  l' = l.
Proof.
  intros L H. apply list_eq. intros n.
  destruct (Nat.lt_ge_cases n (length l)) as [Hn|Hn].
  - specialize (H (Z.of_nat n) ltac:(lia)). unfold JS.index in H.
    destruct (Z.ltb_spec (Z.of_nat n) 0); [lia|].
    now rewrite Nat2Z.id in H.
  - rewrite !lookup_ge_None_2 by lia. reflexivity.
Qed.

(** X6.  [renderSprites] changes only the pixels a sprite covers with a
    colour index other than 0, the transparent one: the bytes of every
    other pixel are as they were, and the buffer keeps its length.  The
    pixel a sprite draws for [row] and [col] is counted along the rows,
    [(yPos + row) * 256 + xPos + col], so the part of a sprite beyond the
    right edge lands at the left of the next row.  When no sprite has an
    opaque pixel the buffer is unchanged. *)
Theorem render_sprites_frame (p : PPU.t) (fb : list Z) :
  length (renderSprites p fb) = length fb /\
  (forall j, 0 <= j < Z.of_nat (length fb) ->
     (forall i row col, 0 <= i < 64 -> 0 <= row < 8 -> 0 <= col < 8 ->
        sprite_color p i col <> 0 -> j / 4 <> sprite_pixel p i row col) ->
     JS.index (renderSprites p fb) j = JS.index fb j) /\
  ((forall i col, 0 <= i < 64 -> 0 <= col < 8 -> sprite_color p i col = 0) ->
   renderSprites p fb = fb).
Proof.
  destruct (renderSprites_touched p fb) as [L P].
  assert (U : forall j, 0 <= j < Z.of_nat (length fb) ->
     (forall i row col, 0 <= i < 64 -> 0 <= row < 8 -> 0 <= col < 8 ->
        sprite_color p i col <> 0 -> j / 4 <> sprite_pixel p i row col) ->
     JS.index (renderSprites p fb) j = JS.index fb j).
  { intros j Hj N. apply P; [exact Hj|].
    apply exists_range_false. intros i Hi. unfold sprite_covers.
    apply exists_range_false. intros row Hrow.
    apply exists_range_false. intros col Hcol.
    destruct (Z.eqb_spec (sprite_color p i col) 0) as [E|E]; [reflexivity|].
    cbn [negb andb]. apply Z.eqb_neq. apply N; assumption. }
  split; [exact L|]. split; [exact U|].
  intros T. apply lists_equal; [exact L|]. intros j Hj.
  apply U; [exact Hj|]. intros i row col Hi _ Hcol C.
  now rewrite T in C.
Qed.

Lemma for_range_after {S : Type} (P Q : S -> Prop) (n i : Z)
    (body : Z -> S -> S) (s : S) :
  0 <= i < n -> Q s ->
  (forall m s, 0 <= m < n -> Q s -> Q (body m s)) ->
  (forall s, Q s -> P (body i s)) ->
  (forall m s, i < m < n -> Q s -> P s -> P (body m s)) ->
  P (JS.for_range n body s).
Proof.
  intros Hi Hs HQ Hset Hkeep.
  rewrite <- (Z2Nat.id n) in * by lia.
  induction (Z.to_nat n) as [|m IH]; [lia|].
  rewrite for_range_S.
  assert (Qm : Q (JS.for_range (Z.of_nat m) body s)).
  { apply for_range_inv; [|exact Hs]. intros k s' Hk. apply HQ. lia. }
  destruct (Z.eq_dec i (Z.of_nat m)) as [E|N].
  - rewrite <- E. apply Hset. rewrite E. exact Qm.
  - apply Hkeep; [lia|exact Qm|].
    apply IH; [lia| |].
    + intros k s' Hk. apply HQ. lia.
    + intros k s' Hk. apply Hkeep. lia.
Qed.

Lemma shows_touched (D : Z -> bool) (n : Z) (c : Z * Z * Z) (fb fb' : list Z) :
  0 <= n -> n * 4 + 3 < Z.of_nat (length fb) ->
  (forall j, j / 4 = n -> D j = false) ->
  touched D fb fb' -> shows n c fb -> shows n c fb'.
Proof.
  intros Hn Hl HD [L P] Sh k Hk.
  rewrite P; [apply Sh, Hk|lia|].
  apply HD. rewrite Z.add_comm, Z.div_add by lia.
  rewrite Z.div_small by lia. lia.
Qed.

Lemma drawPixel_shows (x y i : Z) (fb : list Z) :
  0 <= y * screenWidth + x ->
  (y * screenWidth + x) * 4 + 3 < Z.of_nat (length fb) ->
  shows (y * screenWidth + x) (palette_at i) (drawPixel x y (palette_at i) fb).
Proof.
  intros Hn Hl k Hk.
  destruct (drawPixel_painted x y (palette_at i) fb) as [_ P].
  rewrite P by lia.
  assert (Q4 : ((y * screenWidth + x) * 4 + k) / 4 = y * screenWidth + x).
  { rewrite Z.add_comm, Z.div_add by lia. rewrite Z.div_small by lia. lia. }
  assert (M4 : ((y * screenWidth + x) * 4 + k) mod 4 = k).
  { rewrite Z.add_comm, Z.mod_add by lia. apply Z.mod_small. lia. }
  rewrite Q4, Z.eqb_refl, M4.
  pose proof (palette_range i k). f_equal. lia.
Qed.

(** X7.  The sprites are drawn in the order of OAM, each over the ones
    before it.  An opaque pixel of sprite [i] that falls inside the frame
    buffer shows in the frame, in its palette colour and with alpha 255,
    whenever no sprite after [i] in OAM covers the same pixel with an
    opaque colour: sprite 63 is on top, sprite 0 at the bottom. *)
Theorem sprite_priority (p : PPU.t) (fb : list Z) (i row col : Z) :
  0 <= i < 64 -> 0 <= row < 8 -> 0 <= col < 8 ->
  sprite_color p i col <> 0 ->
  0 <= sprite_pixel p i row col ->
  sprite_pixel p i row col * 4 + 3 < Z.of_nat (length fb) ->
  (forall m, i < m < 64 ->
     sprite_covers p m (sprite_pixel p i row col * 4) = false) ->
  shows (sprite_pixel p i row col) (palette_at (sprite_color p i col))
        (renderSprites p fb).
Proof.
  intros Hi Hrow Hcol Hc Hn Hl Hlater.
  set (n := sprite_pixel p i row col) in *.
  unfold sprite_color in Hc |- *. cbv zeta in Hc |- *.
  set (lo := byte_at (vram p) (byte_at (oam p) (i * 4 + 1) * 16)) in *.
  set (hi := byte_at (vram p) (byte_at (oam p) (i * 4 + 1) * 16 + 8)) in *.
  set (c := palette_at (colorIndex lo hi col)).
  unfold renderSprites.
  apply (for_range_after (shows n c) (fun s => length s = length fb) 64 i);
    [exact Hi | reflexivity | | |].
  - intros m s Hm Ls. cbv beta zeta.
    destruct (sprite_touched p m s) as [L _]. congruence.
  - intros s Ls. cbv beta zeta.
    apply (for_range_after (shows n c) (fun s => length s = length fb) 8 row);
      [exact Hrow | exact Ls | | |].
    + intros r s' Hr Ls'.
      apply (for_range_inv (fun s => length s = length fb)); [|exact Ls'].
      intros k s'' Hk Ls''. destruct (_ =? 0); [exact Ls''|].
      now rewrite drawPixel_length.
    + intros s' Ls'.
      apply (for_range_after (shows n c) (fun s => length s = length fb) 8 col);
        [exact Hcol | exact Ls' | | |].
      * intros k s'' Hk Ls''. destruct (_ =? 0); [exact Ls''|].
        now rewrite drawPixel_length.
      * intros s'' Ls''. fold lo hi.
        destruct (Z.eqb_spec (colorIndex lo hi col) 0) as [E|_]; [tauto|].
        fold c.
        replace n with ((byte_at (oam p) (i * 4) + row) * screenWidth
                        + (byte_at (oam p) (i * 4 + 3) + col)) by reflexivity.
        apply drawPixel_shows;
          change ((byte_at (oam p) (i * 4) + row) * screenWidth
                  + (byte_at (oam p) (i * 4 + 3) + col)) with n;
          rewrite ?Ls''; lia.
      * intros k s'' Hk Ls'' Sh. destruct (_ =? 0); [exact Sh|].
        eapply shows_touched;
          [exact Hn | rewrite Ls''; exact Hl | |
           eapply painted_touched; apply drawPixel_painted | exact Sh].
        intros j Hj. cbv beta. apply Z.eqb_neq. rewrite Hj.
        unfold n, sprite_pixel, screenWidth. lia.
    + intros r s' Hr Ls' Sh.
      assert (T : touched (fun j => exists_range 8 (fun k =>
                    j / 4 =? (byte_at (oam p) (i * 4) + r) * screenWidth
                             + (byte_at (oam p) (i * 4 + 3) + k))) s'
                    (JS.for_range 8 (fun col0 fb0 =>
                       if colorIndex
                            (byte_at (vram p) (byte_at (oam p) (i * 4 + 1) * 16))
                            (byte_at (vram p)
                               (byte_at (oam p) (i * 4 + 1) * 16 + 8)) col0 =? 0
                       then fb0
                       else drawPixel (byte_at (oam p) (i * 4 + 3) + col0)
                              (byte_at (oam p) (i * 4) + r)
                              (palette_at
                                 (colorIndex
                                    (byte_at (vram p)
                                       (byte_at (oam p) (i * 4 + 1) * 16))
                                    (byte_at (vram p)
                                       (byte_at (oam p) (i * 4 + 1) * 16 + 8))
                                    col0)) fb0) s')).
      { refine (for_range_touched 8 (fun k j =>
                  j / 4 =? (byte_at (oam p) (i * 4) + r) * screenWidth
                           + (byte_at (oam p) (i * 4 + 3) + k)) _ s' _).
        intros k s'' Hk _. destruct (_ =? 0).
        - eapply touched_ext; [|apply touched_refl]. reflexivity.
        - eapply painted_touched. apply drawPixel_painted. }
      eapply shows_touched;
        [exact Hn | rewrite Ls'; exact Hl | | exact T | exact Sh].
      intros j Hj. cbv beta. apply exists_range_false. intros k Hk.
      apply Z.eqb_neq. rewrite Hj.
      unfold n, sprite_pixel, screenWidth. lia.
  - intros m s Hm Ls Sh. cbv beta zeta.
    eapply shows_touched;
      [exact Hn | rewrite Ls; exact Hl | | apply sprite_touched | exact Sh].
    intros j Hj.
    assert (E : sprite_covers p m j = sprite_covers p m (n * 4)).
    { unfold sprite_covers. rewrite Hj, Z.div_mul by lia. reflexivity. }
    rewrite E. apply Hlater. exact Hm.
Qed.

Lemma sprite_priority_witness :
  let p := writeRegister 0x2007 0x80 new in
  sprite_color p 63 0 = 1 /\
  shows (sprite_pixel p 63 0 0) (palette_at (sprite_color p 63 0))
        (renderSprites p (frameBuffer new)).
Proof.
  intros p.
  assert (C : sprite_color p 63 0 = 1) by (vm_compute; reflexivity).
  assert (N : sprite_pixel p 63 0 0 = 0) by (vm_compute; reflexivity).
  split; [exact C|].
  apply (sprite_priority p (frameBuffer new) 63 0 0); try lia.
  rewrite N.
  change (frameBuffer new)
    with (repeat 0 (Z.to_nat (screenWidth * screenHeight * 4))).
  rewrite repeat_length, Z2Nat.id by (vm_compute; discriminate).
  vm_compute. reflexivity.
Defined.

Lemma bytes_repeat (n : Z) : 0 <= n -> bytes n (repeat 0 (Z.to_nat n)).
Proof.
  intros Hn. split; [rewrite repeat_length; lia|].
  apply List.Forall_forall. intros b Hb. apply repeat_spec in Hb. lia.
Qed.

Lemma bytes_store8 (n : Z) (l : list Z) (i v : Z) :
  bytes n l -> bytes n (JS.store8 l i v).
Proof.
  intros [L F]. unfold JS.store8. destruct (i <? 0); [split; assumption|].
  split; [now rewrite length_insert|].
  apply Forall_insert; [exact F|]. apply Z.mod_pos_bound. lia.
Qed.

Lemma bytes_store8c (n : Z) (l : list Z) (i v : Z) :
  bytes n l -> bytes n (JS.store8c l i v).
Proof.
  intros [L F]. unfold JS.store8c. destruct (i <? 0); [split; assumption|].
  split; [now rewrite length_insert|].
  apply Forall_insert; [exact F|]. lia.
Qed.

Lemma bytes_drawPixel (n x y : Z) (c : Z * Z * Z) (fb : list Z) :
  bytes n fb -> bytes n (drawPixel x y c fb).
Proof.
  intros B. unfold drawPixel. destruct c as [[r g] b]. cbv zeta.
  now do 4 apply bytes_store8c.
Qed.

Lemma bytes_renderBackground (n : Z) (p : PPU.t) (fb : list Z) :
  bytes n fb -> bytes n (renderBackground p fb).
Proof.
  intros B. unfold renderBackground. cbv zeta.
  do 4 (apply for_range_inv; [|assumption]; intros ? ? _ ?).
  now apply bytes_drawPixel.
Qed.

Lemma bytes_renderSprites (n : Z) (p : PPU.t) (fb : list Z) :
  bytes n fb -> bytes n (renderSprites p fb).
Proof.
  intros B. unfold renderSprites.
  do 3 (apply for_range_inv; [|assumption]; intros ? ? _ ?).
  cbv zeta. destruct (_ =? 0); [assumption|].
  now apply bytes_drawPixel.
Qed.

Lemma arrays_ok_step (p : PPU.t) : arrays_ok p -> arrays_ok (step p).
Proof.
  intros (V & O & F). unfold step. cbv zeta.
  destruct (340 <? cycle p + 1); [|exact (conj V (conj O F))].
  cbn [scanline with_timing].
  assert (R : arrays_ok
                (renderFrame (with_status (JS.or (status p) 128)
                   (with_timing 0 (scanline p + 1) p)))).
  { unfold arrays_ok, renderFrame.
    cbn [vram oam frameBuffer with_frame with_status with_timing].
    split; [exact V|]. split; [exact O|].
    apply bytes_renderSprites, bytes_renderBackground, F. }
  destruct (scanline p + 1 =? 241).
  - destruct (262 <=? _); exact R.
  - destruct (262 <=? _); exact (conj V (conj O F)).
Qed.

Lemma arrays_ok_read (a : Z) (p : PPU.t) :
  arrays_ok p -> arrays_ok (snd (readRegister a p)).
Proof.
  intros H. unfold readRegister.
  destruct (a =? 0x2002); [exact H|]. destruct (a =? 0x2007); exact H.
Qed.

Lemma arrays_ok_write (a v : Z) (p : PPU.t) :
  arrays_ok p -> arrays_ok (writeRegister a v p).
Proof.
  intros (V & O & F). unfold writeRegister.
  repeat match goal with
         | |- context [if ?b then _ else _] => destruct b
         | |- context [match scrollX p with _ => _ end] => destruct (scrollX p)
         end;
    unfold arrays_ok;
    cbn [vram oam frameBuffer with_oam with_scroll with_addr with_vram];
    (split; [|split]); try assumption; apply bytes_store8; assumption.
Qed.

(** X8.  The typed arrays keep their shape.  In every state a run of
    [step] calls, register reads and register writes reaches from the
    constructor's state, [vram] has 0x4000 entries, [oam] 256 and the frame
    buffer 256 x 240 x 4, and every entry is a byte: no store grows an
    array or leaves a value outside [0, 255] in it, so a read at an index
    inside an array never gives [undefined]. *)
Theorem ppu_arrays_keep_shape (ops : list PPURun.op) :
  let p := PPURun.run ops new in
  arrays_ok p /\
  (forall i, 0 <= i < 0x4000 ->
     exists b, JS.index (vram p) i = Some b /\ 0 <= b < 256) /\
  (forall i, 0 <= i < 256 ->
     exists b, JS.index (oam p) i = Some b /\ 0 <= b < 256).
Proof.
  intros p.
  assert (A : arrays_ok p).
  { unfold p, PPURun.run.
    assert (A0 : arrays_ok new).
    { split; [|split]; apply bytes_repeat; vm_compute; discriminate. }
    revert A0. generalize new.
    induction ops as [|o ops IH]; intros q A0; [exact A0|].
    cbn [fold_left]. apply IH.
    destruct o; cbn [PPURun.run_op].
    - now apply arrays_ok_step.
    - now apply arrays_ok_read.
    - now apply arrays_ok_write. }
  split; [exact A|].
  assert (G : forall n l i, bytes n l -> 0 <= i < n ->
                exists b, JS.index l i = Some b /\ 0 <= b < 256).
  { intros n l i [L F] Hi. unfold JS.index.
    destruct (Z.ltb_spec i 0); [lia|].
    destruct (l !! Z.to_nat i) as [b|] eqn:E.
    - exists b. split; [reflexivity|].
      rewrite Forall_lookup in F. apply (F _ _ E).
    - apply lookup_ge_None_1 in E. lia. }
  destruct A as (V & O & _).
  split; intros i Hi; [apply (G _ _ _ V Hi)|apply (G _ _ _ O Hi)].
Qed.

Lemma opaque_drawPixel (x y : Z) (c : Z * Z * Z) (fb : list Z) :
  length fb = Z.to_nat (screenWidth * screenHeight * 4) ->
  opaque fb -> opaque (drawPixel x y c fb).
Proof.
  intros L O n Hn. unfold screenWidth, screenHeight in *.
  destruct (drawPixel_painted x y c fb) as [_ P].
  rewrite P by lia.
  assert (Q4 : (n * 4 + 3) / 4 = n).
  { rewrite Z.add_comm, Z.div_add by lia. reflexivity. }
  assert (M4 : (n * 4 + 3) mod 4 = 3).
  { rewrite Z.add_comm, Z.mod_add by lia. reflexivity. }
  rewrite Q4, M4.
  destruct (n =? y * screenWidth + x); [|apply O; unfold screenWidth, screenHeight; lia].
  destruct c as [[r g] b]. reflexivity.
Qed.

Lemma opaque_renderSprites (p : PPU.t) (fb : list Z) :
  length fb = Z.to_nat (screenWidth * screenHeight * 4) ->
  opaque fb -> opaque (renderSprites p fb).
Proof.
  intros L O. unfold renderSprites.
  apply (for_range_inv (fun s =>
           length s = Z.to_nat (screenWidth * screenHeight * 4) /\ opaque s));
    [|split; assumption].
  intros i s _ Hs. cbv beta zeta.
  apply (for_range_inv (fun s =>
           length s = Z.to_nat (screenWidth * screenHeight * 4) /\ opaque s));
    [|exact Hs].
  intros row s1 _ Hs1.
  apply (for_range_inv (fun s =>
           length s = Z.to_nat (screenWidth * screenHeight * 4) /\ opaque s));
    [|exact Hs1].
  intros col s2 _ [L2 O2]. destruct (_ =? 0); [split; assumption|].
  split; [now rewrite drawPixel_length|now apply opaque_drawPixel].
Qed.

Lemma opaque_renderBackground (p : PPU.t) (fb : list Z) :
  length fb = Z.to_nat (screenWidth * screenHeight * 4) ->
  opaque (renderBackground p fb).
Proof.
  intros L n Hn.
  rewrite background_byte_at
    by (try exact L; unfold screenWidth, screenHeight in *; lia).
  unfold background_byte.
  replace ((n * 4 + 3) mod 4) with 3
    by (rewrite Z.add_comm, Z.mod_add by lia; reflexivity).
  unfold component. destruct (background_color _ _ _) as [[r g] b].
  reflexivity.
Qed.

(** The two render loops read [vram] and [oam] only. *)
Lemma render_ext (p q : PPU.t) (fb : list Z) :
  vram p = vram q -> oam p = oam q ->
  renderSprites p (renderBackground p fb)
  = renderSprites q (renderBackground q fb).
Proof.
  unfold renderSprites, renderBackground. intros -> ->. reflexivity.
Qed.

Lemma frameBuffer_step (p : PPU.t) :
  frameBuffer (step p) =
  (if starts_vblank p
   then renderSprites p (renderBackground p (frameBuffer p))
   else frameBuffer p) /\
  vram (step p) = vram p /\ oam (step p) = oam p.
Proof.
  unfold step, starts_vblank. cbv zeta.
  destruct (340 <? cycle p + 1); [|auto].
  cbn [scanline with_timing andb].
  destruct (scanline p + 1 =? 241).
  - destruct (262 <=? _);
      cbn [frameBuffer vram oam with_status with_timing renderFrame with_frame];
      (split; [apply render_ext; reflexivity|auto]).
  - destruct (262 <=? _); auto.
Qed.

Lemma frameBuffer_read (a : Z) (p : PPU.t) :
  frameBuffer (snd (readRegister a p)) = frameBuffer p /\
  presented (snd (readRegister a p)) = presented p.
Proof.
  unfold readRegister.
  destruct (a =? 0x2002); [auto|]. destruct (a =? 0x2007); auto.
Qed.

Lemma frameBuffer_write (a v : Z) (p : PPU.t) :
  frameBuffer (writeRegister a v p) = frameBuffer p /\
  presented (writeRegister a v p) = presented p.
Proof.
  unfold writeRegister.
  repeat match goal with
         | |- context [if ?b then _ else _] => destruct b
         | |- context [match scrollX p with _ => _ end] => destruct (scrollX p)
         end; auto.
Qed.

Lemma opaque_run (ops : list PPURun.op) (q : PPU.t) :
  length (frameBuffer q) = Z.to_nat (screenWidth * screenHeight * 4) /\
  ((0 < presented q)%nat -> opaque (frameBuffer q)) ->
  length (frameBuffer (PPURun.run ops q))
  = Z.to_nat (screenWidth * screenHeight * 4) /\
  ((0 < presented (PPURun.run ops q))%nat ->
   opaque (frameBuffer (PPURun.run ops q))).
Proof.
  unfold PPURun.run. revert q.
  induction ops as [|o ops IH]; intros q I; [exact I|].
  cbn [fold_left]. apply IH. destruct I as [L I].
  destruct o as [|a|a v]; cbn [PPURun.run_op].
  - destruct (frameBuffer_step q) as (F & _).
    rewrite F, presented_step. fold (starts_vblank q).
    destruct (starts_vblank q).
    + assert (Lb : length (renderBackground q (frameBuffer q))
                   = Z.to_nat (screenWidth * screenHeight * 4)).
      { destruct (renderBackground_painted q (frameBuffer q)) as [Lb _].
        congruence. }
      split.
      * destruct (renderSprites_touched q
                    (renderBackground q (frameBuffer q))) as [Ls _].
        congruence.
      * intros _. apply opaque_renderSprites; [exact Lb|].
        apply opaque_renderBackground, L.
    + split; assumption.
  - destruct (frameBuffer_read a q) as [-> ->]. split; assumption.
  - destruct (frameBuffer_write a v q) as [-> ->]. split; assumption.
Qed.

(** X24.  When the frame is drawn.  The frame buffer changes in one
    place only: the [step] that takes the scanline counter to 241 draws
    the background and then the sprites from [vram] and [oam] as they are
    at that moment, and presents the result.  No other [step], no register
    read and no register write touches the frame buffer, and [step] never
    changes [vram] or [oam].  In every state reached from the constructor's
    state, once a frame has been presented every pixel of the frame buffer
    is opaque. *)
Theorem frame_drawn_at_vblank (ops : list PPURun.op) (o : PPURun.op) :
  let p := PPURun.run ops new in
  (frameBuffer (step p)
   = if starts_vblank p
     then renderSprites p (renderBackground p (frameBuffer p))
     else frameBuffer p) /\
  presented (step p)
  = (if starts_vblank p then S (presented p) else presented p) /\
  vram (step p) = vram p /\ oam (step p) = oam p /\
  (starts_vblank p = true <-> cycle p = 340 /\ scanline p = 240) /\
  (PPURun.is_step o = false ->
   frameBuffer (PPURun.run_op o p) = frameBuffer p) /\
  ((0 < presented p)%nat -> opaque (frameBuffer p)).
Proof.
  intros p.
  destruct (frameBuffer_step p) as (F & V & O).
  pose proof (timing_ok_run ops new timing_ok_new) as (Tc & Ts & _).
  fold p in Tc, Ts.
  split; [exact F|]. split; [apply presented_step|].
  split; [exact V|]. split; [exact O|]. split; [|split].
  - unfold starts_vblank. rewrite andb_true_iff, Z.ltb_lt, Z.eqb_eq. lia.
  - destruct o as [|a|a v]; cbn [PPURun.is_step PPURun.run_op]; intros E;
      [discriminate|apply frameBuffer_read|apply frameBuffer_write].
  - apply opaque_run. split; [apply repeat_length|].
    cbn [presented new]. lia.
Qed.

End FrameBuffer.

(** ** APU: what every operation keeps in the channels *)

Section ChannelInvariant.

Import APU Channels.

Variables (P1 P2 : Pulse.t -> Prop) (T : Triangle.t -> Prop)
  (N : Noise.t -> Prop) (D : DMC.t -> Prop).

Hypothesis P1_clock : forall p, P1 p -> P1 (Pulse.clock p).
Hypothesis P1_quarter : forall p, P1 p -> P1 (Pulse.quarter p).
Hypothesis P1_half : forall p, P1 p -> P1 (Pulse.half p).
Hypothesis P2_clock : forall p, P2 p -> P2 (Pulse.clock p).
Hypothesis P2_quarter : forall p, P2 p -> P2 (Pulse.quarter p).
Hypothesis P2_half : forall p, P2 p -> P2 (Pulse.half p).
Hypothesis T_clock : forall c, T c -> T (Triangle.clock c).
Hypothesis T_quarter : forall c, T c -> T (Triangle.quarter c).
Hypothesis T_half : forall c, T c -> T (Triangle.half c).
Hypothesis N_clock : forall c, N c -> N (Noise.clock c).
Hypothesis N_quarter : forall c, N c -> N (Noise.quarter c).
Hypothesis N_half : forall c, N c -> N (Noise.half c).
Hypothesis D_clock : forall d, D d -> D (DMC.clock d).

Let inv := hold P1 P2 T N D.

Lemma hold_clock_channels (a : APU.t) : inv a -> inv (clock_channels a).
Proof.
  intros (H1 & H2 & Ht & Hn & Hd). unfold inv, hold, clock_channels.
  cbn [pulse1 pulse2 triangle noise dmc with_channels]. auto 10.
Qed.

Lemma hold_clockQuarter (a : APU.t) : inv a -> inv (_clockQuarter a).
Proof.
  intros (H1 & H2 & Ht & Hn & Hd). unfold inv, hold, _clockQuarter.
  cbn [pulse1 pulse2 triangle noise dmc with_channels with_logs]. auto 10.
Qed.

Lemma hold_clockQuarterHalf (a : APU.t) : inv a -> inv (_clockQuarterHalf a).
Proof.
  intros H. apply hold_clockQuarter in H. destruct H as (H1 & H2 & Ht & Hn & Hd).
  unfold inv, hold, _clockQuarterHalf.
  cbn [pulse1 pulse2 triangle noise dmc with_channels with_logs]. auto 10.
Qed.

Lemma hold_frame (irq m5 inh : bool) (st : Q) (ph : option Z) (a : APU.t) :
  inv a -> inv (with_frame irq m5 inh st ph a).
Proof. exact id. Qed.

Lemma hold_updateIRQLine (a : APU.t) : inv a -> inv (_updateIRQLine a).
Proof. exact id. Qed.

Lemma hold_audio (m : JS.number) (st : Q) (buf : list JS.number) (w r : Z)
    (out : list JS.number) (a : APU.t) :
  inv a -> inv (with_audio m st buf w r out a).
Proof. exact id. Qed.

Lemma hold_sequence (a : APU.t) : inv a -> inv (sequence a).
Proof.
  intros H. unfold sequence. cbv zeta.
  match goal with
  | |- inv (boundary4 _ _ (boundary3 _ _ (boundary2 _ _
              (boundary1 _ _ (init_phase ?x))))) =>
      assert (H0 : inv (init_phase x))
        by (unfold init_phase; destruct (JS.truthy _);
            [|apply hold_frame]; apply hold_frame, H);
      generalize dependent (init_phase x)
  end.
  intros b H0.
  assert (B1 : forall q n c, inv c -> inv (boundary1 q n c)).
  { intros q n c Hc. unfold boundary1. destruct (_ && _); [|exact Hc].
    apply hold_frame, hold_clockQuarter, Hc. }
  assert (B2 : forall q n c, inv c -> inv (boundary2 q n c)).
  { intros q n c Hc. unfold boundary2. destruct (_ && _); [|exact Hc].
    apply hold_frame, hold_clockQuarterHalf, Hc. }
  assert (B3 : forall q n c, inv c -> inv (boundary3 q n c)).
  { intros q n c Hc. unfold boundary3. destruct (_ && _); [|exact Hc].
    apply hold_frame, hold_clockQuarter, Hc. }
  unfold boundary4. destruct (_ && _); [|auto].
  unfold end_of_sequence. cbv zeta.
  apply hold_frame, hold_updateIRQLine.
  destruct (_ && _); [apply hold_frame|]; apply hold_clockQuarterHalf; auto.
Qed.

Lemma hold_resample (a : APU.t) : inv a -> inv (resample a).
Proof.
  intros H. unfold resample. cbv zeta. destruct (Qle_bool _ _); [|exact H].
  apply hold_audio. cbn [audioEnabled with_audio].
  destruct (audioEnabled a); [|exact H].
  unfold _pushSample. destruct (negb _); exact H.
Qed.

Lemma hold_cycle (a : APU.t) : inv a -> inv (cycle a).
Proof.
  intros H. unfold cycle.
  apply hold_resample, hold_sequence, hold_clock_channels, H.
Qed.

Lemma hold_step (cycles : Z) (a : APU.t) : inv a -> inv (step cycles a).
Proof.
  intros H. unfold step. induction (Z.to_nat cycles) as [|n IH]; [exact H|].
  cbn [Nat.iter]. apply hold_cycle, IH.
Qed.

Hypothesis D_clear : forall d, D d -> D (DMC.with_irq false d).

Lemma hold_read (addr : Z) (a : APU.t) : inv a -> inv (snd (read addr a)).
Proof.
  intros H. unfold read. destruct (negb _); [exact H|].
  destruct H as (H1 & H2 & Ht & Hn & Hd).
  unfold inv, hold.
  cbn [snd pulse1 pulse2 triangle noise dmc with_dmc with_channels with_frame
       _updateIRQLine with_logs].
  auto 10.
Qed.

Lemma hold_setVolume (v : JS.number) (a : APU.t) :
  inv a -> inv (setVolume v a).
Proof. exact id. Qed.

Hypothesis P1_write0 : forall n p, P1 p -> P1 (Pulse.write0 n p).
Hypothesis P1_write1 : forall n p, P1 p -> P1 (Pulse.write1 n p).
Hypothesis P1_write2 : forall n p, P1 p -> P1 (Pulse.write2 (JS.and n 0xFF) p).
Hypothesis P1_write3 : forall n p, P1 p -> P1 (Pulse.write3 n p).
Hypothesis P2_write0 : forall n p, P2 p -> P2 (Pulse.write0 n p).
Hypothesis P2_write1 : forall n p, P2 p -> P2 (Pulse.write1 n p).
Hypothesis P2_write2 : forall n p, P2 p -> P2 (Pulse.write2 (JS.and n 0xFF) p).
Hypothesis P2_write3 : forall n p, P2 p -> P2 (Pulse.write3 n p).
Hypothesis T_write0 : forall n c, T c -> T (Triangle.write0 n c).
Hypothesis T_write2 : forall n c, T c -> T (Triangle.write2 (JS.and n 0xFF) c).
Hypothesis T_write3 : forall n c, T c -> T (Triangle.write3 n c).
Hypothesis N_write0 : forall n c, N c -> N (Noise.write0 n c).
Hypothesis N_write2 : forall n c, N c -> N (Noise.write2 n c).
Hypothesis N_write3 : forall n c, N c -> N (Noise.write3 n c).
Hypothesis D_write0 : forall n d, D d -> D (DMC.write0 n d).
Hypothesis D_write1 : forall n d, D d -> D (DMC.write1 n d).
Hypothesis D_write2 : forall n d, D d -> D (DMC.write2 n d).
Hypothesis D_write3 : forall n d, D d -> D (DMC.write3 n d).

(** The writes to the registers other than $4015. *)
Lemma hold_write_other (addr v : Z) (a : APU.t) :
  addr <> 0x4015 -> inv a -> inv (write addr v a).
Proof.
  intros Na H. pose proof H as (H1 & H2 & Ht & Hn & Hd). unfold write.
  cbv zeta.
  repeat match goal with
         | |- context [if addr =? ?k then _ else _] =>
             destruct (Z.eqb_spec addr k)
         end; try exact H; try contradiction;
    try (unfold inv, hold;
         cbn [pulse1 pulse2 triangle noise dmc with_channels with_pulse1
              with_pulse2 with_triangle with_noise with_dmc];
         auto 10; fail).
  apply hold_updateIRQLine. cbn [with_frame mode5].
  destruct (JS.truthy (JS.and (JS.and v 255) 128)).
  - apply hold_clockQuarterHalf, hold_frame, H.
  - apply hold_frame, H.
Qed.

Hypothesis P1_setEnabled : forall n p, P1 p -> P1 (Pulse.setEnabled n p).
Hypothesis P2_setEnabled : forall n p, P2 p -> P2 (Pulse.setEnabled n p).
Hypothesis T_setEnabled : forall n c, T c -> T (Triangle.setEnabled n c).
Hypothesis N_setEnabled : forall n c, N c -> N (Noise.setEnabled n c).
Hypothesis D_setEnabled : forall on d, D d -> D (DMC.setEnabled on d).

Lemma hold_write (addr v : Z) (a : APU.t) : inv a -> inv (write addr v a).
Proof.
  intros H. destruct (Z.eq_dec addr 0x4015) as [->|Na];
    [|now apply hold_write_other].
  destruct H as (H1 & H2 & Ht & Hn & Hd). unfold write.
  cbn [Z.eqb Pos.eqb]. cbv zeta. apply hold_updateIRQLine.
  unfold inv, hold. cbn [pulse1 pulse2 triangle noise dmc with_channels].
  repeat split; auto.
  destruct (negb _); auto.
Qed.

Lemma hold_run (ops : list APURun.op) (a : APU.t) :
  inv a -> inv (APURun.run ops a).
Proof.
  unfold APURun.run. revert a.
  induction ops as [|o ops IH]; intros a H; [exact H|].
  cbn [fold_left]. apply IH.
  destruct o; cbn [APURun.run_op].
  - apply hold_write, H.
  - apply hold_read, H.
  - apply hold_step, H.
  - apply hold_setVolume, H.
Qed.

End ChannelInvariant.

(** ** APU: the status register and the channel enables *)

Section StatusRegister.

Import APU Channels.

Lemma status_bits (a : APU.t) :
  let v := fst (read 0x4015 a) in
  Z.testbit v 0 = negb (LengthCounter.zero (Pulse.len (pulse1 a))) /\
  Z.testbit v 1 = negb (LengthCounter.zero (Pulse.len (pulse2 a))) /\
  Z.testbit v 2 = negb (LengthCounter.zero (Triangle.len (triangle a))) /\
  Z.testbit v 3 = negb (LengthCounter.zero (Noise.len (noise a))) /\
  Z.testbit v 4 = (0 <? DMC.bytesRemaining (dmc a)) /\
  Z.testbit v 5 = false /\
  Z.testbit v 6 = frameIRQ a /\
  Z.testbit v 7 = DMC.irq (dmc a) /\
  0 <= v < 256.
Proof.
  unfold read. cbn [negb Z.eqb Pos.eqb fst]. unfold DMC.statusActiveBit.
  destruct (LengthCounter.zero (Pulse.len (pulse1 a))),
    (LengthCounter.zero (Pulse.len (pulse2 a))),
    (LengthCounter.zero (Triangle.len (triangle a))),
    (LengthCounter.zero (Noise.len (noise a))),
    (0 <? DMC.bytesRemaining (dmc a)),
    (frameIRQ a), (DMC.irq (dmc a));
    vm_compute; repeat split; discriminate.
Qed.

(** X9.  The status register.  A read of $4015 returns a byte whose bits
    0 to 3 tell whether the length counters of pulse 1, pulse 2, triangle
    and noise are not 0, whose bit 4 tells whether the DMC has bytes left,
    whose bits 6 and 7 are the frame and the DMC interrupt flags as they
    were, and whose bit 5 is always 0.  The read lowers both flags, so
    [cpuIRQ()] is false after it and the level reported to [onIRQ] is low,
    and it changes nothing else in the channels.  A read of any other
    address returns 0 and changes nothing. *)
Theorem status_read (addr : Z) (a : APU.t) :
  let v := fst (read 0x4015 a) in
  let b := snd (read 0x4015 a) in
  (Z.testbit v 0 = negb (LengthCounter.zero (Pulse.len (pulse1 a))) /\
   Z.testbit v 1 = negb (LengthCounter.zero (Pulse.len (pulse2 a))) /\
   Z.testbit v 2 = negb (LengthCounter.zero (Triangle.len (triangle a))) /\
   Z.testbit v 3 = negb (LengthCounter.zero (Noise.len (noise a))) /\
   Z.testbit v 4 = (0 <? DMC.bytesRemaining (dmc a)) /\
   Z.testbit v 5 = false /\
   Z.testbit v 6 = frameIRQ a /\
   Z.testbit v 7 = DMC.irq (dmc a) /\
   0 <= v < 256) /\
  (frameIRQ b = false /\ DMC.irq (dmc b) = false /\ cpuIRQ b = false /\
   irqLine b = false :: irqLine a) /\
  (pulse1 b = pulse1 a /\ pulse2 b = pulse2 a /\ triangle b = triangle a /\
   noise b = noise a /\ dmc b = DMC.with_irq false (dmc a)) /\
  (Z.testbit (fst (read 0x4015 b)) 6 = false /\
   Z.testbit (fst (read 0x4015 b)) 7 = false) /\
  (addr <> 0x4015 -> read addr a = (0, a)).
Proof.
  intros v b. split; [apply status_bits|].
  assert (F : frameIRQ b = false) by reflexivity.
  assert (I : DMC.irq (dmc b) = false) by reflexivity.
  split; [|split; [|split]].
  - repeat split.
  - repeat split.
  - destruct (status_bits b) as (_ & _ & _ & _ & _ & _ & B6 & B7 & _).
    cbv zeta in B6, B7. rewrite B6, B7, F, I. split; reflexivity.
  - intros Na. unfold read.
    destruct (Z.eqb_spec addr 0x4015); [contradiction|reflexivity].
Qed.

Lemma pulse_off_clock (p : Pulse.t) :
  off (Pulse.enabled p) (Pulse.len p) ->
  off (Pulse.enabled (Pulse.clock p)) (Pulse.len (Pulse.clock p)).
Proof. unfold Pulse.clock. destruct (_ =? 0); exact id. Qed.

Lemma len_off_half (l : LengthCounter.t) :
  LengthCounter.value l = 0 ->
  LengthCounter.value (LengthCounter.half l) = 0.
Proof.
  intros E. unfold LengthCounter.half. rewrite E.
  now rewrite andb_false_r.
Qed.

Lemma pulse_off_half (p : Pulse.t) :
  off (Pulse.enabled p) (Pulse.len p) ->
  off (Pulse.enabled (Pulse.half p)) (Pulse.len (Pulse.half p)).
Proof.
  intros [E V]. unfold Pulse.half. destruct (Sweep.half _ _).
  cbn [Pulse.enabled Pulse.len].
  split; [exact E|]. now apply len_off_half.
Qed.

Lemma pulse_off_write3 (n : Z) (p : Pulse.t) :
  off (Pulse.enabled p) (Pulse.len p) ->
  off (Pulse.enabled (Pulse.write3 n p)) (Pulse.len (Pulse.write3 n p)).
Proof.
  intros [E V]. unfold Pulse.write3. cbn [Pulse.enabled Pulse.len].
  rewrite E. split; [reflexivity|exact V].
Qed.

Lemma triangle_off_clock (c : Triangle.t) :
  off (Triangle.enabled c) (Triangle.len c) ->
  off (Triangle.enabled (Triangle.clock c)) (Triangle.len (Triangle.clock c)).
Proof. unfold Triangle.clock. destruct (_ =? 0); exact id. Qed.

Lemma triangle_off_half (c : Triangle.t) :
  off (Triangle.enabled c) (Triangle.len c) ->
  off (Triangle.enabled (Triangle.half c)) (Triangle.len (Triangle.half c)).
Proof. intros [E V]. split; [exact E|]. now apply len_off_half. Qed.

Lemma triangle_off_write3 (n : Z) (c : Triangle.t) :
  off (Triangle.enabled c) (Triangle.len c) ->
  off (Triangle.enabled (Triangle.write3 n c))
      (Triangle.len (Triangle.write3 n c)).
Proof.
  intros [E V]. unfold Triangle.write3. cbn [Triangle.enabled Triangle.len].
  rewrite E. split; [reflexivity|exact V].
Qed.

Lemma noise_off_clock (c : Noise.t) :
  off (Noise.enabled c) (Noise.len c) ->
  off (Noise.enabled (Noise.clock c)) (Noise.len (Noise.clock c)).
Proof. unfold Noise.clock. destruct (_ =? 0); exact id. Qed.

Lemma noise_off_half (c : Noise.t) :
  off (Noise.enabled c) (Noise.len c) ->
  off (Noise.enabled (Noise.half c)) (Noise.len (Noise.half c)).
Proof. intros [E V]. split; [exact E|]. now apply len_off_half. Qed.

Lemma noise_off_write3 (n : Z) (c : Noise.t) :
  off (Noise.enabled c) (Noise.len c) ->
  off (Noise.enabled (Noise.write3 n c)) (Noise.len (Noise.write3 n c)).
Proof.
  intros [E V]. unfold Noise.write3. cbn [Noise.enabled Noise.len].
  rewrite E. split; [reflexivity|exact V].
Qed.

(** The channels that a write of [v] to $4015 switched off are off after
    any operations that do not write to $4015. *)
Lemma off_kept (v : Z) (ops : list APURun.op) (a : APU.t) :
  forallb (not_write_to 0x4015) ops = true ->
  hold (fun p => Z.testbit v 0 = false -> off (Pulse.enabled p) (Pulse.len p))
       (fun p => Z.testbit v 1 = false -> off (Pulse.enabled p) (Pulse.len p))
       (fun c => Z.testbit v 2 = false ->
                 off (Triangle.enabled c) (Triangle.len c))
       (fun c => Z.testbit v 3 = false -> off (Noise.enabled c) (Noise.len c))
       (fun _ => True)
       (APURun.run ops (write 0x4015 v a)).
Proof.
  intros Hops.
  assert (H0 : hold
       (fun p => Z.testbit v 0 = false -> off (Pulse.enabled p) (Pulse.len p))
       (fun p => Z.testbit v 1 = false -> off (Pulse.enabled p) (Pulse.len p))
       (fun c => Z.testbit v 2 = false ->
                 off (Triangle.enabled c) (Triangle.len c))
       (fun c => Z.testbit v 3 = false -> off (Noise.enabled c) (Noise.len c))
       (fun _ => True) (write 0x4015 v a)).
  { unfold write. cbn [Z.eqb Pos.eqb]. cbv zeta. unfold hold.
    cbn [pulse1 pulse2 triangle noise dmc with_channels _updateIRQLine
         with_logs].
    unfold Pulse.setEnabled, Triangle.setEnabled, Noise.setEnabled. cbv zeta.
    cbn [Pulse.enabled Pulse.len Triangle.enabled Triangle.len
         Noise.enabled Noise.len].
    destruct (enable_bits v) as (-> & -> & -> & -> & _).
    (split; [|split; [|split; [|split]]]); try exact I;
      intros ->; split; reflexivity. }
  revert H0. generalize (write 0x4015 v a). unfold APURun.run.
  induction ops as [|o ops IH]; intros b H0; [exact H0|].
  cbn [forallb] in Hops. apply andb_prop in Hops as [Ho Hops].
  cbn [fold_left]. apply (IH Hops).
  destruct o as [addr w|addr|cycles|w]; cbn [APURun.run_op].
  - cbn [not_write_to] in Ho. apply negb_true_iff, Z.eqb_neq in Ho.
    revert H0. apply hold_write_other; try exact Ho; auto;
      intros; try (apply pulse_off_half; auto; fail);
      try (apply pulse_off_write3; auto; fail);
      try (apply triangle_off_half; auto; fail);
      try (apply triangle_off_write3; auto; fail);
      try (apply noise_off_half; auto; fail);
      try (apply noise_off_write3; auto; fail).
  - revert H0. apply hold_read; auto.
  - revert H0. apply hold_step; auto;
      intros; try (apply pulse_off_clock; auto; fail);
      try (apply pulse_off_half; auto; fail);
      try (apply triangle_off_clock; auto; fail);
      try (apply triangle_off_half; auto; fail);
      try (apply noise_off_clock; auto; fail);
      try (apply noise_off_half; auto; fail).
  - exact H0.
Qed.

(** X10.  A channel switched off through $4015 stays silent.  After a
    write to $4015 with the channel's bit clear, and then any sequence of
    register writes other than to $4015, of reads, of volume changes and of
    [step] calls, the output of pulse 1 (bit 0), pulse 2 (bit 1), the
    triangle (bit 2) or the noise channel (bit 3) is 0, its length counter
    is 0, so that a write to its length register loads nothing, and its bit
    in the status read is 0. *)
Theorem disabled_channel_silent (v : Z) (ops : list APURun.op) (a : APU.t) :
  forallb (not_write_to 0x4015) ops = true ->
  let b := APURun.run ops (write 0x4015 v a) in
  let status := fst (read 0x4015 b) in
  (Z.testbit v 0 = false ->
   Pulse.out (pulse1 b) = 0 /\ LengthCounter.value (Pulse.len (pulse1 b)) = 0 /\
   Z.testbit status 0 = false) /\
  (Z.testbit v 1 = false ->
   Pulse.out (pulse2 b) = 0 /\ LengthCounter.value (Pulse.len (pulse2 b)) = 0 /\
   Z.testbit status 1 = false) /\
  (Z.testbit v 2 = false ->
   Triangle.out (triangle b) = 0 /\
   LengthCounter.value (Triangle.len (triangle b)) = 0 /\
   Z.testbit status 2 = false) /\
  (Z.testbit v 3 = false ->
   Noise.out (noise b) = 0 /\ LengthCounter.value (Noise.len (noise b)) = 0 /\
   Z.testbit status 3 = false).
Proof.
  intros Hops b status.
  destruct (off_kept v ops a Hops) as (H1 & H2 & Ht & Hn & _). fold b in H1, H2, Ht, Hn.
  destruct (status_bits b) as (B0 & B1 & B2 & B3 & _). fold status in B0, B1, B2, B3.
  repeat apply conj; intros E.
  - destruct (H1 E) as [En V]. unfold Pulse.out. rewrite En.
    rewrite B0. unfold LengthCounter.zero. rewrite V. auto.
  - destruct (H2 E) as [En V]. unfold Pulse.out. rewrite En.
    rewrite B1. unfold LengthCounter.zero. rewrite V. auto.
  - destruct (Ht E) as [En V]. unfold Triangle.out. rewrite En.
    rewrite B2. unfold LengthCounter.zero. rewrite V. auto.
  - destruct (Hn E) as [En V]. unfold Noise.out. rewrite En.
    rewrite B3. unfold LengthCounter.zero. rewrite V. auto.
Qed.

(** The channels switched off, pulse 1 programmed all the same, and a
    frame of [step] calls. *)
Lemma disabled_channel_witness :
  let ops := [APURun.Write 0x4000 0xBF; APURun.Write 0x4002 0xFD;
              APURun.Write 0x4003 0x08; APURun.Step 100] in
  let b := APURun.run ops (write 0x4015 0 (new (fun _ => 0) 48000 false)) in
  Pulse.out (pulse1 b) = 0 /\ Z.testbit (fst (read 0x4015 b)) 0 = false.
Proof.
  intros ops b.
  destruct (disabled_channel_silent 0 ops (new (fun _ => 0) 48000 false))
    as ((O & _ & S) & _); [reflexivity | reflexivity |].
  split; [exact O | exact S].
Defined.

Lemma length_index (w : Z) :
  JS.and (JS.shr (JS.and w 0xFF) 3) 0x1F = (w mod 256) / 8 /\
  0 <= (w mod 256) / 8 < 32.
Proof.
  assert (B : 0 <= w mod 256 < 256) by (apply Z.mod_pos_bound; lia).
  assert (R : 0 <= (w mod 256) / 8 < 32).
  { split; [apply Z.div_pos; lia|apply Z.div_lt_upper_bound; lia]. }
  split; [|exact R].
  rewrite and_byte. unfold JS.shr.
  rewrite int32_small by lia. change (3 mod 32) with 3.
  rewrite Z.shiftr_div_pow2 by lia. change (2 ^ 3) with 8.
  change 0x1F with (Z.ones 5). rewrite and_ones by lia.
  apply Z.mod_small. change (2 ^ 5) with 32. lia.
Qed.

(** X11.  Loading a length counter.  After a write to $4015 with the
    channel's bit set, a write of [w] to the channel's length register
    ($4003, $4007, $400B or $400F) loads the length counter with entry
    [(w mod 256) / 8] of [LENGTH_TABLE], which is never 0; so the status
    read that follows reports the channel active. *)
Theorem length_load_status (v w : Z) (a : APU.t) :
  let loaded := nth (Z.to_nat ((w mod 256) / 8)) LENGTH_TABLE 0 in
  2 <= loaded <= 254 /\
  (Z.testbit v 0 = true ->
   let b := write 0x4003 w (write 0x4015 v a) in
   LengthCounter.value (Pulse.len (pulse1 b)) = loaded /\
   Z.testbit (fst (read 0x4015 b)) 0 = true) /\
  (Z.testbit v 1 = true ->
   let b := write 0x4007 w (write 0x4015 v a) in
   LengthCounter.value (Pulse.len (pulse2 b)) = loaded /\
   Z.testbit (fst (read 0x4015 b)) 1 = true) /\
  (Z.testbit v 2 = true ->
   let b := write 0x400B w (write 0x4015 v a) in
   LengthCounter.value (Triangle.len (triangle b)) = loaded /\
   Z.testbit (fst (read 0x4015 b)) 2 = true) /\
  (Z.testbit v 3 = true ->
   let b := write 0x400F w (write 0x4015 v a) in
   LengthCounter.value (Noise.len (noise b)) = loaded /\
   Z.testbit (fst (read 0x4015 b)) 3 = true).
Proof.
  intros loaded.
  destruct (length_index w) as [Ix R].
  assert (L : forall l, LengthCounter.value
                (LengthCounter.load (JS.and (JS.shr (JS.and w 0xFF) 3) 0x1F) l)
              = loaded /\ 2 <= loaded <= 254).
  { intros l. rewrite Ix.
    destruct (load_value ((w mod 256) / 8) l R) as [E B].
    unfold loaded. rewrite <- E. auto. }
  destruct (enable_bits v) as (E0 & E1 & E2 & E3 & _).
  split; [apply (L LengthCounter.new)|].
  repeat apply conj; intros Hv b;
    pose proof (status_bits b) as (B0 & B1 & B2 & B3 & _);
    cbv zeta in B0, B1, B2, B3.
  - assert (V : LengthCounter.value (Pulse.len (pulse1 b)) = loaded).
    { unfold b, write. cbn [Z.eqb Pos.eqb]. cbv zeta.
      cbn [pulse1 with_pulse1 with_channels _updateIRQLine with_logs].
      unfold Pulse.write3. cbn [Pulse.len Pulse.enabled Pulse.setEnabled].
      rewrite E0, Hv. apply L. }
    split; [exact V|]. rewrite B0. unfold LengthCounter.zero. rewrite V.
    destruct (L LengthCounter.new) as [_ Rg].
    destruct (Z.eqb_spec loaded 0); [lia|reflexivity].
  - assert (V : LengthCounter.value (Pulse.len (pulse2 b)) = loaded).
    { unfold b, write. cbn [Z.eqb Pos.eqb]. cbv zeta.
      cbn [pulse2 with_pulse2 with_channels _updateIRQLine with_logs].
      unfold Pulse.write3. cbn [Pulse.len Pulse.enabled Pulse.setEnabled].
      rewrite E1, Hv. apply L. }
    split; [exact V|]. rewrite B1. unfold LengthCounter.zero. rewrite V.
    destruct (L LengthCounter.new) as [_ Rg].
    destruct (Z.eqb_spec loaded 0); [lia|reflexivity].
  - assert (V : LengthCounter.value (Triangle.len (triangle b)) = loaded).
    { unfold b, write. cbn [Z.eqb Pos.eqb]. cbv zeta.
      cbn [triangle with_triangle with_channels _updateIRQLine with_logs].
      unfold Triangle.write3.
      cbn [Triangle.len Triangle.enabled Triangle.setEnabled].
      rewrite E2, Hv. apply L. }
    split; [exact V|]. rewrite B2. unfold LengthCounter.zero. rewrite V.
    destruct (L LengthCounter.new) as [_ Rg].
    destruct (Z.eqb_spec loaded 0); [lia|reflexivity].
  - assert (V : LengthCounter.value (Noise.len (noise b)) = loaded).
    { unfold b, write. cbn [Z.eqb Pos.eqb]. cbv zeta.
      cbn [noise with_noise with_channels _updateIRQLine with_logs].
      unfold Noise.write3. cbn [Noise.len Noise.enabled Noise.setEnabled].
      rewrite E3, Hv. apply L. }
    split; [exact V|]. rewrite B3. unfold LengthCounter.zero. rewrite V.
    destruct (L LengthCounter.new) as [_ Rg].
    destruct (Z.eqb_spec loaded 0); [lia|reflexivity].
Qed.

End StatusRegister.

(** ** APU: the envelope, the linear counter and the timers in closed form *)

Section Dividers.

Lemma succ_divmod (k m : Z) :
  0 <= k -> 0 < m ->
  if k mod m =? m - 1
  then (k + 1) / m = k / m + 1 /\ (k + 1) mod m = 0
  else (k + 1) / m = k / m /\ (k + 1) mod m = k mod m + 1.
Proof.
  intros Hk Hm.
  pose proof (Z.div_mod k m ltac:(lia)) as D.
  pose proof (Z.mod_pos_bound k m Hm) as B.
  destruct (Z.eqb_spec (k mod m) (m - 1)) as [E|N].
  - assert (Q : (k + 1) / m = k / m + 1).
    { symmetry. apply (Z.div_unique (k + 1) m (k / m + 1) 0); lia. }
    split; [exact Q|].
    symmetry. apply (Z.mod_unique (k + 1) m (k / m + 1) 0); lia.
  - assert (Q : (k + 1) / m = k / m).
    { symmetry. apply (Z.div_unique (k + 1) m (k / m) (k mod m + 1)); lia. }
    split; [exact Q|].
    symmetry. apply (Z.mod_unique (k + 1) m (k / m) (k mod m + 1)); lia.
Qed.

End Dividers.

Section EnvelopeFacts.

Import Envelope.

Lemma quarter_keeps (e : Envelope.t) :
  loop (quarter e) = loop e /\ constantVolume (quarter e) = constantVolume e /\
  volume (quarter e) = volume e.
Proof.
  unfold quarter. destruct (start e); [auto|]. destruct (divider e =? 0); auto.
Qed.

(** X12.  The envelope in closed form.  After [restart] the first quarter
    tick sets the decay level to 15 and the divider to the volume [V]; from
    then on the level goes down by one every [V + 1] ticks.  So [k] ticks
    after that first one the divider holds [V - k mod (V + 1)] and the
    level is [15 - k / (V + 1)], stopped at 0; with the loop flag the level
    goes from 0 back to 15, so it is [15 - (k / (V + 1)) mod 16].  The
    flags and the volume do not change. *)
Theorem envelope_decay (k : nat) (e : Envelope.t) :
  0 <= volume e ->
  let e' := Nat.iter (S k) quarter (restart e) in
  let V := volume e in
  let q := Z.of_nat k / (V + 1) in
  start e' = false /\
  divider e' = V - Z.of_nat k mod (V + 1) /\
  decay e' = (if loop e then 15 - q mod 16 else Z.max 0 (15 - q)) /\
  loop e' = loop e /\ constantVolume e' = constantVolume e /\ volume e' = V /\
  out e' = if constantVolume e then V else decay e'.
Proof.
  intros HV. cbv zeta.
  assert (G : start (Nat.iter (S k) quarter (restart e)) = false /\
    divider (Nat.iter (S k) quarter (restart e))
    = volume e - Z.of_nat k mod (volume e + 1) /\
    decay (Nat.iter (S k) quarter (restart e))
    = (if loop e then 15 - (Z.of_nat k / (volume e + 1)) mod 16
       else Z.max 0 (15 - Z.of_nat k / (volume e + 1))) /\
    loop (Nat.iter (S k) quarter (restart e)) = loop e /\
    constantVolume (Nat.iter (S k) quarter (restart e)) = constantVolume e /\
    volume (Nat.iter (S k) quarter (restart e)) = volume e).
  { induction k as [|k IH].
    - cbn [Nat.iter]. unfold quarter, restart. cbn.
      rewrite Z.mod_0_l, Z.div_0_l by lia.
      destruct (loop e); repeat split; lia.
    - set (x := Nat.iter (S k) quarter (restart e)) in *.
      change (Nat.iter (S (S k)) quarter (restart e)) with (quarter x).
      destruct IH as (Hs & Hd & Hy & Hl & Hc & Hv).
      destruct (quarter_keeps x) as (Kl & Kc & Kv).
      rewrite Kl, Kc, Kv, Hl, Hc, Hv.
      unfold quarter. rewrite Hs, Hd, Hy, Hl, Hv.
      rewrite Nat2Z.inj_succ, <- Z.add_1_r.
      pose proof (succ_divmod (Z.of_nat k) (volume e + 1) ltac:(lia) ltac:(lia))
        as SD.
      pose proof (Z.mod_pos_bound (Z.of_nat k) (volume e + 1) ltac:(lia)) as B.
      assert (Q0 : 0 <= Z.of_nat k / (volume e + 1))
        by (apply Z.div_pos; lia).
      pose proof (succ_divmod (Z.of_nat k / (volume e + 1)) 16 Q0 ltac:(lia))
        as S16.
      pose proof (Z.mod_pos_bound (Z.of_nat k / (volume e + 1)) 16 ltac:(lia))
        as B16.
      destruct (Z.eqb_spec (Z.of_nat k mod (volume e + 1)) (volume e + 1 - 1))
        as [E|E].
      + destruct SD as [-> ->].
        destruct (Z.eqb_spec (volume e - Z.of_nat k mod (volume e + 1)) 0);
          [|lia].
        cbn [start divider decay].
        repeat split; try lia.
        destruct (loop e).
        * destruct (Z.eqb_spec ((Z.of_nat k / (volume e + 1)) mod 16) (16 - 1))
            as [E16|E16]; destruct S16 as [_ ->];
            destruct (Z.ltb_spec 0
                        (15 - (Z.of_nat k / (volume e + 1)) mod 16)); lia.
        * destruct (Z.ltb_spec 0
                      (Z.max 0 (15 - Z.of_nat k / (volume e + 1)))); lia.
      + destruct SD as [-> ->].
        destruct (Z.eqb_spec (volume e - Z.of_nat k mod (volume e + 1)) 0);
          [lia|].
        cbn [start divider decay].
        repeat split; try lia. }
  destruct G as (Hs & Hd & Hy & Hl & Hc & Hv).
  repeat split; try assumption.
  unfold out. now rewrite Hc, Hv.
Qed.

Lemma envelope_decay_witness :
  let e := write 0x03 new in
  let e' := Nat.iter (S 10) quarter (restart e) in
  volume e = 3 /\ divider e' = 3 - 10 mod 4 /\ decay e' = Z.max 0 (15 - 10 / 4).
Proof.
  intros e e'.
  destruct (envelope_decay 10 e) as (_ & D & Y & _); [vm_compute; discriminate|].
  split; [reflexivity|]. split; [exact D | exact Y].
Defined.

End EnvelopeFacts.

Section LinearCounterFacts.

Import Triangle.

(** X13.  The linear counter of the triangle channel.  A write to $400B
    sets the reload flag; the quarter tick that follows loads the counter
    with the reload value [R].  With the control flag clear the flag goes
    down on that tick and the counter then goes down by one per tick to 0,
    where it stays: [k] ticks after the first it is [R - k], stopped at 0.
    With the control flag set the reload flag stays up and every tick
    loads [R] again. *)
Theorem linear_counter (n : Z) (k : nat) (c : Triangle.t) :
  0 <= linearReload c ->
  let c' := Nat.iter (S k) quarter (write3 n c) in
  linear c' = (if control c then linearReload c
               else Z.max 0 (linearReload c - Z.of_nat k)) /\
  reloadFlag c' = control c /\
  linearReload c' = linearReload c /\ control c' = control c.
Proof.
  intros HR. cbv zeta. induction k as [|k IH].
  - cbn [Nat.iter]. unfold quarter, write3. cbn.
    destruct (control c); repeat split; lia.
  - set (x := Nat.iter (S k) quarter (write3 n c)) in *.
    change (Nat.iter (S (S k)) quarter (write3 n c)) with (quarter x).
    destruct IH as (Hl & Hf & Hr & Hc).
    unfold quarter. cbn [linear reloadFlag linearReload control].
    rewrite Hl, Hf, Hr, Hc, Nat2Z.inj_succ.
    destruct (control c); cbn [negb].
    + repeat split.
    + destruct (Z.ltb_spec 0 (Z.max 0 (linearReload c - Z.of_nat k)));
        repeat split; lia.
Qed.

Lemma linear_counter_witness :
  let c := write0 0x05 new in
  let c' := Nat.iter (S 3) quarter (write3 0 c) in
  linearReload c = 5 /\ linear c' = Z.max 0 (5 - 3).
Proof.
  intros c c'.
  destruct (linear_counter 0 3 c) as (L & _); [vm_compute; discriminate|].
  split; [reflexivity|exact L].
Defined.

End LinearCounterFacts.

Section PulseTimerFacts.

Import Pulse.

Lemma clock_keeps (p : Pulse.t) :
  enabled (clock p) = enabled p /\ env (clock p) = env p /\
  len (clock p) = len p /\ sweep (clock p) = sweep p /\
  duty (clock p) = duty p /\ timer (clock p) = timer p.
Proof. unfold clock. destruct (timerCnt p =? 0); repeat split. Qed.

(** The state [n] calls of [clock] reach: the counter is [r] and the duty
    step advanced [q] times, where [n + r = q * (timer + 1)]. *)
Lemma clocks_counted (n : nat) (p : Pulse.t) :
  0 <= timer p -> timerCnt p = 0 -> 0 <= dutyStep p < 8 ->
  exists q,
    0 <= q /\
    0 <= timerCnt (Nat.iter n clock p) <= timer p /\
    Z.of_nat n + timerCnt (Nat.iter n clock p) = q * (timer p + 1) /\
    dutyStep (Nat.iter n clock p) = (dutyStep p + q) mod 8 /\
    timer (Nat.iter n clock p) = timer p.
Proof.
  intros Ht Hc Hd. induction n as [|n IH].
  - exists 0. change (Nat.iter 0 clock p) with p.
    rewrite Hc, Z.add_0_r, Z.mod_small by lia.
    repeat split; lia.
  - destruct IH as (q & Hq & Hr & Hn & Hs & Hk).
    set (x := Nat.iter n clock p) in *.
    change (Nat.iter (S n) clock p) with (clock x).
    unfold clock. destruct (Z.eqb_spec (timerCnt x) 0) as [E|E].
    + exists (q + 1). cbn [timerCnt dutyStep timer].
      rewrite Hk, Hs.
      change 7 with (Z.ones 3). rewrite and_ones by lia.
      change (2 ^ 3) with 8.
      rewrite Zplus_mod_idemp_l, Z.add_assoc.
      repeat split; lia.
    + exists q. cbn [timerCnt dutyStep timer].
      repeat split; try lia; assumption.
Qed.

(** X14.  The pulse timer in closed form.  With the timer register at
    [t] and the counter at 0, the duty step advances on the first [clock]
    and then on every [t + 1]-th: after [n] calls the counter holds
    [(- n) mod (t + 1)] and the step advanced [(n + t) / (t + 1)] times,
    modulo 8.  One [clock] is made per CPU cycle, so the waveform repeats
    every [8 * (t + 1)] CPU cycles: that many calls bring the channel back
    to the state it was in. *)
Theorem pulse_waveform_period (n : nat) (p : Pulse.t) :
  0 <= timer p -> timerCnt p = 0 -> 0 <= dutyStep p < 8 ->
  let m := timer p + 1 in
  timerCnt (Nat.iter n clock p) = (- Z.of_nat n) mod m /\
  dutyStep (Nat.iter n clock p)
  = (dutyStep p + (Z.of_nat n + timer p) / m) mod 8 /\
  Nat.iter (Z.to_nat (8 * m)) clock p = p.
Proof.
  intros Ht Hc Hd m.
  assert (G : forall k,
    timerCnt (Nat.iter k clock p) = (- Z.of_nat k) mod m /\
    dutyStep (Nat.iter k clock p)
    = (dutyStep p + (Z.of_nat k + timer p) / m) mod 8).
  { intros k.
    destruct (clocks_counted k p Ht Hc Hd) as (q & Hq & Hr & Hn & Hs & _).
    fold m in Hn.
    assert (Q : (Z.of_nat k + timer p) / m = q).
    { symmetry.
      apply (Z.div_unique _ m q (timer p - timerCnt (Nat.iter k clock p)));
        unfold m in *; lia. }
    assert (R : (- Z.of_nat k) mod m = timerCnt (Nat.iter k clock p)).
    { symmetry. apply (Z.mod_unique _ m (- q)); unfold m in *; lia. }
    rewrite Q, R. split; [reflexivity|exact Hs]. }
  split; [apply G|]. split; [apply G|].
  destruct (G (Z.to_nat (8 * m))) as [Gc Gs].
  assert (K : forall k, enabled (Nat.iter k clock p) = enabled p /\
                env (Nat.iter k clock p) = env p /\
                len (Nat.iter k clock p) = len p /\
                sweep (Nat.iter k clock p) = sweep p /\
                duty (Nat.iter k clock p) = duty p /\
                timer (Nat.iter k clock p) = timer p).
  { induction k as [|k IH]; [repeat split|].
    change (Nat.iter (S k) clock p) with (clock (Nat.iter k clock p)).
    destruct (clock_keeps (Nat.iter k clock p))
      as (-> & -> & -> & -> & -> & ->). exact IH. }
  destruct (K (Z.to_nat (8 * m))) as (K1 & K2 & K3 & K4 & K5 & K6).
  rewrite Z2Nat.id in Gc, Gs by (unfold m; lia).
  assert (C0 : (- (8 * m)) mod m = 0).
  { replace (- (8 * m)) with ((-8) * m) by lia. apply Z.mod_mul. unfold m; lia. }
  assert (S0 : (8 * m + timer p) / m = 8).
  { symmetry. apply (Z.div_unique _ m 8 (timer p)); unfold m; lia. }
  rewrite C0 in Gc. rewrite S0 in Gs.
  rewrite Z.add_mod, Z.mod_same, Z.add_0_r, Z.mod_mod, Z.mod_small in Gs by lia.
  destruct (Nat.iter (Z.to_nat (8 * m)) clock p), p.
  cbn in *. congruence.
Qed.

Lemma pulse_waveform_witness :
  let p := write2 0xFD (Pulse.new true) in
  timer p = 253 /\ Nat.iter (Z.to_nat (8 * (253 + 1))) clock p = p.
Proof.
  intros p.
  destruct (pulse_waveform_period 0 p) as (_ & _ & P);
    [vm_compute; discriminate | reflexivity
     | vm_compute; split; [discriminate|reflexivity] |].
  split; [reflexivity|exact P].
Defined.

End PulseTimerFacts.

(** ** APU: the timer registers *)

Section TimerRegisters.

Import APU.

(** The timer after a write of the low byte and then of the high bits. *)
Lemma timer_written (t lo hi : Z) :
  JS.or (JS.and (JS.or (JS.and t 0x700) (JS.and lo 0xFF)) 0x0FF)
        (JS.shl (JS.and (JS.and hi 0xFF) 7) 8)
  = (hi mod 8) * 256 + lo mod 256.
Proof.
  destruct (and_0x700 t) as (h & Hh & ->).
  assert (L : 0 <= lo mod 256 < 256) by (apply Z.mod_pos_bound; lia).
  assert (H8 : 0 <= hi mod 8 < 8) by (apply Z.mod_pos_bound; lia).
  assert (A : JS.and (JS.or (h * 256) (JS.and lo 0xFF)) 0x0FF = lo mod 256).
  { rewrite !and_byte.
    rewrite (or_add_256 h (lo mod 256) L) by lia.
    rewrite Z.add_comm, Z.mod_add by lia. apply Z.mod_mod. lia. }
  assert (B : JS.shl (JS.and (JS.and hi 0xFF) 7) 8 = (hi mod 8) * 256).
  { rewrite and_byte. change 7 with (Z.ones 3). rewrite and_ones by lia.
    change (2 ^ 3) with 8.
    assert (E : (hi mod 256) mod 8 = hi mod 8).
    { pose proof (Z.div_mod hi 256 ltac:(lia)) as D.
      pose proof (Z.mod_pos_bound hi 256 ltac:(lia)) as Bd.
      rewrite D at 2.
      replace (256 * (hi / 256) + hi mod 256)
        with (hi mod 256 + (32 * (hi / 256)) * 8) by lia.
      now rewrite Z.mod_add by lia. }
    rewrite E. apply shl_8. lia. }
  rewrite A, B, or_comm.
  apply or_add_256; lia.
Qed.

(** X15.  The timer registers.  A write of [lo] to the low timer register
    of a channel and then of [hi] to its high register leaves the 11-bit
    timer [(hi mod 8) * 256 + lo mod 256], whatever the timer held before:
    $4002/$4003 for pulse 1, $4006/$4007 for pulse 2 and $400A/$400B for
    the triangle. *)
Theorem timer_registers (lo hi : Z) (a : APU.t) :
  let t := (hi mod 8) * 256 + lo mod 256 in
  0 <= t < 2048 /\
  Pulse.timer (pulse1 (write 0x4003 hi (write 0x4002 lo a))) = t /\
  Pulse.timer (pulse2 (write 0x4007 hi (write 0x4006 lo a))) = t /\
  Triangle.timer (triangle (write 0x400B hi (write 0x400A lo a))) = t.
Proof.
  intros t.
  assert (L : 0 <= lo mod 256 < 256) by (apply Z.mod_pos_bound; lia).
  assert (H8 : 0 <= hi mod 8 < 8) by (apply Z.mod_pos_bound; lia).
  split; [unfold t; lia|].
  unfold write. cbn [Z.eqb Pos.eqb]. cbv zeta.
  cbn [pulse1 pulse2 triangle with_pulse1 with_pulse2 with_triangle with_channels
       Pulse.timer Pulse.write2 Pulse.write3
       Triangle.timer Triangle.write2 Triangle.write3].
  rewrite !timer_written. auto.
Qed.

End TimerRegisters.

(** ** APU: the sequence in 5-step mode *)

Section FiveStep.

Import APU Sequencer Sequencer5.








End FiveStep.

(** ** APU: the ring buffer of the audio sink *)

Section RingBuffer.

Import APU Audio.

Lemma ring_fields_push (s : JS.number) (a : APU.t) :
  let next := Z.rem (rw a + 1) (Z.of_nat (length (rb a))) in
  if negb (next =? rr a)
  then rb (_pushSample s a) = <[Z.to_nat (rw a) := JS.fround s]> (rb a) /\
       rw (_pushSample s a) = next /\ rr (_pushSample s a) = rr a
  else _pushSample s a = a.
Proof.
  cbv zeta. unfold _pushSample. destruct (negb _); [|reflexivity].
  repeat split.
Qed.

Lemma mod_shift (x y n : Z) : 0 < n -> ((x mod n) - y) mod n = (x - y) mod n.
Proof. intros Hn. apply Zminus_mod_idemp_l. Qed.

Lemma waiting_full (a : APU.t) :
  ring_ok a ->
  ((rw a + 1) mod Z.of_nat (length (rb a)) = rr a <->
   waiting a = Z.of_nat (length (rb a)) - 1).
Proof.
  intros (Hn & Hr & Hw). unfold waiting.
  set (n := Z.of_nat (length (rb a))) in *.
  pose proof (Z.div_mod (rw a + 1) n ltac:(lia)) as D.
  pose proof (Z.mod_pos_bound (rw a + 1) n Hn) as B.
  pose proof (Z.div_mod (rw a - rr a) n ltac:(lia)) as D'.
  pose proof (Z.mod_pos_bound (rw a - rr a) n Hn) as B'.
  split; intros E.
  - symmetry.
    apply (Z.mod_unique (rw a - rr a) n ((rw a + 1) / n - 1)); lia.
  - symmetry.
    apply (Z.mod_unique (rw a + 1) n ((rw a - rr a) / n + 1)); lia.
Qed.

Lemma queued_length (a : APU.t) :
  ring_ok a -> Z.of_nat (length (queued a)) = waiting a.
Proof.
  intros (Hn & _). unfold queued. rewrite length_map, length_seq.
  apply Z2Nat.id. unfold waiting. apply Z.mod_pos_bound. exact Hn.
Qed.

Lemma queued_push (s : JS.number) (a : APU.t) :
  ring_ok a ->
  ring_ok (_pushSample s a) /\
  queued (_pushSample s a)
  = if waiting a <? Z.of_nat (length (rb a)) - 1
    then queued a ++ [JS.fround s] else queued a.
Proof.
  intros R. pose proof R as (Hn & Hr & Hw).
  pose proof (ring_fields_push s a) as F. cbv zeta in F.
  rewrite Z.rem_mod_nonneg in F by lia.
  pose proof (waiting_full a R) as WF.
  set (n := Z.of_nat (length (rb a))) in *.
  assert (Wb : 0 <= waiting a < n) by (apply Z.mod_pos_bound; exact Hn).
  destruct (Z.eqb_spec ((rw a + 1) mod n) (rr a)) as [E|E]; cbn [negb] in F.
  - rewrite F. split; [exact R|].
    apply WF in E. rewrite E, Z.ltb_irrefl. reflexivity.
  - destruct F as (Fb & Fw & Fr).
    assert (Wn : waiting a <> n - 1) by (intros K; apply E, WF, K).
    destruct (Z.ltb_spec (waiting a) (n - 1)) as [_|]; [|lia].
    assert (Ln : Z.of_nat (length (rb (_pushSample s a))) = n)
      by (rewrite Fb, length_insert; reflexivity).
    split.
    { unfold ring_ok. rewrite Ln, Fw, Fr.
      split; [exact Hn|]. split; [exact Hr|].
      apply Z.mod_pos_bound. exact Hn. }
    unfold queued.
    assert (W' : waiting (_pushSample s a) = waiting a + 1).
    { unfold waiting at 1. rewrite Ln, Fw, Fr, mod_shift by exact Hn.
      replace (rw a + 1 - rr a) with (rw a - rr a + 1) by lia.
      rewrite <- Zplus_mod_idemp_l. fold n. fold (waiting a).
      apply Z.mod_small. lia. }
    rewrite W', Ln, Fb, Fr.
    replace (Z.to_nat (waiting a + 1)) with (S (Z.to_nat (waiting a))) by lia.
    rewrite seq_S, map_app. cbn [map plus]. f_equal.
    + apply map_ext_in. intros i Hi. apply in_seq in Hi.
      rewrite list_lookup_insert_ne; [reflexivity|].
      intros K.
      assert (K' : (rr a + Z.of_nat i) mod n = rw a).
      { pose proof (Z.mod_pos_bound (rr a + Z.of_nat i) n Hn). lia. }
      assert (C : waiting a = Z.of_nat i).
      { unfold waiting. fold n. rewrite <- K', mod_shift by exact Hn.
        replace (rr a + Z.of_nat i - rr a) with (Z.of_nat i) by lia.
        apply Z.mod_small. lia. }
      lia.
    + f_equal. rewrite Z2Nat.id by lia.
      assert (K : (rr a + waiting a) mod n = rw a).
      { unfold waiting. fold n. rewrite Zplus_mod_idemp_r.
        replace (rr a + (rw a - rr a)) with (rw a) by lia.
        apply Z.mod_small. exact Hw. }
      rewrite K, list_lookup_insert_eq by lia. reflexivity.
Qed.

Lemma queued_deq (a : APU.t) :
  ring_ok a ->
  ring_ok (snd (_deq a)) /\
  fst (_deq a) = hd (JS.Num 0) (queued a) /\
  queued (snd (_deq a)) = tl (queued a) /\
  rb (snd (_deq a)) = rb a.
Proof.
  intros R. pose proof R as (Hn & Hr & Hw).
  unfold _deq.
  set (n := Z.of_nat (length (rb a))) in *.
  assert (Wb : 0 <= waiting a < n) by (apply Z.mod_pos_bound; exact Hn).
  destruct (Z.eqb_spec (rr a) (rw a)) as [E|E]; cbn [fst snd].
  - split; [exact R|].
    assert (W0 : waiting a = 0).
    { unfold waiting. rewrite E, Z.sub_diag. apply Z.mod_0_l. lia. }
    unfold queued. rewrite W0. cbn. auto.
  - rewrite Z.rem_mod_nonneg by lia. fold n.
    assert (W1 : 1 <= waiting a).
    { destruct (Z.eq_dec (waiting a) 0) as [W0|]; [|lia].
      unfold waiting in W0. fold n in W0.
      pose proof (Z.div_mod (rw a - rr a) n ltac:(lia)) as D.
      rewrite W0 in D.
      assert ((rw a - rr a) / n = 0) by nia. lia. }
    split.
    { unfold ring_ok. cbn [rb rr rw with_audio]. fold n.
      split; [exact Hn|]. split; [|exact Hw].
      apply Z.mod_pos_bound. exact Hn. }
    assert (Q : queued a
                = default (JS.Num 0) (rb a !! Z.to_nat (rr a))
                  :: map (fun i => default (JS.Num 0)
                            (rb a !! Z.to_nat ((rr a + Z.of_nat (S i)) mod n)))
                         (seq 0 (Z.to_nat (waiting a - 1)))).
    { unfold queued. fold n.
      replace (Z.to_nat (waiting a)) with (S (Z.to_nat (waiting a - 1))) by lia.
      cbn [seq map]. f_equal.
      - rewrite Z.add_0_r, Z.mod_small by exact Hr. reflexivity.
      - rewrite <- seq_shift, map_map. reflexivity. }
    rewrite Q. cbn [hd tl].
    split; [reflexivity|]. split; [|reflexivity].
    unfold queued at 1. cbn [rb rr rw with_audio]. fold n.
    assert (W' : waiting (with_audio (master a) (sampleTimer a) (rb a) (rw a)
                            ((rr a + 1) mod n) (samples a) a)
                 = waiting a - 1).
    { unfold waiting at 1. cbn [rb rr rw with_audio]. fold n.
      rewrite <- (Zminus_mod_idemp_r (rw a)), Z.mod_mod by lia.
      rewrite Zminus_mod_idemp_r.
      replace (rw a - (rr a + 1)) with (rw a - rr a - 1) by lia.
      rewrite <- Zminus_mod_idemp_l. fold n. fold (waiting a).
      apply Z.mod_small. lia. }
    rewrite W'. apply map_ext. intros i.
    rewrite Zplus_mod_idemp_l.
    replace (rr a + 1 + Z.of_nat i) with (rr a + Z.of_nat (S i)) by lia.
    reflexivity.
Qed.

(** X18.  The ring buffer of the audio sink is a queue of
    single-precision values.  With both indices inside the buffer of size
    [n], it holds at most [n - 1] samples; [_pushSample] puts its sample,
    rounded to single precision as the [Float32Array] stores it, behind the
    ones waiting, or, on a full buffer, drops it and changes nothing;
    [_deq] returns the oldest sample waiting and removes it, or returns 0
    on an empty buffer.  Both leave the indices inside the buffer, and what
    the next [_deq] returns of a sample pushed on an empty buffer is its
    rounding, not the sample itself. *)
Theorem ring_buffer_fifo (s : JS.number) (a : APU.t) :
  ring_ok a ->
  let n := Z.of_nat (length (rb a)) in
  0 <= waiting a <= n - 1 /\
  Z.of_nat (length (queued a)) = waiting a /\
  ring_ok (_pushSample s a) /\
  queued (_pushSample s a)
  = (if waiting a <? n - 1 then queued a ++ [JS.fround s] else queued a) /\
  ring_ok (snd (_deq a)) /\
  fst (_deq a) = hd (JS.Num 0) (queued a) /\
  queued (snd (_deq a)) = tl (queued a) /\
  (queued a = [] -> 1 < n -> fst (_deq (_pushSample s a)) = JS.fround s).
Proof.
  intros R n. pose proof R as (Hn & Hr & Hw).
  assert (Wb : 0 <= waiting a < n) by (apply Z.mod_pos_bound; exact Hn).
  destruct (queued_push s a R) as (RP & QP). fold n in QP.
  destruct (queued_deq a R) as (RD & DF & DQ & _).
  split; [lia|]. split; [apply queued_length, R|].
  split; [exact RP|]. split; [exact QP|].
  split; [exact RD|]. split; [exact DF|]. split; [exact DQ|].
  intros E N1.
  destruct (queued_deq (_pushSample s a) RP) as (_ & DF' & _).
  rewrite DF', QP.
  pose proof (queued_length a R) as L. rewrite E in L. cbn in L.
  rewrite <- L, E. change (Z.of_nat 0) with 0.
  destruct (Z.ltb_spec 0 (n - 1)); [reflexivity|lia].
Qed.

(** The buffer of the constructor, empty, with the sample 0.1 pushed:
    what comes back is the single-precision value next to 0.1. *)
Lemma ring_buffer_witness :
  let a := new (fun _ => 0) 48000 true in
  ring_ok a /\ queued a = [] /\
  fst (_deq (_pushSample (JS.Num (1 # 10)) a))
  = JS.Num (13421773 # 134217728).
Proof.
  intros a.
  assert (R : ring_ok a).
  { unfold ring_ok, a. cbn [rb rr rw new].
    rewrite repeat_length, Z2Nat.id by (vm_compute; discriminate).
    vm_compute. repeat split; discriminate. }
  assert (E : queued a = []) by reflexivity.
  assert (N : 1 < Z.of_nat (length (rb a))).
  { unfold a. cbn [rb new]. rewrite repeat_length. vm_compute. reflexivity. }
  destruct (ring_buffer_fifo (JS.Num (1 # 10)) a R)
    as (_ & _ & _ & _ & _ & _ & _ & D).
  split; [exact R|]. split; [exact E|].
  rewrite (D E N). vm_compute. reflexivity.
Defined.

End RingBuffer.

(** ** APU: every field stays in the range of its register *)

Section RegisterRanges.

Import Ranges.

Lemma and_bounds (n : Z) :
  0 <= JS.and n 3 <= 3 /\ 0 <= JS.and n 7 <= 7 /\ 0 <= JS.and n 0x0F <= 15 /\
  0 <= JS.and n 0x1F <= 31 /\ 0 <= JS.and n 0x7F <= 127 /\
  0 <= JS.and n 0xFF <= 255 /\ 0 <= JS.and n 0xFFFF <= 0xFFFF.
Proof.
  pose proof (and_mask_range n 2 ltac:(lia)) as M2.
  pose proof (and_mask_range n 3 ltac:(lia)) as M3.
  pose proof (and_mask_range n 4 ltac:(lia)) as M4.
  pose proof (and_mask_range n 5 ltac:(lia)) as M5.
  pose proof (and_mask_range n 7 ltac:(lia)) as M7.
  pose proof (and_mask_range n 8 ltac:(lia)) as M8.
  pose proof (and_mask_range n 16 ltac:(lia)) as M16.
  change (Z.ones 2) with 3 in M2. change (Z.ones 3) with 7 in M3.
  change (Z.ones 4) with 15 in M4. change (Z.ones 5) with 31 in M5.
  change (Z.ones 7) with 127 in M7. change (Z.ones 8) with 255 in M8.
  change (Z.ones 16) with 65535 in M16.
  change (2 ^ 2) with 4 in M2. change (2 ^ 3) with 8 in M3.
  change (2 ^ 4) with 16 in M4. change (2 ^ 5) with 32 in M5.
  change (2 ^ 7) with 128 in M7. change (2 ^ 8) with 256 in M8.
  change (2 ^ 16) with 65536 in M16.
  lia.
Qed.

Lemma length_ok_load (i : Z) (l : LengthCounter.t) :
  length_ok (LengthCounter.load (JS.and i 0x1F) l).
Proof.
  pose proof (and_bounds i) as (_ & _ & _ & B & _).
  destruct (load_value (JS.and i 0x1F) l ltac:(lia)) as [_ R].
  unfold length_ok. lia.
Qed.

Lemma length_ok_half (l : LengthCounter.t) :
  length_ok l -> length_ok (LengthCounter.half l).
Proof.
  unfold length_ok, LengthCounter.half. intros H.
  destruct (negb _); [|exact H].
  destruct (Z.ltb_spec 0 (LengthCounter.value l)); cbn; lia.
Qed.

(** The timer after a write to the low register and after a write to the
    high register. *)
Lemma timer_low (t n : Z) :
  0 <= JS.or (JS.and t 0x700) (JS.and n 0xFF) <= 2047.
Proof.
  destruct (and_0x700 t) as (h & Hh & ->).
  pose proof (and_bounds n) as (_ & _ & _ & _ & _ & B & _).
  rewrite or_add_256 by lia. lia.
Qed.

Lemma timer_high (t n : Z) :
  0 <= JS.or (JS.and t 0x0FF) (JS.shl (JS.and n 7) 8) <= 2047.
Proof.
  pose proof (and_bounds t) as (_ & _ & _ & _ & _ & B & _).
  pose proof (and_bounds n) as (_ & B7 & _).
  rewrite shl_8 by lia. rewrite or_comm, or_add_256 by lia. lia.
Qed.

Lemma shr_div (x s : Z) :
  0 <= x < 2 ^ 31 -> 0 <= s < 32 -> JS.shr x s = x / 2 ^ s.
Proof.
  intros Hx Hs. unfold JS.shr. rewrite int32_small by lia.
  rewrite Z.mod_small by lia. apply Z.shiftr_div_pow2. lia.
Qed.

Lemma sweep_target_range (s : Sweep.t) (timer : Z) :
  sweep_ok s -> 8 <= timer <= 2047 -> Sweep.shift s <> 0 ->
  0 <= Sweep.target s timer.
Proof.
  intros (Hs & _) Ht Nz. unfold Sweep.target.
  destruct (Z.eqb_spec (Sweep.shift s) 0); [contradiction|].
  rewrite shr_div by lia.
  assert (P : 2 <= 2 ^ Sweep.shift s).
  { change 2 with (2 ^ 1) at 1. apply Z.pow_le_mono_r; lia. }
  assert (D0 : 0 <= timer / 2 ^ Sweep.shift s) by (apply Z.div_pos; lia).
  assert (D : timer / 2 ^ Sweep.shift s <= timer / 2)
    by (apply Z.div_le_compat_l; lia).
  assert (D2 : timer / 2 <= timer - 4)
    by (Z.to_euclidean_division_equations; lia).
  destruct (Sweep.negate s), (Sweep.isPulse1 s); cbn [andb]; lia.
Qed.

Lemma sweep_half_ok (s : Sweep.t) (timer : Z) :
  sweep_ok s -> 0 <= timer <= 2047 ->
  sweep_ok (fst (Sweep.half s timer)) /\
  0 <= snd (Sweep.half s timer) <= 2047.
Proof.
  intros S Ht. pose proof S as (Hs & Hp & Hc). unfold Sweep.half.
  destruct (Z.eqb_spec (Sweep.counter s) 0) as [E|E].
  - assert (T : 0 <= (if Sweep.enabled s && negb (Sweep.shift s =? 0)
                      then if (Sweep.target s timer <? 0x800) && (8 <=? timer)
                           then Sweep.target s timer else timer
                      else timer) <= 2047).
    { destruct (Sweep.enabled s); cbn [andb]; [|exact Ht].
      destruct (Z.eqb_spec (Sweep.shift s) 0); cbn [negb]; [exact Ht|].
      destruct (Z.ltb_spec (Sweep.target s timer) 0x800); cbn [andb];
        [|exact Ht].
      destruct (Z.leb_spec 8 timer); [|exact Ht].
      pose proof (sweep_target_range s timer S ltac:(lia) ltac:(assumption)).
      lia. }
    cbn [fst snd Sweep.reload Sweep.with_counter Sweep.period].
    destruct (Sweep.reload s);
      cbn [fst snd]; (split; [|exact T]); unfold sweep_ok; cbn; lia.
  - cbn [fst snd Sweep.reload Sweep.with_counter Sweep.period].
    destruct (Sweep.reload s);
      cbn [fst snd]; (split; [|exact Ht]); unfold sweep_ok; cbn; lia.
Qed.

Lemma pulse_ok_new (b : bool) : pulse_ok (Pulse.new b).
Proof. unfold pulse_ok, length_ok, sweep_ok. cbn. lia. Qed.

Lemma pulse_ok_write0 (n : Z) (p : Pulse.t) :
  pulse_ok p -> pulse_ok (Pulse.write0 n p).
Proof.
  intros (D & DS & T & TC & L & S). unfold pulse_ok, Pulse.write0. cbn.
  pose proof (and_bounds (JS.shr n 6)) as (B & _).
  repeat split; try lia; try apply L; apply S.
Qed.

Lemma pulse_ok_write1 (n : Z) (p : Pulse.t) :
  pulse_ok p -> pulse_ok (Pulse.write1 n p).
Proof.
  intros (D & DS & T & TC & L & S). unfold pulse_ok, Pulse.write1, sweep_ok.
  cbn.
  pose proof (and_bounds (JS.shr n 4)) as (_ & B & _).
  pose proof (and_bounds n) as (_ & B' & _).
  destruct S as (_ & _ & C).
  repeat split; try lia; apply L.
Qed.

Lemma pulse_ok_write2 (n : Z) (p : Pulse.t) :
  pulse_ok p -> pulse_ok (Pulse.write2 (JS.and n 0xFF) p).
Proof.
  intros (D & DS & T & TC & L & S). unfold pulse_ok, Pulse.write2. cbn.
  pose proof (timer_low (Pulse.timer p) n).
  repeat split; try lia; try apply L; apply S.
Qed.

Lemma pulse_ok_write3 (n : Z) (p : Pulse.t) :
  pulse_ok p -> pulse_ok (Pulse.write3 n p).
Proof.
  intros (D & DS & T & TC & L & S). unfold pulse_ok, Pulse.write3.
  cbn [Pulse.duty Pulse.dutyStep Pulse.timer Pulse.timerCnt Pulse.len
       Pulse.sweep].
  pose proof (timer_high (Pulse.timer p) n).
  repeat split; try lia; try apply S.
  - destruct (Pulse.enabled p); [apply length_ok_load|apply L].
  - destruct (Pulse.enabled p); [apply length_ok_load|apply L].
Qed.

Lemma pulse_ok_setEnabled (n : Z) (p : Pulse.t) :
  pulse_ok p -> pulse_ok (Pulse.setEnabled n p).
Proof.
  intros (D & DS & T & TC & L & S). unfold pulse_ok, Pulse.setEnabled.
  cbv zeta.
  cbn [Pulse.duty Pulse.dutyStep Pulse.timer Pulse.timerCnt Pulse.len
       Pulse.sweep].
  repeat split; try lia; try apply S;
    destruct (negb _); try apply L; cbn; lia.
Qed.

Lemma pulse_ok_quarter (p : Pulse.t) : pulse_ok p -> pulse_ok (Pulse.quarter p).
Proof. exact id. Qed.

Lemma pulse_ok_half (p : Pulse.t) : pulse_ok p -> pulse_ok (Pulse.half p).
Proof.
  intros (D & DS & T & TC & L & S). unfold pulse_ok, Pulse.half.
  destruct (sweep_half_ok (Pulse.sweep p) (Pulse.timer p) S T) as [S' T'].
  destruct (Sweep.half (Pulse.sweep p) (Pulse.timer p)) as [s' t'].
  cbn [fst snd] in S', T'. cbv zeta.
  cbn [Pulse.duty Pulse.dutyStep Pulse.timer Pulse.timerCnt Pulse.len
       Pulse.sweep].
  repeat split; try lia; try apply S'; apply length_ok_half, L.
Qed.

Lemma pulse_ok_clock (p : Pulse.t) : pulse_ok p -> pulse_ok (Pulse.clock p).
Proof.
  intros (D & DS & T & TC & L & S). unfold pulse_ok, Pulse.clock.
  pose proof (and_bounds (Pulse.dutyStep p + 1)) as (_ & B & _).
  destruct (Z.eqb_spec (Pulse.timerCnt p) 0); cbn;
    repeat split; try lia; try apply L; apply S.
Qed.

Lemma triangle_ok_new : triangle_ok Triangle.new.
Proof. unfold triangle_ok, length_ok. cbn. lia. Qed.

Lemma triangle_ok_write0 (n : Z) (c : Triangle.t) :
  triangle_ok c -> triangle_ok (Triangle.write0 n c).
Proof.
  intros (S & T & TC & Li & LR & L). unfold triangle_ok, Triangle.write0. cbn.
  pose proof (and_bounds n) as (_ & _ & _ & _ & B & _).
  repeat split; try lia; apply L.
Qed.

Lemma triangle_ok_write2 (n : Z) (c : Triangle.t) :
  triangle_ok c -> triangle_ok (Triangle.write2 (JS.and n 0xFF) c).
Proof.
  intros (S & T & TC & Li & LR & L). unfold triangle_ok, Triangle.write2. cbn.
  pose proof (timer_low (Triangle.timer c) n).
  repeat split; try lia; apply L.
Qed.

Lemma triangle_ok_write3 (n : Z) (c : Triangle.t) :
  triangle_ok c -> triangle_ok (Triangle.write3 n c).
Proof.
  intros (S & T & TC & Li & LR & L). unfold triangle_ok, Triangle.write3.
  cbn [Triangle.step Triangle.timer Triangle.timerCnt Triangle.linear
       Triangle.linearReload Triangle.len].
  pose proof (timer_high (Triangle.timer c) n).
  repeat split; try lia;
    (destruct (Triangle.enabled c); [apply length_ok_load|apply L]).
Qed.

Lemma triangle_ok_setEnabled (n : Z) (c : Triangle.t) :
  triangle_ok c -> triangle_ok (Triangle.setEnabled n c).
Proof.
  intros (S & T & TC & Li & LR & L). unfold triangle_ok, Triangle.setEnabled.
  cbv zeta.
  cbn [Triangle.step Triangle.timer Triangle.timerCnt Triangle.linear
       Triangle.linearReload Triangle.len].
  repeat split; try lia; destruct (negb _); try apply L; cbn; lia.
Qed.

Lemma triangle_ok_quarter (c : Triangle.t) :
  triangle_ok c -> triangle_ok (Triangle.quarter c).
Proof.
  intros (S & T & TC & Li & LR & L). unfold triangle_ok, Triangle.quarter.
  cbn [Triangle.step Triangle.timer Triangle.timerCnt Triangle.linear
       Triangle.linearReload Triangle.len].
  destruct (Triangle.reloadFlag c);
    [|destruct (Z.ltb_spec 0 (Triangle.linear c))];
    repeat split; try lia; apply L.
Qed.

Lemma triangle_ok_half (c : Triangle.t) :
  triangle_ok c -> triangle_ok (Triangle.half c).
Proof.
  intros (S & T & TC & Li & LR & L). unfold triangle_ok, Triangle.half.
  cbn [Triangle.step Triangle.timer Triangle.timerCnt Triangle.linear
       Triangle.linearReload Triangle.len].
  repeat split; try lia; apply length_ok_half, L.
Qed.

Lemma triangle_ok_clock (c : Triangle.t) :
  triangle_ok c -> triangle_ok (Triangle.clock c).
Proof.
  intros (S & T & TC & Li & LR & L). unfold triangle_ok, Triangle.clock.
  pose proof (and_bounds (Triangle.step c + 1)) as (_ & _ & _ & B & _).
  destruct (Z.eqb_spec (Triangle.timerCnt c) 0);
    cbn [Triangle.step Triangle.timer Triangle.timerCnt Triangle.linear
         Triangle.linearReload Triangle.len];
    [destruct (_ && _)|]; repeat split; try lia; apply L.
Qed.

Lemma noise_period_range (i : Z) :
  4 <= JS.or_else (JS.index NOISE_PERIODS i) 4 <= 4068.
Proof.
  unfold JS.index. destruct (i <? 0); [cbn; lia|].
  generalize (Z.to_nat i). intros k.
  do 16 (destruct k as [|k]; [vm_compute; split; discriminate|]).
  vm_compute. split; discriminate.
Qed.

Lemma noise_ok_new : noise_ok Noise.new.
Proof. unfold noise_ok, length_ok. cbn. lia. Qed.

Lemma noise_ok_write0 (n : Z) (c : Noise.t) :
  noise_ok c -> noise_ok (Noise.write0 n c).
Proof. exact id. Qed.

Lemma noise_ok_write2 (n : Z) (c : Noise.t) :
  noise_ok c -> noise_ok (Noise.write2 n c).
Proof.
  intros (P & TC & M & Lf & L). unfold noise_ok, Noise.write2.
  cbn [Noise.periodIdx Noise.timerCnt Noise.mode Noise.lfsr Noise.len].
  pose proof (and_bounds n) as (_ & _ & B & _).
  repeat split; try lia; try apply L.
  destruct (JS.truthy _); auto.
Qed.

Lemma noise_ok_write3 (n : Z) (c : Noise.t) :
  noise_ok c -> noise_ok (Noise.write3 n c).
Proof.
  intros (P & TC & M & Lf & L). unfold noise_ok, Noise.write3.
  cbn [Noise.periodIdx Noise.timerCnt Noise.mode Noise.lfsr Noise.len].
  repeat split; try lia; try exact M;
    (destruct (Noise.enabled c); [apply length_ok_load|apply L]).
Qed.

Lemma noise_ok_setEnabled (n : Z) (c : Noise.t) :
  noise_ok c -> noise_ok (Noise.setEnabled n c).
Proof.
  intros (P & TC & M & Lf & L). unfold noise_ok, Noise.setEnabled. cbv zeta.
  cbn [Noise.periodIdx Noise.timerCnt Noise.mode Noise.lfsr Noise.len].
  repeat split; try lia; try exact M; destruct (negb _); try apply L; cbn; lia.
Qed.

Lemma noise_ok_quarter (c : Noise.t) : noise_ok c -> noise_ok (Noise.quarter c).
Proof. exact id. Qed.

Lemma noise_ok_half (c : Noise.t) : noise_ok c -> noise_ok (Noise.half c).
Proof.
  intros (P & TC & M & Lf & L). unfold noise_ok, Noise.half.
  cbn [Noise.periodIdx Noise.timerCnt Noise.mode Noise.lfsr Noise.len].
  repeat split; try lia; try exact M; apply length_ok_half, L.
Qed.

Lemma noise_ok_clock (c : Noise.t) : noise_ok c -> noise_ok (Noise.clock c).
Proof.
  intros (P & TC & M & Lf & L). unfold noise_ok, Noise.clock.
  pose proof (noise_period_range (Noise.periodIdx c)).
  assert (K : 0 < Noise.shift_lfsr (Noise.mode c) (Noise.lfsr c) < 2 ^ 15).
  { pose proof (shift_lfsr_ok (Noise.mode c) (Noise.lfsr c)) as K.
    unfold NoiseRun.lfsr_ok in K.
    rewrite !andb_true_iff, !Z.ltb_lt in K. apply K. exact Lf. }
  destruct (Z.eqb_spec (Noise.timerCnt c) 0);
    cbn [Noise.periodIdx Noise.timerCnt Noise.mode Noise.lfsr Noise.len];
    repeat split; try lia; try exact M; apply L.
Qed.

Lemma dmc_rate_range (i : Z) :
  54 <= JS.or_else (JS.index DMC_RATES i) 428 <= 428.
Proof.
  unfold JS.index. destruct (i <? 0); [cbn; lia|].
  generalize (Z.to_nat i). intros k.
  do 16 (destruct k as [|k]; [vm_compute; split; discriminate|]).
  vm_compute. split; discriminate.
Qed.

Lemma dmc_ok_new (mem : Z -> Z) : dmc_ok (DMC.new mem).
Proof.
  unfold dmc_ok. repeat split; vm_compute; (reflexivity || discriminate).
Qed.

Lemma dmc_ok_write0 (n : Z) (d : DMC.t) : dmc_ok d -> dmc_ok (DMC.write0 n d).
Proof.
  intros H. unfold dmc_ok, DMC.write0 in *. cbv zeta.
  cbn [DMC.rateIdx DMC.timer DMC.timerCnt DMC.bitsRemaining DMC.bytesRemaining
       DMC.sampleLen0 DMC.sampleAddr0 DMC.currentAddr DMC.sampleBuffer
       DMC.shiftReg DMC.dac].
  pose proof (and_bounds n) as (_ & _ & B & _).
  pose proof (dmc_rate_range (JS.and n 15)). lia.
Qed.

Lemma dmc_ok_write1 (n : Z) (d : DMC.t) : dmc_ok d -> dmc_ok (DMC.write1 n d).
Proof.
  intros H. unfold dmc_ok, DMC.write1, DMC.with_dac in *.
  cbn [DMC.rateIdx DMC.timer DMC.timerCnt DMC.bitsRemaining DMC.bytesRemaining
       DMC.sampleLen0 DMC.sampleAddr0 DMC.currentAddr DMC.sampleBuffer
       DMC.shiftReg DMC.dac].
  pose proof (and_bounds n) as (_ & _ & _ & _ & B & _). lia.
Qed.

Lemma dmc_ok_write2 (n : Z) (d : DMC.t) : dmc_ok d -> dmc_ok (DMC.write2 n d).
Proof.
  intros H. unfold dmc_ok, DMC.write2, DMC.with_sample in *.
  cbn [DMC.rateIdx DMC.timer DMC.timerCnt DMC.bitsRemaining DMC.bytesRemaining
       DMC.sampleLen0 DMC.sampleAddr0 DMC.currentAddr DMC.sampleBuffer
       DMC.shiftReg DMC.dac].
  pose proof (and_bounds n) as (_ & _ & _ & _ & _ & B & _).
  rewrite (shl_small _ 6) by (change (2 ^ 6) with 64; lia).
  change (2 ^ 6) with 64. lia.
Qed.

Lemma dmc_ok_write3 (n : Z) (d : DMC.t) : dmc_ok d -> dmc_ok (DMC.write3 n d).
Proof.
  intros H. unfold dmc_ok, DMC.write3, DMC.with_sample in *.
  cbn [DMC.rateIdx DMC.timer DMC.timerCnt DMC.bitsRemaining DMC.bytesRemaining
       DMC.sampleLen0 DMC.sampleAddr0 DMC.currentAddr DMC.sampleBuffer
       DMC.shiftReg DMC.dac].
  pose proof (and_bounds n) as (_ & _ & _ & _ & _ & B & _).
  rewrite (shl_small _ 4) by (change (2 ^ 4) with 16; lia).
  change (2 ^ 4) with 16. lia.
Qed.

Lemma dmc_ok_setEnabled (on : bool) (d : DMC.t) :
  dmc_ok d -> dmc_ok (DMC.setEnabled on d).
Proof.
  intros H. unfold dmc_ok, DMC.setEnabled, DMC.with_playback in *. cbv zeta.
  destruct (on && negb (DMC.enabled d));
    [destruct (DMC.bytesRemaining d =? 0)|destruct (negb on)];
    cbn [DMC.rateIdx DMC.timer DMC.timerCnt DMC.bitsRemaining
         DMC.bytesRemaining DMC.sampleLen0 DMC.sampleAddr0 DMC.currentAddr
         DMC.sampleBuffer DMC.shiftReg DMC.dac]; lia.
Qed.

Lemma dmc_ok_clear (d : DMC.t) : dmc_ok d -> dmc_ok (DMC.with_irq false d).
Proof. exact id. Qed.

Lemma dmc_ok_refill (d : DMC.t) :
  dmc_ok d -> dmc_ok (DMC.refillBufferIfNeeded d).
Proof.
  intros H. unfold DMC.refillBufferIfNeeded.
  destruct (negb (DMC.sampleBufferEmpty d)); cbn [orb]; [exact H|].
  destruct (Z.eqb_spec (DMC.bytesRemaining d) 0); [exact H|].
  cbv zeta. unfold dmc_ok in *.
  cbn [DMC.rateIdx DMC.timer DMC.timerCnt DMC.bitsRemaining DMC.bytesRemaining
       DMC.sampleLen0 DMC.sampleAddr0 DMC.currentAddr DMC.sampleBuffer
       DMC.shiftReg DMC.dac].
  pose proof (and_bounds (DMC.currentAddr d + 1)) as (_ & _ & _ & _ & _ & _ & B).
  pose proof (and_bounds (DMC.cpuRead d (JS.and (DMC.currentAddr d) 65535)))
    as (_ & _ & _ & _ & _ & B' & _).
  destruct ((DMC.bytesRemaining d - 1 =? 0) && DMC.loop d); lia.
Qed.

Lemma dmc_ok_output (tc : Z) (e : bool) (sr bits dac' : Z) (d : DMC.t) :
  dmc_ok d -> 0 <= tc <= 428 -> 0 <= sr <= 255 -> 0 <= bits <= 8 ->
  0 <= dac' <= 127 -> dmc_ok (DMC.with_output tc e sr bits dac' d).
Proof.
  intros H Ht Hs Hb Hd. unfold dmc_ok, DMC.with_output in *.
  cbn [DMC.rateIdx DMC.timer DMC.timerCnt DMC.bitsRemaining DMC.bytesRemaining
       DMC.sampleLen0 DMC.sampleAddr0 DMC.currentAddr DMC.sampleBuffer
       DMC.shiftReg DMC.dac]. lia.
Qed.

Lemma dmc_ok_clock (d : DMC.t) : dmc_ok d -> dmc_ok (DMC.clock d).
Proof.
  intros H. unfold DMC.clock. apply dmc_ok_refill in H.
  generalize dependent (DMC.refillBufferIfNeeded d). clear d. intros d H.
  pose proof H as (R & T & TC & BI & BY & SL & SA & CA & SB & SR & DA).
  unfold DMC.clock_timer.
  destruct (Z.eqb_spec (DMC.timerCnt d) 0).
  - destruct (Z.eqb_spec (DMC.bitsRemaining d) 0).
    + destruct (negb (DMC.sampleBufferEmpty d)).
      * apply dmc_ok_refill, dmc_ok_output; try assumption; lia.
      * apply dmc_ok_output; try assumption; lia.
    + apply dmc_ok_output; try assumption; try lia.
      * rewrite (shr_div _ 1) by lia. change (2 ^ 1) with 2.
        Z.to_euclidean_division_equations. lia.
      * destruct (JS.truthy _);
          [destruct (Z.leb_spec (DMC.dac d) 125)
          |destruct (Z.leb_spec 2 (DMC.dac d))]; lia.
  - apply dmc_ok_output; try assumption; lia.
Qed.

(** The table lookups of the channels, where the fields are in range. *)
Lemma gate_defined (p : Pulse.t) :
  pulse_ok p -> exists g, Pulse.gate p = Some g /\ (g = 0 \/ g = 1).
Proof.
  intros ((D0 & D1) & (S0 & S1) & _). unfold Pulse.gate, JS.index.
  destruct (Z.ltb_spec (Pulse.duty p) 0); [lia|].
  assert (Hd : (Z.to_nat (Pulse.duty p) < 4)%nat) by lia.
  assert (Hs : (Z.to_nat (Pulse.dutyStep p) < 8)%nat) by lia.
  destruct (Z.ltb_spec (Pulse.dutyStep p) 0) as [|_]; [lia|].
  revert Hd Hs. generalize (Z.to_nat (Pulse.duty p)).
  generalize (Z.to_nat (Pulse.dutyStep p)). intros s d Hd Hs.
  do 4 (destruct d as [|d]; [
    do 8 (destruct s as [|s]; [cbn; eexists; split; [reflexivity|auto]|]);
    lia|]).
  lia.
Qed.

Lemma tri_defined (c : Triangle.t) :
  triangle_ok c ->
  exists v, JS.index Triangle.TRI (Triangle.step c) = Some v /\ 0 <= v <= 15.
Proof.
  intros ((S0 & S1) & _). unfold JS.index.
  destruct (Z.ltb_spec (Triangle.step c) 0); [lia|].
  assert (Hs : (Z.to_nat (Triangle.step c) < 32)%nat) by lia.
  revert Hs. generalize (Z.to_nat (Triangle.step c)). intros s Hs.
  do 32 (destruct s as [|s]; [cbn; eexists; split; [reflexivity|lia]|]).
  lia.
Qed.

Lemma table16_defined (tbl : list Z) (i : Z) :
  length tbl = 16%nat -> 0 <= i <= 15 -> exists v, JS.index tbl i = Some v.
Proof.
  intros L Hi. unfold JS.index. destruct (Z.ltb_spec i 0); [lia|].
  destruct (tbl !! Z.to_nat i) as [v|] eqn:E; [eauto|].
  apply lookup_ge_None_1 in E. lia.
Qed.

(** X19.  The registers stay in range.  In every state that register
    writes, status reads, volume changes and [step] calls reach from the
    constructor's state, the fields of the five channels are in the ranges
    of the hardware registers they stand for (2-bit duty, 3-bit duty step,
    11-bit timers, 5-bit triangle step, 4-bit period and rate indices,
    7-bit linear counter and DAC, 15-bit shift register, length counters up
    to 254, no counter below 0); so the lookups in [DUTY], [TRI],
    [NOISE_PERIODS] and [DMC_RATES] never leave the tables, and no timer
    counter passes below 0, where it would never again be found equal
    to 0. *)
Theorem registers_stay_in_range (mem : Z -> Z) (rate : Q) (audio : bool)
    (ops : list APURun.op) :
  let a := APURun.run ops (APU.new mem rate audio) in
  (pulse_ok (APU.pulse1 a) /\ pulse_ok (APU.pulse2 a) /\
   triangle_ok (APU.triangle a) /\ noise_ok (APU.noise a) /\
   dmc_ok (APU.dmc a)) /\
  (exists g, Pulse.gate (APU.pulse1 a) = Some g /\ (g = 0 \/ g = 1)) /\
  (exists g, Pulse.gate (APU.pulse2 a) = Some g /\ (g = 0 \/ g = 1)) /\
  (exists v, JS.index Triangle.TRI (Triangle.step (APU.triangle a)) = Some v
             /\ 0 <= v <= 15) /\
  (exists v, JS.index NOISE_PERIODS (Noise.periodIdx (APU.noise a)) = Some v) /\
  (exists v, JS.index DMC_RATES (DMC.rateIdx (APU.dmc a)) = Some v).
Proof.
  intros a.
  assert (H : Channels.hold pulse_ok pulse_ok triangle_ok noise_ok dmc_ok a).
  { unfold a. apply hold_run;
      auto using pulse_ok_clock, pulse_ok_quarter, pulse_ok_half,
        triangle_ok_clock, triangle_ok_quarter, triangle_ok_half,
        noise_ok_clock, noise_ok_quarter, noise_ok_half, dmc_ok_clock,
        dmc_ok_clear, pulse_ok_write0, pulse_ok_write1, pulse_ok_write2,
        pulse_ok_write3, triangle_ok_write0, triangle_ok_write2,
        triangle_ok_write3, noise_ok_write0, noise_ok_write2, noise_ok_write3,
        dmc_ok_write0, dmc_ok_write1, dmc_ok_write2, dmc_ok_write3,
        pulse_ok_setEnabled, triangle_ok_setEnabled, noise_ok_setEnabled,
        dmc_ok_setEnabled.
    repeat split; auto using pulse_ok_new, triangle_ok_new, noise_ok_new,
      dmc_ok_new; try apply pulse_ok_new; try apply triangle_ok_new;
      try apply noise_ok_new; apply dmc_ok_new. }
  split; [exact H|].
  destruct H as (H1 & H2 & Ht & Hn & Hd).
  split; [apply gate_defined, H1|]. split; [apply gate_defined, H2|].
  split; [apply tri_defined, Ht|].
  split.
  - apply table16_defined; [reflexivity|apply Hn].
  - apply table16_defined; [reflexivity|apply Hd].
Qed.

End RegisterRanges.

(** ** APU: the interrupt flags and the DMA reads *)

Section InterruptFlags.

Import APU Interrupts.

Lemma flags_step_refl (a : APU.t) : flags_step a a.
Proof. unfold flags_step. auto. Qed.

Lemma flags_step_trans (c b a : APU.t) :
  flags_step c b -> flags_step b a -> flags_step c a.
Proof.
  unfold flags_step. intros (C1 & C2 & C3) (B1 & B2 & B3).
  split; [congruence|]. split; [congruence|].
  destruct C3 as [C3|(C3 & C4 & C5)], B3 as [B3|(B3 & B4 & B5)].
  - left. congruence.
  - right. repeat split; congruence.
  - right. repeat split; congruence.
  - right. repeat split; congruence.
Qed.

Lemma flags_step_sequence (a : APU.t) : flags_step (sequence a) a.
Proof.
  unfold sequence. cbv zeta.
  match goal with
  | |- flags_step (boundary4 _ _ (boundary3 _ _ (boundary2 _ _
              (boundary1 _ _ (init_phase ?x))))) _ =>
      assert (H0 : flags_step (init_phase x) a)
        by (unfold init_phase; destruct (JS.truthy _);
            unfold flags_step; cbn; auto);
      generalize dependent (init_phase x)
  end.
  intros b H0.
  assert (B1 : forall q n c, flags_step (boundary1 q n c) c).
  { intros q n c. unfold boundary1. destruct (_ && _);
      unfold flags_step; cbn; auto. }
  assert (B2 : forall q n c, flags_step (boundary2 q n c) c).
  { intros q n c. unfold boundary2. destruct (_ && _);
      unfold flags_step; cbn; auto. }
  assert (B3 : forall q n c, flags_step (boundary3 q n c) c).
  { intros q n c. unfold boundary3. destruct (_ && _);
      unfold flags_step; cbn; auto. }
  assert (B4 : forall q n c, flags_step (boundary4 q n c) c).
  { intros q n c. unfold boundary4. destruct (_ && _); [|apply flags_step_refl].
    unfold end_of_sequence, flags_step. cbv zeta.
    cbn [_clockQuarterHalf _clockQuarter with_logs with_channels mode5
         irqInhibit frameIRQ].
    destruct (mode5 c) eqn:M, (irqInhibit c) eqn:I; cbn; rewrite ?M, ?I;
      auto 10. }
  eapply flags_step_trans; [apply B4|].
  eapply flags_step_trans; [apply B3|].
  eapply flags_step_trans; [apply B2|].
  eapply flags_step_trans; [apply B1|]. exact H0.
Qed.

Lemma flags_step_resample (a : APU.t) : flags_step (resample a) a.
Proof.
  unfold resample. cbv zeta.
  destruct (Qle_bool _ _); [|unfold flags_step; cbn; auto].
  cbn [audioEnabled with_audio]. destruct (audioEnabled a).
  - unfold _pushSample. destruct (negb _); unfold flags_step;
      cbn [frameIRQ irqInhibit mode5 with_audio]; auto.
  - unfold flags_step; cbn [frameIRQ irqInhibit mode5 with_audio]; auto.
Qed.

Lemma flags_step_cycle (a : APU.t) : flags_step (cycle a) a.
Proof.
  unfold cycle.
  eapply flags_step_trans; [apply flags_step_resample|].
  eapply flags_step_trans; [apply flags_step_sequence|].
  unfold flags_step, clock_channels.
  cbn [frameIRQ irqInhibit mode5 with_channels]. auto.
Qed.

Lemma flags_step_steps (n : Z) (a : APU.t) : flags_step (step n a) a.
Proof.
  unfold step. induction (Z.to_nat n) as [|k IH]; [apply flags_step_refl|].
  change (Nat.iter (S k) cycle a) with (cycle (Nat.iter k cycle a)).
  eapply flags_step_trans; [apply flags_step_cycle|exact IH].
Qed.

Lemma frame_flag_step (b a : APU.t) :
  flags_step b a -> frame_flag_ok a -> frame_flag_ok b.
Proof.
  unfold flags_step, frame_flag_ok. intros (I & M & [F|(F & M0 & I0)]) H E.
  - rewrite I. apply H. congruence.
  - congruence.
Qed.

Lemma frame_flag_write (addr v : Z) (a : APU.t) :
  frame_flag_ok a -> frame_flag_ok (write addr v a).
Proof.
  intros H. unfold write. cbv zeta.
  repeat match goal with
         | |- context [if addr =? ?k then _ else _] => destruct (addr =? k)
         end; try exact H.
  unfold frame_flag_ok.
  cbn [with_frame mode5].
  destruct (JS.truthy (JS.and (JS.and v 255) 128));
    cbn [frameIRQ irqInhibit _updateIRQLine _clockQuarterHalf _clockQuarter
         with_logs with_channels with_frame];
    destruct (JS.truthy (JS.and (JS.and v 255) 64)); congruence.
Qed.

Lemma frame_flag_read (addr : Z) (a : APU.t) :
  frame_flag_ok a -> frame_flag_ok (snd (read addr a)).
Proof.
  intros H. unfold read. destruct (negb _); [exact H|].
  unfold frame_flag_ok. cbn. discriminate.
Qed.

Lemma frame_flag_run (ops : list APURun.op) (a : APU.t) :
  frame_flag_ok a -> frame_flag_ok (APURun.run ops a).
Proof.
  unfold APURun.run. revert a.
  induction ops as [|o ops IH]; intros a H; [exact H|].
  cbn [fold_left]. apply IH.
  destruct o; cbn [APURun.run_op].
  - apply frame_flag_write, H.
  - apply frame_flag_read, H.
  - eapply frame_flag_step; [apply flags_step_steps|exact H].
  - exact H.
Qed.

Lemma dmc_flag_refill (d : DMC.t) :
  dmc_flag_ok d -> dmc_flag_ok (DMC.refillBufferIfNeeded d).
Proof.
  intros H. unfold DMC.refillBufferIfNeeded.
  destruct (_ || _); [exact H|]. cbv zeta. unfold dmc_flag_ok in *.
  cbn [DMC.irq DMC.irqEnable].
  destruct ((DMC.bytesRemaining d - 1 =? 0) && DMC.loop d); [exact H|].
  destruct (DMC.bytesRemaining d - 1 =? 0); cbn [andb]; [|exact H].
  destruct (DMC.irqEnable d); [reflexivity|exact H].
Qed.

Lemma dmc_flag_clock (d : DMC.t) : dmc_flag_ok d -> dmc_flag_ok (DMC.clock d).
Proof.
  intros H. unfold DMC.clock. apply dmc_flag_refill in H.
  generalize dependent (DMC.refillBufferIfNeeded d). clear d. intros d H.
  unfold DMC.clock_timer.
  destruct (DMC.timerCnt d =? 0); [|exact H].
  destruct (DMC.bitsRemaining d =? 0); [|exact H].
  destruct (negb _); [|exact H].
  apply dmc_flag_refill. exact H.
Qed.

Lemma dmc_flag_write0 (n : Z) (d : DMC.t) :
  dmc_flag_ok d -> dmc_flag_ok (DMC.write0 n d).
Proof.
  intros H. unfold dmc_flag_ok, DMC.write0. cbv zeta.
  cbn [DMC.irq DMC.irqEnable].
  destruct (JS.truthy (JS.and n 128)); cbn [negb]; [reflexivity|discriminate].
Qed.

Lemma dmc_flag_setEnabled (on : bool) (d : DMC.t) :
  dmc_flag_ok d -> dmc_flag_ok (DMC.setEnabled on d).
Proof.
  intros H. unfold dmc_flag_ok, DMC.setEnabled, DMC.with_playback in *.
  cbv zeta.
  destruct (on && negb (DMC.enabled d));
    [destruct (DMC.bytesRemaining d =? 0)|destruct (negb on)];
    cbn [DMC.irq DMC.irqEnable]; try exact H; discriminate.
Qed.

Lemma dmc_flag_run (ops : list APURun.op) (a : APU.t) :
  dmc_flag_ok (dmc a) -> dmc_flag_ok (dmc (APURun.run ops a)).
Proof.
  intros H.
  assert (K : Channels.hold (fun _ => True) (fun _ => True) (fun _ => True)
                (fun _ => True) dmc_flag_ok (APURun.run ops a)).
  { apply hold_run; auto using dmc_flag_clock, dmc_flag_write0,
      dmc_flag_setEnabled.
    - intros d _ E. discriminate E.
    - unfold Channels.hold. auto. }
  apply K.
Qed.

(** X20.  The interrupt flags need their enables.  In every state reached
    from the constructor's state, the frame IRQ flag is up only with the
    inhibit bit clear, and the DMC IRQ flag only with the DMC's IRQ enable
    set; so with the inhibit bit set and the DMC IRQ disabled, as after the
    constructor, [cpuIRQ()] is false.  Between register accesses [step]
    never changes the mode or the inhibit bit, and it raises the frame flag
    only in 4-step mode with the inhibit bit clear. *)
Theorem irq_flags_need_enable (mem : Z -> Z) (rate : Q) (audio : bool)
    (ops : list APURun.op) (n : Z) :
  let a := APURun.run ops (new mem rate audio) in
  (frameIRQ a = true -> irqInhibit a = false) /\
  (DMC.irq (dmc a) = true -> DMC.irqEnable (dmc a) = true) /\
  (irqInhibit a = true -> DMC.irqEnable (dmc a) = false -> cpuIRQ a = false) /\
  irqInhibit (step n a) = irqInhibit a /\ mode5 (step n a) = mode5 a /\
  (frameIRQ (step n a) <> frameIRQ a ->
   frameIRQ (step n a) = true /\ mode5 a = false /\ irqInhibit a = false).
Proof.
  intros a.
  assert (F : frame_flag_ok a).
  { apply frame_flag_run. unfold frame_flag_ok. cbn. discriminate. }
  assert (D : dmc_flag_ok (dmc a)).
  { apply dmc_flag_run. unfold dmc_flag_ok. cbn. discriminate. }
  destruct (flags_step_steps n a) as (S1 & S2 & S3).
  split; [exact F|]. split; [exact D|].
  split; [|split; [exact S1|split; [exact S2|]]].
  - intros I E. unfold cpuIRQ.
    destruct (frameIRQ a) eqn:Fa; [rewrite (F Fa) in I; discriminate|].
    destruct (DMC.irq (dmc a)) eqn:Da; [rewrite (D Da) in E; discriminate|].
    reflexivity.
  - intros N. destruct S3 as [S3|S3]; [contradiction|exact S3].
Qed.

End InterruptFlags.

Section DirectMemoryAccess.

Import DMC Interrupts.

Lemma dma_ok_refill (d : DMC.t) : dma_ok d -> dma_ok (refillBufferIfNeeded d).
Proof.
  intros [S F]. unfold refillBufferIfNeeded.
  destruct (_ || _); [split; assumption|]. cbv zeta. unfold dma_ok.
  cbn [stalled reads length]. split; [lia|].
  constructor; [|exact F].
  change 0xFFFF with (Z.ones 16). rewrite and_ones by lia.
  pose proof (Z.mod_pos_bound (currentAddr d) (2 ^ 16) ltac:(lia)).
  change (2 ^ 16) with 65536 in *. change (Z.ones 16) with 65535. lia.
Qed.

Lemma dma_ok_clock (d : DMC.t) : dma_ok d -> dma_ok (clock d).
Proof.
  intros H. unfold clock. apply dma_ok_refill in H.
  generalize dependent (refillBufferIfNeeded d). clear d. intros d H.
  unfold clock_timer.
  destruct (timerCnt d =? 0); [|exact H].
  destruct (bitsRemaining d =? 0); [|exact H].
  destruct (negb _); [|exact H].
  apply dma_ok_refill. exact H.
Qed.

Lemma dma_ok_setEnabled (on : bool) (d : DMC.t) :
  dma_ok d -> dma_ok (setEnabled on d).
Proof.
  intros H. unfold setEnabled, with_playback. cbv zeta.
  destruct (on && negb (enabled d));
    [destruct (bytesRemaining d =? 0)|destruct (negb on)]; exact H.
Qed.

(** X21.  The DMA reads and the CPU stalls.  In every state reached from
    the constructor's state, the cycles handed to [cpuStall] add up to 4
    for each call of [cpuRead], and every address [cpuRead] was called with
    is a 16-bit address.  Only [step] makes reads: a register write, a
    status read and a volume change leave the log of reads as it was. *)
Theorem dma_reads_and_stalls (mem : Z -> Z) (rate : Q) (audio : bool)
    (ops : list APURun.op) (o : APURun.op) :
  let a := APURun.run ops (APU.new mem rate audio) in
  stalled (APU.dmc a) = 4 * Z.of_nat (length (reads (APU.dmc a))) /\
  Forall (fun addr => 0 <= addr <= 0xFFFF) (reads (APU.dmc a)) /\
  (match o with APURun.Step _ => False | _ => True end ->
   reads (APU.dmc (APURun.run_op o a)) = reads (APU.dmc a)).
Proof.
  intros a.
  assert (K : Channels.hold (fun _ => True) (fun _ => True) (fun _ => True)
                (fun _ => True) dma_ok a).
  { apply hold_run; auto using dma_ok_clock, dma_ok_setEnabled.
    unfold Channels.hold, dma_ok. cbn. auto 10. }
  destruct K as (_ & _ & _ & _ & S & F).
  split; [exact S|]. split; [exact F|].
  destruct o as [addr v|addr|n|v]; cbn [APURun.run_op]; intros T;
    [| |contradiction|reflexivity].
  - unfold APU.write. cbv zeta.
    repeat match goal with
           | |- context [if addr =? ?k then _ else _] => destruct (addr =? k)
           end; try reflexivity.
    + cbn [APU.dmc APU.with_channels APU._updateIRQLine APU.with_logs].
      assert (E : forall on d, reads (setEnabled on d) = reads d).
      { intros on d. unfold setEnabled, with_playback. cbv zeta.
        destruct (on && negb (enabled d));
          [destruct (bytesRemaining d =? 0)|destruct (negb on)]; reflexivity. }
      destruct (negb _); cbn [reads with_irq]; apply E.
    + cbn [APU.with_frame APU.mode5]. destruct (JS.truthy _); reflexivity.
  - unfold APU.read. destruct (negb _); reflexivity.
Qed.

Lemma dma_addresses_S (a : Z) (k : nat) :
  dma_addresses a (S k) = (a + Z.of_nat k) mod 65536 :: dma_addresses a k.
Proof.
  unfold dma_addresses. rewrite seq_S, map_app, rev_app_distr. reflexivity.
Qed.

Lemma reading_refill (a : Z) (r0 : list Z) (d : DMC.t) :
  reading_from a r0 d -> reading_from a r0 (refillBufferIfNeeded d).
Proof.
  intros (L & k & R & C). unfold refillBufferIfNeeded.
  destruct (_ || _); [split; [exact L|eauto]|]. cbv zeta.
  unfold reading_from. cbn [loop reads currentAddr].
  split; [exact L|]. exists (S k). rewrite L, andb_false_r.
  change 0xFFFF with (Z.ones 16). rewrite !and_ones by lia.
  change (2 ^ 16) with 65536.
  split.
  - rewrite dma_addresses_S, R, C. reflexivity.
  - rewrite Z.mod_mod by lia.
    rewrite <- Zplus_mod_idemp_l, C, Zplus_mod_idemp_l.
    f_equal. lia.
Qed.

Lemma reading_clock (a : Z) (r0 : list Z) (d : DMC.t) :
  reading_from a r0 d -> reading_from a r0 (clock d).
Proof.
  intros H. unfold clock. apply reading_refill in H.
  generalize dependent (refillBufferIfNeeded d). clear d. intros d H.
  unfold clock_timer.
  destruct (timerCnt d =? 0); [|exact H].
  destruct (bitsRemaining d =? 0); [|exact H].
  destruct (negb _); [|exact H].
  apply reading_refill. exact H.
Qed.

(** X22.  The addresses of a sample.  When a DMC at rest is enabled with
    the loop flag clear and then clocked, the reads it makes are at
    consecutive addresses from [sampleAddr0] on, taken modulo 0x10000: after
    0xFFFF comes 0.  The log of reads is, latest first, the addresses of
    the [k] bytes fetched so far followed by the reads made before. *)
Theorem dmc_reads_consecutive (n : nat) (d0 : DMC.t) :
  enabled d0 = false -> bytesRemaining d0 = 0 -> loop d0 = false ->
  let d := DMCRun.clocks n (setEnabled true d0) in
  let k := (length (reads d) - length (reads d0))%nat in
  reads d = dma_addresses (sampleAddr0 d0) k ++ reads d0 /\
  (forall i, (i < k)%nat ->
     rev (reads d) !! (length (reads d0) + i)%nat
     = Some ((sampleAddr0 d0 + Z.of_nat i) mod 65536)).
Proof.
  intros En By Lp. cbv zeta.
  assert (H : reading_from (sampleAddr0 d0) (reads d0)
                (DMCRun.clocks n (setEnabled true d0))).
  { unfold DMCRun.clocks. induction n as [|n IH].
    - change (Nat.iter 0 clock (setEnabled true d0)) with (setEnabled true d0).
      unfold setEnabled. rewrite En, By. cbn.
      split; [exact Lp|]. exists 0%nat. split; [reflexivity|].
      now rewrite Z.add_0_r.
    - change (Nat.iter (S n) clock (setEnabled true d0))
        with (clock (Nat.iter n clock (setEnabled true d0))).
      apply reading_clock, IH. }
  destruct H as (_ & k & R & _).
  assert (K : (length (reads (DMCRun.clocks n (setEnabled true d0)))
               - length (reads d0))%nat = k).
  { rewrite R, length_app. unfold dma_addresses.
    rewrite length_rev, length_map, length_seq. lia. }
  rewrite K. split; [exact R|].
  intros i Hi. rewrite R, rev_app_distr. unfold dma_addresses.
  rewrite rev_involutive.
  rewrite lookup_app_r by (rewrite length_rev; lia).
  rewrite length_rev.
  replace (length (reads d0) + i - length (reads d0))%nat with i by lia.
  rewrite list_lookup_fmap.
  rewrite lookup_seq_lt by exact Hi. reflexivity.
Qed.

(** A sample at 0xFFC0 of 0x81 bytes: [$4012 = 0xFF], [$4013 = 0x08]. *)
Lemma dmc_reads_witness :
  let d0 := write3 0x08 (write2 0xFF (new (fun _ => 0))) in
  let d := DMCRun.clocks 5000 (setEnabled true d0) in
  sampleAddr0 d0 = 0xFFC0 /\
  reads d
  = dma_addresses 0xFFC0 (length (reads d) - length (reads d0)) ++ [].
Proof.
  intros d0 d.
  destruct (dmc_reads_consecutive 5000 d0) as (R & _);
    [reflexivity | reflexivity | reflexivity |].
  split; [reflexivity|exact R].
Defined.

End DirectMemoryAccess.

(** ** APU: the outputs of the channels in every state *)

Section ReachableOutputs.

Import APU APURun.

(** X23.  The outputs are in range in every state.  Whatever registers
    are written and read, whatever the volume is set to and however long
    the APU is stepped from the constructor's state, the two pulse
    channels, the triangle and the noise channel put out a value from 0 to
    15 and the DMC one from 0 to 127; the volume is a finite value within
    [0, 1] or NaN, and the sample [_mix] would compute and every sample
    [step] has produced are finite values within [-1, 1] or NaN.  In a run
    that never hands NaN to [setVolume] none of them is NaN. *)
Theorem outputs_in_range (mem : Z -> Z) (rate : Q) (audio : bool)
    (ops : list APURun.op) :
  let a := APURun.run ops (new mem rate audio) in
  0 <= Pulse.out (pulse1 a) <= 15 /\
  0 <= Pulse.out (pulse2 a) <= 15 /\
  0 <= Triangle.out (triangle a) <= 15 /\
  0 <= Noise.out (noise a) <= 15 /\
  0 <= DMC.out (dmc a) <= 127 /\
  in_range true 0 1 (master a) /\
  in_range true (-1) 1 (_mix a) /\
  Forall (in_range true (-1) 1) (samples a) /\
  (forallb numeric ops = true ->
   in_range false 0 1 (master a) /\
   in_range false (-1) 1 (_mix a) /\
   Forall (in_range false (-1) 1) (samples a)).
Proof.
  intros a.
  assert (G : forall nan, (nan = false -> forallb numeric ops = true) ->
            (0 <= Pulse.out (pulse1 a) <= 15 /\
             0 <= Pulse.out (pulse2 a) <= 15 /\
             0 <= Triangle.out (triangle a) <= 15 /\
             0 <= Noise.out (noise a) <= 15 /\
             0 <= DMC.out (dmc a) <= 127) /\
            in_range nan 0 1 (master a) /\
            in_range nan (-1) 1 (_mix a) /\
            Forall (in_range nan (-1) 1) (samples a)).
  { intros nan Ho.
    pose proof (outputs_ok_run nan ops _ Ho (outputs_ok_new nan mem rate audio))
      as (P1 & P2 & N & D & M & S).
    fold a in P1, P2, N, D, M, S.
    pose proof (pulse_out_range _ P1) as O1.
    pose proof (pulse_out_range _ P2) as O2.
    pose proof (triangle_out_range (triangle a)) as Ot.
    pose proof (noise_out_range _ N) as On.
    pose proof (mix_bounds nan a O1 O2 Ot On D M) as X.
    unfold DMC.out. auto 10. }
  destruct (G true ltac:(discriminate)) as ((O1 & O2 & Ot & On & D) & M & X & S).
  split; [exact O1|]. split; [exact O2|]. split; [exact Ot|].
  split; [exact On|]. split; [exact D|]. split; [exact M|].
  split; [exact X|]. split; [exact S|].
  intros Ho. destruct (G false (fun _ => Ho)) as (_ & M' & X' & S').
  auto.
Qed.

End ReachableOutputs.
